(** * The consolidated-logging slot engine (src/log/log_slot.c)

    A shallow embedding of WiredTiger's log slot code and the properties
    of its join / release / close / switch protocol.

    Conventions of the embedding:
    - C integers are [Z] with the wrap-around of their type written out
      ([wrap32], [wrap64], [u64]);
    - a [WT_LOGSLOT *] is an index into [log->slot_pool] ([None] is NULL);
    - every function threads the connection it mutates and returns an
      [outcome]: a normal return, a wild pointer, or a spin loop that was
      still running when its schedule ran out;
    - a [WT_ASSERT] whose condition is false leaves its source line in the
      ghost field [failed_asserts];
    - a compare-and-swap loop takes a _schedule_: the list of what the other
      threads do to the log between this thread's load and its CAS, one
      entry per iteration.  With the schedule exhausted nobody interferes. *)

From Stdlib Require Import ZArith Lia List Bool.
From stdpp Require Import base list.

Local Open Scope Z_scope.

(** ** Machine integers *)

Definition wrap64 (z : Z) : Z := (z + 2 ^ 63) mod 2 ^ 64 - 2 ^ 63.
Definition wrap32 (z : Z) : Z := (z + 2 ^ 31) mod 2 ^ 32 - 2 ^ 31.
Definition u64 (z : Z) : Z := z mod 2 ^ 64.

Definition int64_range (z : Z) : Prop := - 2 ^ 63 <= z < 2 ^ 63.

(** ** The packed slot state (macros of log.h) *)

Module SlotState.

(** Modelled from the spec: log.h, which defines the WT_LOG_SLOT_* macros,
    is not part of the sources at hand.  The widths follow the table of the
    data model: JOINED in the low 24 bits, RELEASED in the 24 bits above
    it, the flag bits in the top 16. *)
Definition JOINED_BITS : Z := 24.
Definition RELEASED_BITS : Z := 24.
Definition FLAG_SHIFT : Z := JOINED_BITS + RELEASED_BITS.

(** Modelled from the spec: the two flag bits of log.h; [CLOSE] (slot no
    longer accepts joins) and [RESERVED] (the special states) sit among the
    flag bits, [RESERVED] being the sign bit of the int64_t word. *)
Definition WT_LOG_SLOT_CLOSE : Z := 2 ^ 62.
Definition WT_LOG_SLOT_RESERVED : Z := - 2 ^ 63.

(** Modelled from the spec: the masks of log.h that select the counters
    ([MASK_OFF]) and the flag bits ([MASK_ON]). *)
Definition WT_LOG_SLOT_JOIN_MASK : Z := Z.ones JOINED_BITS.
Definition WT_LOG_SLOT_REL_MASK : Z := Z.ones RELEASED_BITS.
Definition WT_LOG_SLOT_MASK_OFF : Z := Z.ones FLAG_SHIFT.
Definition WT_LOG_SLOT_MASK_ON : Z := Z.lnot WT_LOG_SLOT_MASK_OFF.

(** Modelled from the spec: [SLOT_MAX] of log.h, the upper bound on a join
    size, representable in the JOINED bitfield. *)
Definition WT_LOG_SLOT_MAXIMUM : Z := 2 ^ JOINED_BITS - 1.

(** Modelled from the spec: FLD64_ISSET of the flag macros (misc.h). *)
Definition FLD64_ISSET (field mask : Z) : bool :=
  negb (Z.land field mask =? 0).

(** Modelled from the spec: the helpers of log.h that extract the fields
    of a state word, and JOIN_REL, which composes one from field values. *)
Definition WT_LOG_SLOT_FLAGS (state : Z) : Z :=
  Z.land state WT_LOG_SLOT_MASK_ON.
Definition WT_LOG_SLOT_JOINED (state : Z) : Z :=
  Z.land state WT_LOG_SLOT_JOIN_MASK.
Definition WT_LOG_SLOT_RELEASED (state : Z) : Z :=
  Z.land (Z.shiftr state JOINED_BITS) WT_LOG_SLOT_REL_MASK.
Definition WT_LOG_SLOT_JOIN_REL (j r s : Z) : Z :=
  wrap64 (wrap64 (j + wrap64 (Z.shiftl r JOINED_BITS)) + s).

(** Modelled from the spec: the derived predicates of log.h.
    OPEN: no flag bits set.  CLOSED: the CLOSE flag is set.
    DONE: CLOSE set and JOINED = RELEASED. *)
Definition WT_LOG_SLOT_OPEN (state : Z) : bool :=
  WT_LOG_SLOT_FLAGS state =? 0.
Definition WT_LOG_SLOT_CLOSED (state : Z) : bool :=
  FLD64_ISSET state WT_LOG_SLOT_CLOSE.
Definition WT_LOG_SLOT_INPROGRESS (state : Z) : bool :=
  negb (WT_LOG_SLOT_RELEASED state =? WT_LOG_SLOT_JOINED state).
Definition WT_LOG_SLOT_DONE (state : Z) : bool :=
  WT_LOG_SLOT_CLOSED state && negb (WT_LOG_SLOT_INPROGRESS state).

(** Modelled from the spec: the sentinel literal of log.h for a slot that
    sits in the pool.  A freed slot counts as RESERVED for [slot_close]. *)
Definition WT_LOG_SLOT_FREE : Z := -1.

End SlotState.
Export SlotState.

(** ** Data model (the structures of log.h the slot code touches) *)

Module LSN.
(** WT_LSN: a log sequence number, (file, offset). *)
Record WT_LSN : Type := mk { file : Z; offset : Z }.
End LSN.
Abbreviation WT_LSN := LSN.WT_LSN.

(** WT_ITEM, the slot buffer: [None] is a buffer with no memory. *)
Definition WT_ITEM : Type := option (list Byte.byte).

Record WT_LOGSLOT : Type := mkSlot {
  slot_state : Z;              (* volatile int64_t *)
  slot_unbuffered : Z;         (* int64_t *)
  slot_error : Z;              (* int32_t *)
  slot_start_offset : Z;       (* wt_off_t *)
  slot_last_offset : Z;        (* wt_off_t *)
  slot_release_lsn : WT_LSN;
  slot_start_lsn : WT_LSN;
  slot_end_lsn : WT_LSN;
  slot_fh : Z;                 (* WT_FH *, a handle *)
  slot_buf : WT_ITEM;
  flags : Z                    (* uint32_t *)
}.

Record WT_LOG : Type := mkLog {
  alloc_lsn : WT_LSN;
  write_lsn : WT_LSN;
  log_fh : Z;
  active_slot : option nat;    (* WT_LOGSLOT *, into slot_pool *)
  slot_pool : list WT_LOGSLOT; (* WT_LOGSLOT slot_pool[WT_SLOT_POOL] *)
  slot_buf_size : Z;           (* uint32_t *)
  log_flags : Z                (* uint32_t *)
}.

(** The connection statistics the slot code bumps. *)
Record WT_CONNECTION_STATS : Type := mkStats {
  log_slot_closes : Z;
  log_slot_consolidated : Z;
  log_slot_races : Z;
  log_slot_joins : Z;
  log_slot_transitions : Z;
  log_buffer_size : Z
}.

(** One call of __wt_write that succeeded: handle, offset, length and the
    memory it was given. *)
Record WT_WRITE : Type := mkWrite {
  w_fh : Z; w_offset : Z; w_len : Z; w_mem : WT_ITEM
}.

(** WT_CONNECTION_IMPL.  [log_wrlsn_cond] counts the signals sent to the
    write-LSN thread and [files] lists the writes that reached the log
    files.  [failed_asserts] is ghost state: the source lines of the
    WT_ASSERTs whose condition was false when control passed them (a
    diagnostic build stops at the first; a production build compiles them
    out and runs on). *)
Record WT_CONNECTION_IMPL : Type := mkConn {
  log : WT_LOG;
  log_file_max : Z;
  log_wrlsn_cond : nat;
  stats : WT_CONNECTION_STATS;
  files : list WT_WRITE;
  failed_asserts : list Z
}.

Record WT_SESSION_IMPL : Type := mkSession { session_flags : Z }.

Module MYSLOT.
(** WT_MYSLOT: what a join hands to its caller. *)
Record WT_MYSLOT : Type := mk {
  slot : option nat;           (* WT_LOGSLOT * *)
  offset : Z;                  (* wt_off_t *)
  end_offset : Z               (* wt_off_t *)
}.
End MYSLOT.
Abbreviation WT_MYSLOT := MYSLOT.WT_MYSLOT.

(** *** Field updates *)

Definition set_slot_state (v : Z) (s : WT_LOGSLOT) : WT_LOGSLOT :=
  mkSlot v (slot_unbuffered s) (slot_error s) (slot_start_offset s)
    (slot_last_offset s) (slot_release_lsn s) (slot_start_lsn s)
    (slot_end_lsn s) (slot_fh s) (slot_buf s) (flags s).
Definition set_slot_error (v : Z) (s : WT_LOGSLOT) : WT_LOGSLOT :=
  mkSlot (slot_state s) (slot_unbuffered s) v (slot_start_offset s)
    (slot_last_offset s) (slot_release_lsn s) (slot_start_lsn s)
    (slot_end_lsn s) (slot_fh s) (slot_buf s) (flags s).
Definition set_slot_last_offset (v : Z) (s : WT_LOGSLOT) : WT_LOGSLOT :=
  mkSlot (slot_state s) (slot_unbuffered s) (slot_error s)
    (slot_start_offset s) v (slot_release_lsn s) (slot_start_lsn s)
    (slot_end_lsn s) (slot_fh s) (slot_buf s) (flags s).
Definition set_slot_release_lsn (v : WT_LSN) (s : WT_LOGSLOT) : WT_LOGSLOT :=
  mkSlot (slot_state s) (slot_unbuffered s) (slot_error s)
    (slot_start_offset s) (slot_last_offset s) v (slot_start_lsn s)
    (slot_end_lsn s) (slot_fh s) (slot_buf s) (flags s).
Definition set_slot_end_lsn (v : WT_LSN) (s : WT_LOGSLOT) : WT_LOGSLOT :=
  mkSlot (slot_state s) (slot_unbuffered s) (slot_error s)
    (slot_start_offset s) (slot_last_offset s) (slot_release_lsn s)
    (slot_start_lsn s) v (slot_fh s) (slot_buf s) (flags s).
Definition set_slot_buf (v : WT_ITEM) (s : WT_LOGSLOT) : WT_LOGSLOT :=
  mkSlot (slot_state s) (slot_unbuffered s) (slot_error s)
    (slot_start_offset s) (slot_last_offset s) (slot_release_lsn s)
    (slot_start_lsn s) (slot_end_lsn s) (slot_fh s) v (flags s).
Definition set_flags (v : Z) (s : WT_LOGSLOT) : WT_LOGSLOT :=
  mkSlot (slot_state s) (slot_unbuffered s) (slot_error s)
    (slot_start_offset s) (slot_last_offset s) (slot_release_lsn s)
    (slot_start_lsn s) (slot_end_lsn s) (slot_fh s) (slot_buf s) v.

Definition set_alloc_lsn (v : WT_LSN) (l : WT_LOG) : WT_LOG :=
  mkLog v (write_lsn l) (log_fh l) (active_slot l) (slot_pool l)
    (slot_buf_size l) (log_flags l).
Definition set_active_slot (v : option nat) (l : WT_LOG) : WT_LOG :=
  mkLog (alloc_lsn l) (write_lsn l) (log_fh l) v (slot_pool l)
    (slot_buf_size l) (log_flags l).
Definition set_slot_pool (v : list WT_LOGSLOT) (l : WT_LOG) : WT_LOG :=
  mkLog (alloc_lsn l) (write_lsn l) (log_fh l) (active_slot l) v
    (slot_buf_size l) (log_flags l).
Definition set_slot_buf_size (v : Z) (l : WT_LOG) : WT_LOG :=
  mkLog (alloc_lsn l) (write_lsn l) (log_fh l) (active_slot l) (slot_pool l)
    v (log_flags l).
Definition set_log_flags (v : Z) (l : WT_LOG) : WT_LOG :=
  mkLog (alloc_lsn l) (write_lsn l) (log_fh l) (active_slot l) (slot_pool l)
    (slot_buf_size l) v.

Definition set_log (v : WT_LOG) (c : WT_CONNECTION_IMPL) : WT_CONNECTION_IMPL :=
  mkConn v (log_file_max c) (log_wrlsn_cond c) (stats c) (files c)
    (failed_asserts c).
Definition set_stats (v : WT_CONNECTION_STATS) (c : WT_CONNECTION_IMPL)
  : WT_CONNECTION_IMPL :=
  mkConn (log c) (log_file_max c) (log_wrlsn_cond c) v (files c)
    (failed_asserts c).
Definition set_files (v : list WT_WRITE) (c : WT_CONNECTION_IMPL)
  : WT_CONNECTION_IMPL :=
  mkConn (log c) (log_file_max c) (log_wrlsn_cond c) (stats c) v
    (failed_asserts c).

(** The slot a pointer refers to, and a store through the pointer. *)
Definition get_slot (l : WT_LOG) (i : nat) : option WT_LOGSLOT :=
  slot_pool l !! i.
Definition put_slot (i : nat) (s : WT_LOGSLOT) (l : WT_LOG) : WT_LOG :=
  set_slot_pool (<[i := s]> (slot_pool l)) l.

(** ** Outcomes, assertions, statistics, atomics *)

Inductive outcome (A : Type) : Type :=
| Returned (a : A)     (* the function returned *)
| BadPointer           (* a slot pointer outside the pool was followed *)
| Spinning.            (* still in a retry loop when the schedule ended *)
Arguments Returned {A} a.
Arguments BadPointer {A}.
Arguments Spinning {A}.

(** What the other threads do to the log between two steps of this one. *)
Definition interference : Type := WT_LOG -> WT_LOG.
Definition schedule : Type := list interference.

(** The step of the schedule that falls into this iteration. *)
Definition interfere (sched : schedule) (l : WT_LOG) : WT_LOG :=
  match sched with
  | [] => l
  | env :: _ => env l
  end.

(** Modelled from the spec: WT_ASSERT (misc.h).  A false condition is a
    programming error; the model records the line and runs on, as the
    production build does. *)
Definition WT_ASSERT (line : Z) (cond : bool) (c : WT_CONNECTION_IMPL)
  : WT_CONNECTION_IMPL :=
  if cond then c
  else mkConn (log c) (log_file_max c) (log_wrlsn_cond c) (stats c) (files c)
         (failed_asserts c ++ [line]).

(** Modelled from the spec: F_ISSET / LF_ISSET / F_SET of misc.h, on a
    flags word. *)
Definition F_ISSET (flagword mask : Z) : bool :=
  negb (Z.land flagword mask =? 0).
Definition F_SET (flagword mask : Z) : Z := Z.lor flagword mask.

(** Modelled from the spec: the atomics of the platform header.
    [__wt_atomic_casiv64] stores [new] when the cell holds [old] and tells
    whether it did; [__wt_atomic_addiv64] adds and returns the sum. *)
Definition __wt_atomic_casiv64 (cell old new : Z) : bool * Z :=
  if cell =? old then (true, new) else (false, cell).
Definition __wt_atomic_addiv64 (cell v : Z) : Z := wrap64 (cell + v).

Definition stat_incrv_closes (c : WT_CONNECTION_IMPL) : WT_CONNECTION_IMPL :=
  let st := stats c in
  set_stats (mkStats (log_slot_closes st + 1) (log_slot_consolidated st)
    (log_slot_races st) (log_slot_joins st) (log_slot_transitions st)
    (log_buffer_size st)) c.
Definition stat_incrv_consolidated (v : Z) (c : WT_CONNECTION_IMPL)
  : WT_CONNECTION_IMPL :=
  let st := stats c in
  set_stats (mkStats (log_slot_closes st) (log_slot_consolidated st + v)
    (log_slot_races st) (log_slot_joins st) (log_slot_transitions st)
    (log_buffer_size st)) c.
Definition stat_incr_races (c : WT_CONNECTION_IMPL) : WT_CONNECTION_IMPL :=
  let st := stats c in
  set_stats (mkStats (log_slot_closes st) (log_slot_consolidated st)
    (log_slot_races st + 1) (log_slot_joins st) (log_slot_transitions st)
    (log_buffer_size st)) c.
Definition stat_incr_joins (c : WT_CONNECTION_IMPL) : WT_CONNECTION_IMPL :=
  let st := stats c in
  set_stats (mkStats (log_slot_closes st) (log_slot_consolidated st)
    (log_slot_races st) (log_slot_joins st + 1) (log_slot_transitions st)
    (log_buffer_size st)) c.
Definition stat_incr_transitions (c : WT_CONNECTION_IMPL)
  : WT_CONNECTION_IMPL :=
  let st := stats c in
  set_stats (mkStats (log_slot_closes st) (log_slot_consolidated st)
    (log_slot_races st) (log_slot_joins st) (log_slot_transitions st + 1)
    (log_buffer_size st)) c.
Definition stat_incrv_buffer_size (v : Z) (c : WT_CONNECTION_IMPL)
  : WT_CONNECTION_IMPL :=
  let st := stats c in
  set_stats (mkStats (log_slot_closes st) (log_slot_consolidated st)
    (log_slot_races st) (log_slot_joins st) (log_slot_transitions st)
    (log_buffer_size st + v)) c.

(** ** What the slot code takes from the rest of the engine *)

(** Constants of the headers whose values no property below depends on,
    and the build option HAVE_DIAGNOSTIC, which compiles the block of
    __wt_log_slot_switch that reads the slot again (lines 121-126) in or
    out. *)
Class Header : Type := {
  HAVE_DIAGNOSTIC : bool;
  WT_SESSION_LOCKED_SLOT : Z;
  WT_LOG_FORCE_CONSOLIDATE : Z;
  WT_LOG_DSYNC : Z;
  WT_LOG_FSYNC : Z;
  WT_SLOT_SYNC : Z;
  WT_SLOT_SYNC_DIR : Z;
  WT_SLOT_INIT_FLAGS : Z;
  WT_LOG_SLOT_BUF_SIZE : Z
}.

(** The collaborators: file-space acquisition of the log core, the file
    write and the buffer allocator.  Each returns its error code (0 is
    success) and what it left behind. *)
Class Collaborators : Type := {
  __wt_log_acquire : WT_LOG -> Z -> nat -> Z * WT_LOG;
  __wt_write : list WT_WRITE -> Z -> Z -> Z -> WT_ITEM -> Z * list WT_WRITE;
  __wt_buf_init : WT_ITEM -> Z -> Z * WT_ITEM
}.

(** Modelled from the spec: __wt_buf_free releases the buffer's memory. *)
Definition __wt_buf_free (buf : WT_ITEM) : WT_ITEM := None.

(** ** The functions of log_slot.c *)

Section LogSlot.

Context {hdr : Header} {ext : Collaborators}.

Definition locked_slot (session : WT_SESSION_IMPL) : bool :=
  F_ISSET (session_flags session) WT_SESSION_LOCKED_SLOT.

(** __wt_log_slot_activate: initialize a slot to become active. *)
Definition __wt_log_slot_activate (l : WT_LOG) (slot : nat)
  : outcome WT_LOG :=
  match get_slot l slot with
  | None => BadPointer
  | Some s =>
      Returned (put_slot slot
        {| slot_state := 0;
           slot_start_lsn := alloc_lsn l;
           slot_end_lsn := alloc_lsn l;
           slot_start_offset := LSN.offset (alloc_lsn l);
           slot_last_offset := LSN.offset (alloc_lsn l);
           slot_fh := log_fh l;
           slot_error := 0;
           slot_unbuffered := 0;
           slot_release_lsn := slot_release_lsn s;
           slot_buf := slot_buf s;
           flags := flags s |} l)
  end.

(** The compare-and-swap on [slot->slot_state]. *)
Definition cas_slot_state (l : WT_LOG) (slot : nat) (old new : Z)
  : option (bool * WT_LOG) :=
  match get_slot l slot with
  | None => None
  | Some s =>
      let '(won, v) := __wt_atomic_casiv64 (slot_state s) old new in
      Some (won, put_slot slot (set_slot_state v s) l)
  end.

(** __wt_log_slot_close, after the close CAS was won: "We own the slot
    now.  No one else can join.  Set the end LSN."  [releasep] is the
    caller's int, [None] for a NULL pointer. *)
Definition close_owned (c : WT_CONNECTION_IMPL) (slot : nat)
    (old_state new_state : Z) (releasep : option Z)
  : outcome (Z * option Z * WT_CONNECTION_IMPL) :=
  let c := stat_incrv_closes c in
  let releasep :=
    if WT_LOG_SLOT_DONE new_state && bool_decide (is_Some releasep)
    then Some 1 else releasep in
  match get_slot (log c) slot with
  | None => BadPointer
  | Some s =>
      let end_offset := WT_LOG_SLOT_JOINED old_state in
      let end_lsn :=
        LSN.mk (LSN.file (slot_start_lsn s))
               (wrap64 (LSN.offset (slot_start_lsn s) + end_offset)) in
      let c := set_log (put_slot slot (set_slot_end_lsn end_lsn s) (log c)) c in
      let c := stat_incrv_consolidated end_offset c in
      let c := set_log (set_alloc_lsn end_lsn (log c)) c in
      let c := WT_ASSERT 88
        (LSN.file (alloc_lsn (log c)) >=? LSN.file (write_lsn (log c))) c in
      Returned (0, releasep, c)
  end.

(** The retry loop of __wt_log_slot_close. *)
Fixpoint close_retry (sched : schedule) (c : WT_CONNECTION_IMPL) (slot : nat)
    (releasep : option Z) : outcome (Z * option Z * WT_CONNECTION_IMPL) :=
  match get_slot (log c) slot with
  | None => BadPointer
  | Some s =>
      let old_state := slot_state s in
      if WT_LOG_SLOT_CLOSED old_state then Returned (0, releasep, c)
      else if FLD64_ISSET (slot_state s) WT_LOG_SLOT_RESERVED
      then Returned (0, releasep, c)
      else
        let new_state := Z.lor old_state WT_LOG_SLOT_CLOSE in
        let c := set_log (interfere sched (log c)) c in
        match cas_slot_state (log c) slot old_state new_state with
        | None => BadPointer
        | Some (true, l) =>
            close_owned (set_log l c) slot old_state new_state releasep
        | Some (false, _) =>
            match sched with
            | [] => Spinning
            | _ :: sched => close_retry sched c slot releasep
            end
        end
  end.

(** __wt_log_slot_close: close out the slot the caller is using. *)
Definition __wt_log_slot_close (sched : schedule) (session : WT_SESSION_IMPL)
    (c : WT_CONNECTION_IMPL) (slot : option nat) (releasep : option Z)
  : outcome (Z * option Z * WT_CONNECTION_IMPL) :=
  let c := WT_ASSERT 46 (locked_slot session) c in
  let releasep := match releasep with Some _ => Some 0 | None => None end in
  match slot with
  | None => Returned (0, releasep, c)
  | Some slot => close_retry sched c slot releasep
  end.

(** The scan of the pool in __wt_log_slot_new: the first slot, from index
    [i] on, whose state is WT_LOG_SLOT_FREE. *)
Fixpoint scan_pool (pool : list WT_LOGSLOT) (i : nat) : option nat :=
  match pool with
  | [] => None
  | s :: pool =>
      if slot_state s =? WT_LOG_SLOT_FREE then Some i
      else scan_pool pool (S i)
  end.

(** The "keep trying until we can find a free slot" loop. *)
Fixpoint new_retry (sched : schedule) (c : WT_CONNECTION_IMPL)
  : outcome (Z * WT_CONNECTION_IMPL) :=
  match scan_pool (slot_pool (log c)) 0 with
  | Some slot =>
      let '(ret, l) :=
        __wt_log_acquire (log c) (slot_buf_size (log c)) slot in
      let c := set_log l c in
      if negb (ret =? 0) then Returned (ret, c)
      else
        let c := stat_incr_transitions c in
        let c := set_log (set_active_slot (Some slot) (log c)) c in
        Returned (0, c)
  | None =>
      (* signal the worker thread and yield *)
      let c := mkConn (log c) (log_file_max c) (S (log_wrlsn_cond c))
                 (stats c) (files c) (failed_asserts c) in
      match sched with
      | [] => Spinning
      | env :: sched => new_retry sched (set_log (env (log c)) c)
      end
  end.

(** __wt_log_slot_new: find a free slot and switch it as the new active
    slot. *)
Definition __wt_log_slot_new (sched : schedule) (session : WT_SESSION_IMPL)
    (c : WT_CONNECTION_IMPL) : outcome (Z * WT_CONNECTION_IMPL) :=
  let c := WT_ASSERT 144 (locked_slot session) c in
  if negb (F_ISSET (log_flags (log c)) WT_LOG_FORCE_CONSOLIDATE)
  then Returned (0, c)
  else
    match active_slot (log c) with
    | Some slot =>
        match get_slot (log c) slot with
        | None => BadPointer
        | Some s =>
            if WT_LOG_SLOT_OPEN (slot_state s) then Returned (0, c)
            else new_retry sched c
        end
    | None => new_retry sched c
    end.

(** __wt_log_slot_switch, up to the call of __wt_log_slot_new: the close
    and the two assertions on its result.  [dummy] is not initialised;
    __wt_log_slot_close stores into it before anything reads it.  The
    second assertion stands in a block that only a HAVE_DIAGNOSTIC build
    has; the block reads the slot's state through the pointer, so with a
    null pointer it is a BadPointer there and nothing in the other build. *)
Definition switch_close (sched : schedule) (session : WT_SESSION_IMPL)
    (c : WT_CONNECTION_IMPL) (slot : option nat)
  : outcome (Z * option Z * WT_CONNECTION_IMPL) :=
  match __wt_log_slot_close sched session c slot (Some 0) with
  | Returned (ret, dummy, c) =>
      if negb (ret =? 0) then Returned (ret, dummy, c)
      else
        let c := WT_ASSERT 120 (bool_decide (dummy = Some 0)) c in
        if HAVE_DIAGNOSTIC then
          match slot ≫= get_slot (log c) with
          | Some s =>
              let state := slot_state s in
              let j := wrap32 (WT_LOG_SLOT_JOINED state) in
              let r := wrap32 (WT_LOG_SLOT_RELEASED state) in
              Returned (0, dummy, WT_ASSERT 125 (j >? r) c)
          | None => BadPointer
          end
        else Returned (0, dummy, c)
  | BadPointer => BadPointer
  | Spinning => Spinning
  end.

(** __wt_log_slot_switch: switch out the current slot and set up a new
    one. *)
Definition __wt_log_slot_switch (sched_close sched_new : schedule)
    (session : WT_SESSION_IMPL) (c : WT_CONNECTION_IMPL) (slot : option nat)
  : outcome (Z * WT_CONNECTION_IMPL) :=
  let c := WT_ASSERT 107 (locked_slot session) c in
  if negb (bool_decide (slot = active_slot (log c))) then Returned (0, c)
  else
    match switch_close sched_close session c slot with
    | Returned (ret, _, c) =>
        if negb (ret =? 0) then Returned (ret, c)
        else
          match __wt_log_slot_new sched_new session c with
          | Returned (ret, c) =>
              if negb (ret =? 0) then Returned (ret, c) else Returned (0, c)
          | BadPointer => BadPointer
          | Spinning => Spinning
          end
    | BadPointer => BadPointer
    | Spinning => Spinning
    end.

(** The compare-and-swap on [slot->slot_last_offset]. *)
Definition cas_slot_last_offset (l : WT_LOG) (slot : nat) (old new : Z)
  : option (bool * WT_LOG) :=
  match get_slot l slot with
  | None => None
  | Some s =>
      let '(won, v) := __wt_atomic_casiv64 (slot_last_offset s) old new in
      Some (won, put_slot slot (set_slot_last_offset v s) l)
  end.

(** The join loop of __wt_log_slot_join: it leaves with the slot joined
    and the offset the join starts at. *)
Fixpoint join_retry (sched : schedule) (c : WT_CONNECTION_IMPL) (mysize : Z)
  : outcome (nat * Z * WT_CONNECTION_IMPL) :=
  match active_slot (log c) with
  | None => BadPointer
  | Some slot =>
      match get_slot (log c) slot with
      | None => BadPointer
      | Some s =>
          let old_state := slot_state s in
          let flag_state := WT_LOG_SLOT_FLAGS old_state in
          let released := wrap32 (WT_LOG_SLOT_RELEASED old_state) in
          let join_offset := wrap32 (WT_LOG_SLOT_JOINED old_state) in
          let new_join := wrap32 (join_offset + wrap32 mysize) in
          let new_state :=
            WT_LOG_SLOT_JOIN_REL new_join released flag_state in
          let c := set_log (interfere sched (log c)) c in
          match
            (if WT_LOG_SLOT_OPEN old_state
             then cas_slot_state (log c) slot old_state new_state
             else Some (false, log c))
          with
          | None => BadPointer
          | Some (true, l) => Returned (slot, join_offset, set_log l c)
          | Some (false, _) =>
              let c := stat_incr_races c in
              match sched with
              | [] => Spinning
              | _ :: sched => join_retry sched c mysize
              end
          end
      end
  end.

(** __wt_log_slot_join: join a consolidated logging slot.  [myslotp] is
    the caller's WT_MYSLOT, returned as the call leaves it. *)
Definition __wt_log_slot_join (sched : schedule) (session : WT_SESSION_IMPL)
    (c : WT_CONNECTION_IMPL) (mysize : Z) (flags_arg : Z)
    (myslotp : WT_MYSLOT) : outcome (Z * WT_MYSLOT * WT_CONNECTION_IMPL) :=
  let c := WT_ASSERT 320 (mysize <? WT_LOG_SLOT_MAXIMUM) c in
  let c := WT_ASSERT 321 (negb (locked_slot session)) c in
  match active_slot (log c) with
  | None =>
      let c := WT_ASSERT 331 (mysize =? 0) c in
      Returned (0, myslotp, c)
  | Some _ =>
      match join_retry sched c mysize with
      | Returned (slot, join_offset, c) =>
          let c := if negb (mysize =? 0) then stat_incr_joins c else c in
          match get_slot (log c) slot with
          | None => BadPointer
          | Some s =>
              let s :=
                if F_ISSET flags_arg (Z.lor WT_LOG_DSYNC WT_LOG_FSYNC)
                then set_flags (F_SET (flags s) WT_SLOT_SYNC_DIR) s else s in
              let s :=
                if F_ISSET flags_arg WT_LOG_FSYNC
                then set_flags (F_SET (flags s) WT_SLOT_SYNC) s else s in
              let c := set_log (put_slot slot s (log c)) c in
              Returned (0,
                MYSLOT.mk (Some slot) join_offset
                  (wrap64 (u64 (u64 join_offset + mysize))),
                c)
          end
      | BadPointer => BadPointer
      | Spinning => Spinning
      end
  end.

(** The loop of __wt_log_slot_release that raises [slot_last_offset]:
    "Set our offset if we are larger." *)
Fixpoint release_raise (sched : schedule) (l : WT_LOG) (slot : nat)
    (my_start : Z) : outcome WT_LOG :=
  match get_slot l slot with
  | None => BadPointer
  | Some s =>
      let cur_offset := slot_last_offset s in
      if cur_offset <? my_start then
        let l := interfere sched l in
        match cas_slot_last_offset l slot cur_offset my_start with
        | None => BadPointer
        | Some (true, l) => Returned l
        | Some (false, _) =>
            match sched with
            | [] => Spinning
            | _ :: sched => release_raise sched l slot my_start
            end
        end
      else Returned l
  end.

(** __wt_log_slot_release: each thread in a consolidated group releases
    its portion.  It has no session; it works on the slot [myslot] points
    to. *)
Definition __wt_log_slot_release (sched : schedule) (l : WT_LOG)
    (myslot : WT_MYSLOT) (size : Z) : outcome (Z * WT_LOG) :=
  match MYSLOT.slot myslot with
  | None => BadPointer
  | Some slot =>
      match get_slot l slot with
      | None => BadPointer
      | Some s =>
          let my_start :=
            wrap64 (slot_start_offset s + MYSLOT.offset myslot) in
          match release_raise sched l slot my_start with
          | Returned l =>
              let my_size := WT_LOG_SLOT_JOIN_REL 0 size 0 in
              match get_slot l slot with
              | None => BadPointer
              | Some s =>
                  let v := __wt_atomic_addiv64 (slot_state s) my_size in
                  Returned (v, put_slot slot (set_slot_state v s) l)
              end
          | BadPointer => BadPointer
          | Spinning => Spinning
          end
      end
  end.

(** __wt_log_slot_free: free a slot back into the pool. *)
Definition __wt_log_slot_free (l : WT_LOG) (slot : nat)
  : outcome (Z * WT_LOG) :=
  match get_slot l slot with
  | None => BadPointer
  | Some s =>
      let s := set_flags WT_SLOT_INIT_FLAGS s in
      let s := set_slot_error 0 s in
      let s := set_slot_state WT_LOG_SLOT_FREE s in
      Returned (0, put_slot slot s l)
  end.

(** The body of the loop of __wt_log_slot_destroy for slot [i]: the error
    of a failed write leaves the function (WT_RET). *)
Definition destroy_slot (c : WT_CONNECTION_IMPL) (i : nat)
  : outcome (Z * WT_CONNECTION_IMPL) :=
  match get_slot (log c) i with
  | None => BadPointer
  | Some slot =>
      let '(ret, c) :=
        if negb (FLD64_ISSET (slot_state slot) WT_LOG_SLOT_RESERVED) then
          let rel := WT_LOG_SLOT_RELEASED (slot_state slot) in
          let write_size := u64 (rel - slot_unbuffered slot) in
          if negb (write_size =? 0) then
            let '(ret, fs) :=
              __wt_write (files c) (slot_fh slot) (slot_start_offset slot)
                write_size (slot_buf slot) in
            (ret, set_files fs c)
          else (0, c)
        else (0, c) in
      if negb (ret =? 0) then Returned (ret, c)
      else
        Returned (0,
          set_log (put_slot i (set_slot_buf (__wt_buf_free (slot_buf slot))
                                 slot) (log c)) c)
  end.

(** for (i = ...; i < WT_SLOT_POOL; i++), with [n] slots still to visit. *)
Fixpoint destroy_loop (n : nat) (i : nat) (c : WT_CONNECTION_IMPL)
  : outcome (Z * WT_CONNECTION_IMPL) :=
  match n with
  | O => Returned (0, c)
  | S n =>
      match destroy_slot c i with
      | Returned (ret, c) =>
          if negb (ret =? 0) then Returned (ret, c)
          else destroy_loop n (S i) c
      | BadPointer => BadPointer
      | Spinning => Spinning
      end
  end.

(** __wt_log_slot_destroy: clean up the slot array on shutdown. *)
Definition __wt_log_slot_destroy (c : WT_CONNECTION_IMPL)
  : outcome (Z * WT_CONNECTION_IMPL) :=
  destroy_loop (length (slot_pool (log c))) 0 c.

(** The allocation loop of __wt_log_slot_init over the slots [todo], the
    slots [done] having their buffers; on an error the buffers of [done]
    are freed again (the err: label). *)
Fixpoint init_bufs (size : Z) (done todo : list WT_LOGSLOT)
  : Z * list WT_LOGSLOT :=
  match todo with
  | [] => (0, done)
  | s :: todo =>
      let '(ret, buf) := __wt_buf_init (slot_buf s) size in
      if negb (ret =? 0) then
        (ret,
         map (fun d => set_slot_buf (__wt_buf_free (slot_buf d)) d) done
           ++ set_slot_buf buf s :: todo)
      else
        init_bufs size
          (done ++ [set_flags (F_SET (flags (set_slot_buf buf s))
                                 WT_SLOT_INIT_FLAGS) (set_slot_buf buf s)])
          todo
  end.

(** __wt_log_slot_init: initialize the slot array. *)
Definition __wt_log_slot_init (c : WT_CONNECTION_IMPL)
  : outcome (Z * WT_CONNECTION_IMPL) :=
  let l := log c in
  let l := set_slot_pool (map (set_slot_state WT_LOG_SLOT_FREE)
                            (slot_pool l)) l in
  let l := set_slot_buf_size
    (Z.min (u64 (log_file_max c) / 10) WT_LOG_SLOT_BUF_SIZE mod 2 ^ 32) l in
  let '(ret, pool) := init_bufs (slot_buf_size l) [] (slot_pool l) in
  let l := set_slot_pool pool l in
  if negb (ret =? 0) then Returned (ret, set_log l c)
  else
    let c := stat_incrv_buffer_size
      ((slot_buf_size l * Z.of_nat (length (slot_pool l))) mod 2 ^ 32) c in
    let l := set_log_flags (F_SET (log_flags l) WT_LOG_FORCE_CONSOLIDATE) l in
    match get_slot l 0 with
    | None => BadPointer
    | Some s =>
        let l := put_slot 0 (set_slot_release_lsn (alloc_lsn l) s) l in
        match __wt_log_slot_activate l 0%nat with
        | Returned l => Returned (0, set_log (set_active_slot (Some 0%nat) l) c)
        | BadPointer => BadPointer
        | Spinning => Spinning
        end
    end.

End LogSlot.

(** ** Histories of one slot *)

(** What the threads do to the active slot between its activation and its
    close, in the order of their atomic operations: a join (at its
    successful CAS) or a release (at its atomic add). *)
Inductive slot_op : Type :=
| OpJoin (mysize flags_arg : Z)
| OpRelease (myslot : WT_MYSLOT) (size : Z).

Section Histories.

Context {hdr : Header} {ext : Collaborators}.

(** Runs the operations one after the other and collects what the joins
    handed out, in order. *)
Fixpoint run_ops (session : WT_SESSION_IMPL) (c : WT_CONNECTION_IMPL)
    (ops : list slot_op) : outcome (list WT_MYSLOT * WT_CONNECTION_IMPL) :=
  match ops with
  | [] => Returned ([], c)
  | OpJoin mysize flags_arg :: ops =>
      match __wt_log_slot_join [] session c mysize flags_arg
              (MYSLOT.mk None 0 0) with
      | Returned (_, myslot, c) =>
          match run_ops session c ops with
          | Returned (spans, c) => Returned (myslot :: spans, c)
          | BadPointer => BadPointer
          | Spinning => Spinning
          end
      | BadPointer => BadPointer
      | Spinning => Spinning
      end
  | OpRelease myslot size :: ops =>
      match __wt_log_slot_release [] (log c) myslot size with
      | Returned (_, l) => run_ops session (set_log l c) ops
      | BadPointer => BadPointer
      | Spinning => Spinning
      end
  end.

End Histories.

(** The sizes of the joins of a history, in order. *)
Fixpoint join_sizes (ops : list slot_op) : list Z :=
  match ops with
  | [] => []
  | OpJoin mysize _ :: ops => mysize :: join_sizes ops
  | OpRelease _ _ :: ops => join_sizes ops
  end.

(** The history keeps to the protocol on slot [slot], whose counters stand
    at [j] joined and [r] released: every join is below the maximum and
    the running total fits the JOINED field; every release is of this
    slot and the running total fits the RELEASED field. *)
Fixpoint ops_fit (slot : nat) (j r : Z) (ops : list slot_op) : Prop :=
  match ops with
  | [] => True
  | OpJoin mysize _ :: ops =>
      (0 <= mysize < WT_LOG_SLOT_MAXIMUM) /\
      (j + mysize < 2 ^ JOINED_BITS) /\
      ops_fit slot (j + mysize) r ops
  | OpRelease myslot size :: ops =>
      MYSLOT.slot myslot = Some slot /\
      (0 <= size) /\ (r + size < 2 ^ RELEASED_BITS) /\
      ops_fit slot j (r + size) ops
  end.

(** The spans tile [lo, hi) in the order given: each starts where the one
    before it ends. *)
Fixpoint contiguous_partition (lo hi : Z) (spans : list WT_MYSLOT) : Prop :=
  match spans with
  | [] => lo = hi
  | m :: spans =>
      MYSLOT.offset m = lo /\ (lo <= MYSLOT.end_offset m) /\
      contiguous_partition (MYSLOT.end_offset m) hi spans
  end.

(** No two spans overlap: an earlier one ends before a later one starts. *)
Definition pairwise_disjoint (spans : list WT_MYSLOT) : Prop :=
  forall (i k : nat) (a b : WT_MYSLOT),
    (i < k)%nat -> spans !! i = Some a -> spans !! k = Some b ->
    MYSLOT.end_offset a <= MYSLOT.offset b.

(** ** Histories with lost races *)

(** The log after the other threads took the steps of [sched], one after
    the other. *)
Fixpoint log_after (sched : schedule) (l : WT_LOG) : WT_LOG :=
  match sched with
  | [] => l
  | env :: sched => log_after sched (env l)
  end.

(** An operation of a thread that may lose races.  [lost] lists what the
    other threads do to the slot while the join is in its loop: the k-th
    entry is the operations they complete between the load of the state
    word and the CAS of the join's k-th attempt, each at its atomic step
    on the state word (a join at its successful CAS, a release at its
    atomic add).  A release changes the state word in that one add; the
    CAS loop before it is on [slot_last_offset], which no join reads. *)
Inductive racing_op : Type :=
| RaceJoin (mysize flags_arg : Z) (lost : list (list slot_op))
| RaceRelease (myslot : WT_MYSLOT) (size : Z).

Section RacingHistories.

Context {hdr : Header} {ext : Collaborators}.

(** The other threads performing the operations [h]: what they leave of
    the log, and the spans their joins were handed. *)
Definition others (session : WT_SESSION_IMPL) (c : WT_CONNECTION_IMPL)
    (h : list slot_op) : interference :=
  fun l =>
    match run_ops session (set_log l c) h with
    | Returned (_, c') => log c'
    | BadPointer => l
    | Spinning => l
    end.

Definition others_spans (session : WT_SESSION_IMPL) (c : WT_CONNECTION_IMPL)
    (h : list slot_op) (l : WT_LOG) : list WT_MYSLOT :=
  match run_ops session (set_log l c) h with
  | Returned (spans, _) => spans
  | BadPointer => []
  | Spinning => []
  end.

(** The spans handed out while the other threads ran [hs], entry after
    entry, from the log [l]. *)
Fixpoint spans_during (session : WT_SESSION_IMPL) (c : WT_CONNECTION_IMPL)
    (hs : list (list slot_op)) (l : WT_LOG) : list WT_MYSLOT :=
  match hs with
  | [] => []
  | h :: hs =>
      others_spans session c h l
        ++ spans_during session c hs (others session c h l)
  end.

(** Runs the operations and collects every span handed out, in the order
    of the successful CAS.  A join runs against the schedule its [lost]
    entries make.  The loop counts one race in [log_slot_races] for each
    attempt it loses, so the join made that many attempts and one more:
    the entries of that many attempts ran, their spans were handed out
    before the join's own, and the entries after them never ran. *)
Fixpoint run_racing (session : WT_SESSION_IMPL) (c : WT_CONNECTION_IMPL)
    (ops : list racing_op)
  : outcome (list WT_MYSLOT * WT_CONNECTION_IMPL) :=
  match ops with
  | [] => Returned ([], c)
  | RaceJoin mysize flags_arg lost :: ops =>
      match __wt_log_slot_join (others session c <$> lost) session c mysize
              flags_arg (MYSLOT.mk None 0 0) with
      | Returned (_, myslot, c') =>
          let attempts :=
            S (Z.to_nat (log_slot_races (stats c')
                         - log_slot_races (stats c))) in
          let before :=
            spans_during session c (take attempts lost) (log c) in
          match run_racing session c' ops with
          | Returned (spans, c'') =>
              Returned (before ++ myslot :: spans, c'')
          | BadPointer => BadPointer
          | Spinning => Spinning
          end
      | BadPointer => BadPointer
      | Spinning => Spinning
      end
  | RaceRelease myslot size :: ops =>
      match __wt_log_slot_release [] (log c) myslot size with
      | Returned (_, l) => run_racing session (set_log l c) ops
      | BadPointer => BadPointer
      | Spinning => Spinning
      end
  end.

End RacingHistories.

(** An operation of another thread keeps to the protocol on slot [slot]:
    a join is below the maximum, a release is of this slot. *)
Definition op_fits (slot : nat) (op : slot_op) : Prop :=
  match op with
  | OpJoin mysize _ => 0 <= mysize < WT_LOG_SLOT_MAXIMUM
  | OpRelease myslot size => MYSLOT.slot myslot = Some slot /\ 0 <= size
  end.

(** The bytes the operations join and release. *)
Fixpoint joined_by (ops : list slot_op) : Z :=
  match ops with
  | [] => 0
  | OpJoin mysize _ :: ops => mysize + joined_by ops
  | OpRelease _ _ :: ops => joined_by ops
  end.

Fixpoint released_by (ops : list slot_op) : Z :=
  match ops with
  | [] => 0
  | OpJoin _ _ :: ops => released_by ops
  | OpRelease _ size :: ops => size + released_by ops
  end.

(** The same for the operations that may lose races, the operations of
    the other threads included. *)
Definition racing_fits (slot : nat) (op : racing_op) : Prop :=
  match op with
  | RaceJoin mysize _ lost =>
      (0 <= mysize < WT_LOG_SLOT_MAXIMUM) /\
      Forall (Forall (op_fits slot)) lost
  | RaceRelease myslot size => MYSLOT.slot myslot = Some slot /\ 0 <= size
  end.

Fixpoint racing_joined (ops : list racing_op) : Z :=
  match ops with
  | [] => 0
  | RaceJoin mysize _ lost :: ops =>
      joined_by (concat lost) + mysize + racing_joined ops
  | RaceRelease _ _ :: ops => racing_joined ops
  end.

Fixpoint racing_released (ops : list racing_op) : Z :=
  match ops with
  | [] => 0
  | RaceJoin _ _ lost :: ops => released_by (concat lost) + racing_released ops
  | RaceRelease _ size :: ops => size + racing_released ops
  end.

(** Slot [slot] is the active slot and open, with [j] bytes joined and [r]
    released. *)
Definition open_at (slot : nat) (j r : Z) (l : WT_LOG) : Prop :=
  active_slot l = Some slot /\
  exists s,
    get_slot l slot = Some s /\
    int64_range (slot_state s) /\
    WT_LOG_SLOT_OPEN (slot_state s) = true /\
    WT_LOG_SLOT_JOINED (slot_state s) = j /\
    WT_LOG_SLOT_RELEASED (slot_state s) = r.

(** The join wins its attempt number [k] (from 0) on slot [slot] with the
    state word [w]: after the other threads' first [k] steps [slot] is
    the active slot and its state word, which the join loads, is [w] and
    OPEN; after their next step, when the join comes to its CAS, the word
    of [slot] is still [w]. *)
Definition wins_attempt (sched : schedule) (l : WT_LOG) (k slot : nat)
    (w : Z) : Prop :=
  (k <= length sched)%nat /\
  active_slot (log_after (take k sched) l) = Some slot /\
  (exists s, get_slot (log_after (take k sched) l) slot = Some s /\
             slot_state s = w) /\
  WT_LOG_SLOT_OPEN w = true /\
  (exists s_w, get_slot (log_after (take (S k) sched) l) slot = Some s_w /\
               slot_state s_w = w).

(** The state a join of [mysize] computes from the state it loaded. *)
Definition join_new_state (old_state mysize : Z) : Z :=
  WT_LOG_SLOT_JOIN_REL
    (wrap32 (wrap32 (WT_LOG_SLOT_JOINED old_state) + wrap32 mysize))
    (wrap32 (WT_LOG_SLOT_RELEASED old_state))
    (WT_LOG_SLOT_FLAGS old_state).

(** A slot some caller has joined and not yet released: not closed, not
    reserved, and more joined than released. *)
Definition mid_join (state : Z) : Prop :=
  WT_LOG_SLOT_CLOSED state = false /\
  FLD64_ISSET state WT_LOG_SLOT_RESERVED = false /\
  WT_LOG_SLOT_JOINED state > WT_LOG_SLOT_RELEASED state.

(** The other threads leave the caller's join on slot [slot] pending:
    whatever they do, the slot stays [mid_join]. *)
Definition keeps_mid_join (slot : nat) (env : interference) : Prop :=
  forall l s,
    get_slot l slot = Some s -> mid_join (slot_state s) ->
    exists s', get_slot (env l) slot = Some s' /\ mid_join (slot_state s').

(** The slots [__wt_log_slot_close] has nothing to do for: no slot at
    all, a slot with the CLOSE flag, a slot with the RESERVED flag. *)
Definition null_closed_or_reserved (l : WT_LOG) (slot : option nat) : Prop :=
  match slot with
  | None => True
  | Some i =>
      exists s, get_slot l i = Some s /\
        (FLD64_ISSET (slot_state s) WT_LOG_SLOT_CLOSE = true \/
         FLD64_ISSET (slot_state s) WT_LOG_SLOT_RESERVED = true)
  end.

(** [__wt_log_slot_new] has to look for a slot: the log consolidates and
    the active slot, if there is one, is not open. *)
Definition needs_new_slot {hdr : Header} (l : WT_LOG) : Prop :=
  F_ISSET (log_flags l) WT_LOG_FORCE_CONSOLIDATE = true /\
  match active_slot l with
  | None => True
  | Some a =>
      exists sa, get_slot l a = Some sa /\
                 WT_LOG_SLOT_OPEN (slot_state sa) = false
  end.

(** ** A concrete engine, to run the code on *)

Definition demo_header : Header :=
  {| HAVE_DIAGNOSTIC := true;
     WT_SESSION_LOCKED_SLOT := 0x80;
     WT_LOG_FORCE_CONSOLIDATE := 0x01;
     WT_LOG_DSYNC := 0x04;
     WT_LOG_FSYNC := 0x08;
     WT_SLOT_SYNC := 0x04;
     WT_SLOT_SYNC_DIR := 0x08;
     WT_SLOT_INIT_FLAGS := 0x01;
     WT_LOG_SLOT_BUF_SIZE := 256 * 1024 |}.

(** File space cannot be acquired without a log file (handle 0, error
    ENOENT); otherwise the slot is activated.  Writes to a negative handle
    fail with EIO, the others are recorded. *)
Definition demo_ext : Collaborators :=
  {| __wt_log_acquire := fun l _ slot =>
       if log_fh l =? 0 then (2, l)
       else match @__wt_log_slot_activate l slot with
            | Returned l => (0, l)
            | _ => (22, l)
            end;
     __wt_write := fun fs fh off len mem =>
       if fh <? 0 then (5, fs) else (0, fs ++ [mkWrite fh off len mem]);
     __wt_buf_init := fun _ size =>
       (0, Some (repeat Byte.x00 (Z.to_nat size))) |}.

Definition demo_lsn : WT_LSN := LSN.mk 1 128.

Definition demo_slot (state : Z) (fh : Z) : WT_LOGSLOT :=
  {| slot_state := state; slot_unbuffered := 0; slot_error := 0;
     slot_start_offset := 128; slot_last_offset := 128;
     slot_release_lsn := demo_lsn; slot_start_lsn := demo_lsn;
     slot_end_lsn := demo_lsn; slot_fh := fh;
     slot_buf := Some [Byte.x00; Byte.x00; Byte.x00; Byte.x00];
     flags := 0x01 |}.

Definition demo_log (active : option nat) (pool : list WT_LOGSLOT) : WT_LOG :=
  {| alloc_lsn := demo_lsn; write_lsn := demo_lsn; log_fh := 3;
     active_slot := active; slot_pool := pool;
     slot_buf_size := 4; log_flags := 0x01 |}.

Definition demo_conn (l : WT_LOG) : WT_CONNECTION_IMPL :=
  {| log := l; log_file_max := 10000000; log_wrlsn_cond := 0;
     stats := mkStats 0 0 0 0 0 0; files := []; failed_asserts := [] |}.

Definition session_locked : WT_SESSION_IMPL := mkSession 0x80.
Definition session_unlocked : WT_SESSION_IMPL := mkSession 0.

(** Three slots with one, two and three released bytes to write; the
    file handle of the second one is bad. *)
Definition residual_pool : list WT_LOGSLOT :=
  [demo_slot (1 * 2 ^ 24) 3; demo_slot (2 * 2 ^ 24) (-1);
   demo_slot (3 * 2 ^ 24) 3].

(** The same engine with an allocator that is out of memory (ENOMEM) for
    the buffers marked by an empty allocation. *)
Definition demo_ext_oom : Collaborators :=
  {| __wt_log_acquire := @__wt_log_acquire demo_ext;
     __wt_write := @__wt_write demo_ext;
     __wt_buf_init := fun buf size =>
       match buf with
       | Some [] => (12, buf)
       | _ => (0, Some (repeat Byte.x00 (Z.to_nat size)))
       end |}.

(** A connection whose log files are so small that the slot buffers get
    four bytes. *)
Definition small_conn (l : WT_LOG) : WT_CONNECTION_IMPL :=
  {| log := l; log_file_max := 40; log_wrlsn_cond := 0;
     stats := mkStats 0 0 0 0 0 0; files := []; failed_asserts := [] |}.

(** Another thread joins 50 bytes into slot 0. *)
Definition other_thread_joins_50 : interference :=
  fun l => put_slot 0 (demo_slot 50 3) l.

(** The worker thread frees slot 1. *)
Definition worker_frees_slot_1 : interference :=
  fun l => put_slot 1 (demo_slot WT_LOG_SLOT_FREE 3) l.

(** Another thread raises [slot_last_offset] of slot 0 to 1000. *)
Definition other_thread_raises_last_offset : interference :=
  fun l => put_slot 0 (set_slot_last_offset 1000 (demo_slot 100 3)) l.

(** ** Predicates on logs and on what the other threads do *)

(** The log has an active slot and it is not open for joining. *)
Definition active_not_open (l : WT_LOG) : Prop :=
  exists a s, active_slot l = Some a /\ get_slot l a = Some s /\
              WT_LOG_SLOT_OPEN (slot_state s) = false.

(** The other threads do not open the active slot (nobody switches). *)
Definition keeps_not_open (env : interference) : Prop :=
  forall l, active_not_open l -> active_not_open (env l).

(** Slot [slot] can be closed: it is there, neither CLOSED nor RESERVED. *)
Definition closable (slot : nat) (l : WT_LOG) : Prop :=
  exists s, get_slot l slot = Some s /\
            WT_LOG_SLOT_CLOSED (slot_state s) = false /\
            FLD64_ISSET (slot_state s) WT_LOG_SLOT_RESERVED = false.

(** The other threads neither close nor free slot [slot]. *)
Definition keeps_closable (slot : nat) (env : interference) : Prop :=
  forall l, closable slot l -> closable slot (env l).

(** No slot of the pool is free. *)
Definition pool_full (l : WT_LOG) : Prop :=
  Forall (fun s => slot_state s <> WT_LOG_SLOT_FREE) (slot_pool l).

(** The other threads free no slot. *)
Definition keeps_pool_full (env : interference) : Prop :=
  forall l, pool_full l -> pool_full (env l).

(** A slot [__wt_log_slot_destroy] has nothing to write for: it is
    RESERVED, or as many bytes went around its buffer as were released. *)
Definition no_residual (slot : WT_LOGSLOT) : Prop :=
  FLD64_ISSET (slot_state slot) WT_LOG_SLOT_RESERVED = true \/
  u64 (WT_LOG_SLOT_RELEASED (slot_state slot) - slot_unbuffered slot) = 0.

(** The write of the slot's residual bytes cannot fail. *)
Definition write_succeeds {ext : Collaborators} (slot : WT_LOGSLOT) : Prop :=
  forall fs,
    fst (__wt_write fs (slot_fh slot) (slot_start_offset slot)
           (u64 (WT_LOG_SLOT_RELEASED (slot_state slot)
                 - slot_unbuffered slot))
           (slot_buf slot)) = 0.

(** The slot with its buffer freed. *)
Definition freed (slot : WT_LOGSLOT) : WT_LOGSLOT :=
  set_slot_buf (__wt_buf_free (slot_buf slot)) slot.

(** The slot as the allocation loop of [__wt_log_slot_init] leaves it. *)
Definition with_buffer {hdr : Header} {ext : Collaborators} (size : Z)
    (s : WT_LOGSLOT) : WT_LOGSLOT :=
  set_flags (F_SET (flags s) WT_SLOT_INIT_FLAGS)
    (set_slot_buf (snd (__wt_buf_init (slot_buf s) size)) s).

(** The buffer size [__wt_log_slot_init] computes. *)
Definition init_buf_size {hdr : Header} (c : WT_CONNECTION_IMPL) : Z :=
  Z.min (u64 (log_file_max c) / 10) WT_LOG_SLOT_BUF_SIZE mod 2 ^ 32.

(** ** Arithmetic reading of the fields *)

(** [lia] after the divisions and remainders by constants are named. *)
Ltac zdm := Z.div_mod_to_equations; lia.

Section FieldArithmetic.

Lemma wrap64_id z : int64_range z -> wrap64 z = z.
Proof. unfold int64_range, wrap64. intros H. zdm. Qed.

Lemma wrap64_range z : int64_range (wrap64 z).
Proof. unfold int64_range, wrap64. zdm. Qed.

Lemma wrap32_id z : - 2 ^ 31 <= z < 2 ^ 31 -> wrap32 z = z.
Proof. unfold wrap32. intros H. zdm. Qed.

Lemma JOINED_mod s : WT_LOG_SLOT_JOINED s = s mod 2 ^ 24.
Proof.
  unfold WT_LOG_SLOT_JOINED, WT_LOG_SLOT_JOIN_MASK, JOINED_BITS.
  now rewrite Z.land_ones by lia.
Qed.

Lemma RELEASED_mod s : WT_LOG_SLOT_RELEASED s = (s / 2 ^ 24) mod 2 ^ 24.
Proof.
  unfold WT_LOG_SLOT_RELEASED, WT_LOG_SLOT_REL_MASK, RELEASED_BITS, JOINED_BITS.
  rewrite Z.land_ones by lia. now rewrite Z.shiftr_div_pow2 by lia.
Qed.

Lemma FLAGS_div s : WT_LOG_SLOT_FLAGS s = 2 ^ 48 * (s / 2 ^ 48).
Proof.
  unfold WT_LOG_SLOT_FLAGS, WT_LOG_SLOT_MASK_ON, WT_LOG_SLOT_MASK_OFF.
  unfold FLAG_SHIFT, JOINED_BITS, RELEASED_BITS.
  change (24 + 24) with 48.
  rewrite <- Z.ldiff_land, Z.ldiff_ones_r by lia.
  rewrite Z.shiftr_div_pow2, Z.shiftl_mul_pow2 by lia. lia.
Qed.

Lemma land_pow2 a n : 0 <= n -> Z.land a (2 ^ n) = 2 ^ n * ((a / 2 ^ n) mod 2).
Proof.
  intros Hn. destruct (Z.testbit a n) eqn:Hb.
  - pose proof (proj1 (Z.testbit_true a n Hn) Hb) as ->.
    rewrite Z.mul_1_r. apply Z.bits_inj'. intros k Hk.
    rewrite Z.land_spec, Z.pow2_bits_eqb by lia.
    destruct (Z.eqb_spec n k) as [<-|_]; [now rewrite Hb|apply andb_false_r].
  - pose proof (proj1 (Z.testbit_false a n Hn) Hb) as ->.
    rewrite Z.mul_0_r. apply Z.bits_inj'. intros k Hk.
    rewrite Z.land_spec, Z.pow2_bits_eqb, Z.bits_0 by lia.
    destruct (Z.eqb_spec n k) as [<-|_]; [now rewrite Hb|apply andb_false_r].
Qed.

Lemma CLOSED_div s :
  WT_LOG_SLOT_CLOSED s = negb ((s / 2 ^ 62) mod 2 =? 0).
Proof.
  unfold WT_LOG_SLOT_CLOSED, FLD64_ISSET, WT_LOG_SLOT_CLOSE.
  rewrite land_pow2 by lia. f_equal.
  destruct (Z.eqb_spec ((s / 2 ^ 62) mod 2) 0) as [->|Hne]; [reflexivity|].
  apply Z.eqb_neq. lia.
Qed.

Lemma RESERVED_div s :
  FLD64_ISSET s WT_LOG_SLOT_RESERVED = negb (s / 2 ^ 63 =? 0).
Proof.
  unfold FLD64_ISSET, WT_LOG_SLOT_RESERVED. f_equal.
  change (- 2 ^ 63) with (Z.lnot (Z.ones 63)).
  rewrite <- Z.ldiff_land, Z.ldiff_ones_r by lia.
  rewrite Z.shiftr_div_pow2, Z.shiftl_mul_pow2 by lia.
  destruct (Z.eqb_spec (s / 2 ^ 63) 0) as [->|Hne]; [reflexivity|].
  apply Z.eqb_neq. lia.
Qed.

Lemma lor_CLOSE s :
  Z.lor s WT_LOG_SLOT_CLOSE = s + 2 ^ 62 * (1 - (s / 2 ^ 62) mod 2).
Proof.
  pose proof (Z.add_lor_land s WT_LOG_SLOT_CLOSE) as H.
  unfold WT_LOG_SLOT_CLOSE in *. rewrite land_pow2 in H by lia. lia.
Qed.

Lemma OPEN_div s : WT_LOG_SLOT_OPEN s = (s / 2 ^ 48 =? 0).
Proof.
  unfold WT_LOG_SLOT_OPEN. rewrite FLAGS_div.
  destruct (Z.eqb_spec (s / 2 ^ 48) 0) as [->|Hne]; [reflexivity|].
  apply Z.eqb_neq. lia.
Qed.

Lemma JOIN_REL_sum j r s :
  WT_LOG_SLOT_JOIN_REL j r s = wrap64 (j + r * 2 ^ 24 + s).
Proof.
  unfold WT_LOG_SLOT_JOIN_REL, JOINED_BITS.
  rewrite Z.shiftl_mul_pow2 by lia. unfold wrap64. zdm.
Qed.

End FieldArithmetic.

(** Rewrites the macros of the state word into divisions and remainders
    by powers of two, for [zdm]. *)
Ltac fields :=
  unfold WT_LOG_SLOT_DONE, WT_LOG_SLOT_INPROGRESS, __wt_atomic_addiv64 in *;
  rewrite ?JOIN_REL_sum, ?lor_CLOSE in *;
  rewrite ?CLOSED_div, ?RESERVED_div, ?OPEN_div, ?JOINED_mod, ?RELEASED_mod,
    ?FLAGS_div in *;
  unfold wrap64, wrap32, u64, int64_range,
    WT_LOG_SLOT_MAXIMUM, JOINED_BITS, RELEASED_BITS in *.

Section StateWord.

(** The new state of a join whose size fits: the sum, with the fields as
    the join leaves them. *)
Lemma join_state st m :
  int64_range st -> 0 <= m ->
  WT_LOG_SLOT_JOINED st + m < 2 ^ JOINED_BITS ->
  let new := join_new_state st m in
  new = st + m /\
  WT_LOG_SLOT_JOINED new = WT_LOG_SLOT_JOINED st + m /\
  WT_LOG_SLOT_RELEASED new = WT_LOG_SLOT_RELEASED st /\
  WT_LOG_SLOT_FLAGS new = WT_LOG_SLOT_FLAGS st /\
  int64_range new.
Proof.
  intros Hr Hm Hfit new.
  assert (Hnew : new = st + m)
    by (subst new; unfold join_new_state; fields; zdm).
  rewrite Hnew. clear Hnew new. fields. repeat split; zdm.
Qed.

(** The state after a release whose size fits the RELEASED field. *)
Lemma release_state st size :
  int64_range st ->
  0 <= WT_LOG_SLOT_RELEASED st + size < 2 ^ RELEASED_BITS ->
  let new := __wt_atomic_addiv64 st (WT_LOG_SLOT_JOIN_REL 0 size 0) in
  new = st + size * 2 ^ 24 /\
  WT_LOG_SLOT_RELEASED new = WT_LOG_SLOT_RELEASED st + size /\
  WT_LOG_SLOT_JOINED new = WT_LOG_SLOT_JOINED st /\
  WT_LOG_SLOT_FLAGS new = WT_LOG_SLOT_FLAGS st /\
  int64_range new.
Proof.
  intros Hr Hfit new.
  assert (Hnew : new = st + size * 2 ^ 24) by (subst new; fields; zdm).
  rewrite Hnew. clear Hnew new. fields. repeat split; zdm.
Qed.

(** The state a close writes: the counters stay, CLOSE is set. *)
Lemma close_state st :
  let new := Z.lor st WT_LOG_SLOT_CLOSE in
  WT_LOG_SLOT_JOINED new = WT_LOG_SLOT_JOINED st /\
  WT_LOG_SLOT_RELEASED new = WT_LOG_SLOT_RELEASED st /\
  WT_LOG_SLOT_CLOSED new = true.
Proof.
  intros new. subst new. fields. repeat split; zdm.
Qed.

Lemma close_state_range st :
  int64_range st -> int64_range (Z.lor st WT_LOG_SLOT_CLOSE).
Proof. intros Hr. fields. zdm. Qed.

(** CLOSED and OPEN read the flag bits only. *)
Lemma CLOSED_FLAGS a b :
  WT_LOG_SLOT_FLAGS a = WT_LOG_SLOT_FLAGS b ->
  WT_LOG_SLOT_CLOSED a = WT_LOG_SLOT_CLOSED b.
Proof. fields. intros H. f_equal. f_equal. zdm. Qed.

Lemma OPEN_not_CLOSED st :
  WT_LOG_SLOT_OPEN st = true ->
  WT_LOG_SLOT_CLOSED st = false /\
  FLD64_ISSET st WT_LOG_SLOT_RESERVED = false.
Proof.
  fields. intros H%Z.eqb_eq.
  split; apply negb_false_iff, Z.eqb_eq; zdm.
Qed.

End StateWord.

(** ** Pointers into the pool and ghost state *)

Section Pool.

Lemma get_put_same l i s s' :
  get_slot l i = Some s -> get_slot (put_slot i s' l) i = Some s'.
Proof.
  unfold get_slot, put_slot. cbn. intros H.
  apply list_lookup_insert_eq. eapply lookup_lt_Some, H.
Qed.

Lemma get_put_other l i k s' :
  i <> k -> get_slot (put_slot i s' l) k = get_slot l k.
Proof.
  unfold get_slot, put_slot. cbn. intros H.
  now apply list_lookup_insert_ne.
Qed.

Lemma put_slot_id l i s : get_slot l i = Some s -> put_slot i s l = l.
Proof.
  unfold get_slot, put_slot, set_slot_pool. intros H.
  rewrite list_insert_id by exact H. now destruct l.
Qed.

Lemma put_put l i s s' : put_slot i s' (put_slot i s l) = put_slot i s' l.
Proof.
  unfold put_slot, set_slot_pool. cbn. now rewrite list_insert_insert_eq.
Qed.

Lemma log_WT_ASSERT line cond c : log (WT_ASSERT line cond c) = log c.
Proof. unfold WT_ASSERT. now destruct cond. Qed.

Lemma failed_asserts_WT_ASSERT_true line c :
  failed_asserts (WT_ASSERT line true c) = failed_asserts c.
Proof. reflexivity. Qed.

Lemma interfere_nil l : interfere [] l = l.
Proof. reflexivity. Qed.

End Pool.

(** ** Join *)

Section Join.

Context {hdr : Header} {ext : Collaborators}.

(** The loop leaves at once when the slot is open and nobody wrote the
    state word between the load and the CAS. *)
Lemma join_retry_wins sched c slot s s1 mysize :
  active_slot (log c) = Some slot ->
  get_slot (log c) slot = Some s ->
  WT_LOG_SLOT_OPEN (slot_state s) = true ->
  get_slot (interfere sched (log c)) slot = Some s1 ->
  slot_state s1 = slot_state s ->
  join_retry sched c mysize =
    Returned (slot, wrap32 (WT_LOG_SLOT_JOINED (slot_state s)),
      set_log (put_slot slot
                 (set_slot_state (join_new_state (slot_state s) mysize) s1)
                 (interfere sched (log c))) c).
Proof.
  intros Ha Hs Hopen Hs1 Hst.
  unfold join_new_state.
  destruct sched as [|env sched]; cbn [join_retry];
    rewrite Ha, Hs, Hopen; cbn [log set_log];
    unfold cas_slot_state; rewrite Hs1;
    unfold __wt_atomic_casiv64; rewrite Hst, Z.eqb_refl; reflexivity.
Qed.

(** The loop goes round again when the state word changed under it. *)
Lemma join_retry_lost (env : interference) sched c slot s s1 mysize :
  active_slot (log c) = Some slot ->
  get_slot (log c) slot = Some s ->
  get_slot (env (log c)) slot = Some s1 ->
  slot_state s1 <> slot_state s ->
  join_retry (env :: sched) c mysize =
    join_retry sched (stat_incr_races (set_log (env (log c)) c)) mysize.
Proof.
  intros Ha Hs Hs1 Hst. cbn [join_retry]. rewrite Ha, Hs.
  cbn [log set_log interfere].
  destruct (WT_LOG_SLOT_OPEN (slot_state s)); [|reflexivity].
  unfold cas_slot_state. rewrite Hs1. unfold __wt_atomic_casiv64.
  destruct (Z.eqb_spec (slot_state s1) (slot_state s)); [contradiction|].
  reflexivity.
Qed.

(** What a join that wins its first CAS does, as the code computes it. *)
Lemma join_first_attempt sched session c slot s s1 mysize flags_arg myslotp :
  active_slot (log c) = Some slot ->
  get_slot (log c) slot = Some s ->
  WT_LOG_SLOT_OPEN (slot_state s) = true ->
  get_slot (interfere sched (log c)) slot = Some s1 ->
  slot_state s1 = slot_state s ->
  exists c' s',
    __wt_log_slot_join sched session c mysize flags_arg myslotp =
      Returned (0,
        MYSLOT.mk (Some slot) (wrap32 (WT_LOG_SLOT_JOINED (slot_state s)))
          (wrap64 (u64 (u64 (wrap32 (WT_LOG_SLOT_JOINED (slot_state s)))
                        + mysize))),
        c') /\
    get_slot (log c') slot = Some s' /\
    slot_state s' = join_new_state (slot_state s) mysize /\
    active_slot (log c') = active_slot (interfere sched (log c)) /\
    (forall k, k <> slot ->
       get_slot (log c') k = get_slot (interfere sched (log c)) k).
Proof.
  intros Ha Hs Hopen Hs1 Hst.
  unfold __wt_log_slot_join.
  set (c1 := WT_ASSERT 321 _ (WT_ASSERT 320 _ c)).
  assert (Hlog : log c1 = log c) by (subst c1; now rewrite !log_WT_ASSERT).
  rewrite Hlog, Ha.
  rewrite (join_retry_wins sched c1 slot s s1 mysize)
    by (rewrite ?Hlog; assumption).
  rewrite Hlog.
  set (new := join_new_state (slot_state s) mysize).
  set (l2 := put_slot slot (set_slot_state new s1) (interfere sched (log c))).
  set (c2 := if negb (mysize =? 0) then _ else _).
  assert (Hlog2 : log c2 = l2)
    by (subst c2; destruct (negb (mysize =? 0)); reflexivity).
  rewrite Hlog2.
  assert (Hg : get_slot l2 slot = Some (set_slot_state new s1))
    by (subst l2; eapply get_put_same, Hs1).
  rewrite Hg.
  set (sa := if F_ISSET flags_arg (Z.lor WT_LOG_DSYNC WT_LOG_FSYNC)
             then _ else _).
  set (sb := if F_ISSET flags_arg WT_LOG_FSYNC then _ else _).
  assert (Hsb : slot_state sb = new).
  { subst sb sa. repeat destruct (F_ISSET _ _); reflexivity. }
  eexists _, sb. split; [reflexivity|]. cbn [log set_log].
  split; [eapply get_put_same, Hg|]. split; [exact Hsb|].
  split; [reflexivity|].
  intros k Hk. subst l2. now rewrite !get_put_other by congruence.
Qed.

(** With a size that fits, the casts of the join are the identity. *)
Lemma join_new_state_fit st m :
  0 <= m -> WT_LOG_SLOT_JOINED st + m < 2 ^ JOINED_BITS ->
  join_new_state st m =
    WT_LOG_SLOT_JOIN_REL (WT_LOG_SLOT_JOINED st + m)
      (WT_LOG_SLOT_RELEASED st) (WT_LOG_SLOT_FLAGS st) /\
  wrap32 (WT_LOG_SLOT_JOINED st) = WT_LOG_SLOT_JOINED st /\
  wrap64 (u64 (u64 (wrap32 (WT_LOG_SLOT_JOINED st)) + m)) =
    WT_LOG_SLOT_JOINED st + m.
Proof.
  intros Hm Hfit. unfold join_new_state.
  assert (Hj : wrap32 (WT_LOG_SLOT_JOINED st) = WT_LOG_SLOT_JOINED st)
    by (fields; zdm).
  assert (Hr : wrap32 (WT_LOG_SLOT_RELEASED st) = WT_LOG_SLOT_RELEASED st)
    by (fields; zdm).
  assert (Hs : wrap32 m = m) by (fields; zdm).
  rewrite Hj, Hr, Hs. repeat split.
  - f_equal. fields. zdm.
  - fields. zdm.
Qed.


(** A join of size 0 that wins its first CAS writes back the state it
    read, so JOINED, RELEASED and the flag bits are unchanged; it returns
    0 and fills the caller's WT_MYSLOT with offset = end_offset = JOINED. *)
Lemma join_zero_first_attempt
    sched session c slot s s1 flags_arg myslotp :
  active_slot (log c) = Some slot ->
  get_slot (log c) slot = Some s ->
  int64_range (slot_state s) ->
  WT_LOG_SLOT_OPEN (slot_state s) = true ->
  get_slot (interfere sched (log c)) slot = Some s1 ->
  slot_state s1 = slot_state s ->
  let old := slot_state s in
  exists c' s',
    __wt_log_slot_join sched session c 0 flags_arg myslotp =
      Returned (0,
        MYSLOT.mk (Some slot) (WT_LOG_SLOT_JOINED old)
          (WT_LOG_SLOT_JOINED old),
        c') /\
    get_slot (log c') slot = Some s' /\
    slot_state s' =
      WT_LOG_SLOT_JOIN_REL (WT_LOG_SLOT_JOINED old + 0)
        (WT_LOG_SLOT_RELEASED old) (WT_LOG_SLOT_FLAGS old) /\
    slot_state s' = old /\
    WT_LOG_SLOT_JOINED (slot_state s') = WT_LOG_SLOT_JOINED old /\
    WT_LOG_SLOT_RELEASED (slot_state s') = WT_LOG_SLOT_RELEASED old /\
    WT_LOG_SLOT_FLAGS (slot_state s') = WT_LOG_SLOT_FLAGS old.
Proof.
  intros Ha Hs Hr Hopen Hs1 Hst old.
  destruct (join_first_attempt sched session c slot s s1 0 flags_arg
              myslotp Ha Hs Hopen Hs1 Hst) as (c' & s' & Hj & Hg & Hst' & _).
  assert (Hfit : WT_LOG_SLOT_JOINED old + 0 < 2 ^ JOINED_BITS)
    by (fields; zdm).
  destruct (join_new_state_fit old 0 (Z.le_refl 0) Hfit)
    as (Hnew & Hoff & Hend).
  destruct (join_state old 0 Hr (Z.le_refl 0) Hfit) as (Hsum & _).
  cbv zeta in Hsum. fold old in Hj, Hst'.
  rewrite Hend, Hoff, Z.add_0_r in Hj. rewrite Z.add_0_r in Hsum.
  exists c', s'. rewrite Hst'. split; [exact Hj|]. split; [exact Hg|].
  split; [exact Hnew|]. rewrite Hsum. repeat split.
Qed.

End Join.

(** ** Close and switch *)

Section Close.

Context {hdr : Header} {ext : Collaborators}.

(** The end LSN a close computes for slot [s] from the state it closed. *)
Lemma close_owned_returns c slot s old_state new_state releasep :
  get_slot (log c) slot = Some s ->
  let end_lsn :=
    LSN.mk (LSN.file (slot_start_lsn s))
      (wrap64 (LSN.offset (slot_start_lsn s)
               + WT_LOG_SLOT_JOINED old_state)) in
  exists c',
    close_owned c slot old_state new_state releasep =
      Returned (0,
        (if WT_LOG_SLOT_DONE new_state && bool_decide (is_Some releasep)
         then Some 1 else releasep),
        c') /\
    get_slot (log c') slot = Some (set_slot_end_lsn end_lsn s) /\
    alloc_lsn (log c') = end_lsn /\
    active_slot (log c') = active_slot (log c) /\
    write_lsn (log c') = write_lsn (log c) /\
    (forall k, k <> slot -> get_slot (log c') k = get_slot (log c) k) /\
    log_slot_closes (stats c') = log_slot_closes (stats c) + 1.
Proof.
  intros Hs end_lsn. unfold close_owned.
  cbn [stat_incrv_closes set_stats log].
  rewrite Hs. fold end_lsn.
  eexists. split; [reflexivity|].
  rewrite log_WT_ASSERT. cbn [log set_log stat_incrv_consolidated set_stats].
  split; [eapply get_put_same, Hs|].
  split; [reflexivity|]. split; [reflexivity|]. split; [reflexivity|].
  split; [intros k Hk; now apply get_put_other|].
  unfold WT_ASSERT. now destruct (_ >=? _).
Qed.

(** The close CAS is won at once when nobody wrote the state word between
    the load and the CAS. *)
Lemma close_retry_wins sched c slot s s1 releasep :
  get_slot (log c) slot = Some s ->
  WT_LOG_SLOT_CLOSED (slot_state s) = false ->
  FLD64_ISSET (slot_state s) WT_LOG_SLOT_RESERVED = false ->
  get_slot (interfere sched (log c)) slot = Some s1 ->
  slot_state s1 = slot_state s ->
  close_retry sched c slot releasep =
    close_owned
      (set_log (put_slot slot
                  (set_slot_state (Z.lor (slot_state s) WT_LOG_SLOT_CLOSE) s1)
                  (interfere sched (log c))) c)
      slot (slot_state s) (Z.lor (slot_state s) WT_LOG_SLOT_CLOSE) releasep.
Proof.
  intros Hs Hc Hr Hs1 Hst.
  destruct sched as [|env sched]; cbn [close_retry];
    rewrite Hs, Hc, Hr; cbn [log set_log];
    unfold cas_slot_state; rewrite Hs1;
    unfold __wt_atomic_casiv64; rewrite Hst, Z.eqb_refl; reflexivity.
Qed.

(** The loop returns before its CAS on a slot with CLOSE or RESERVED. *)
Lemma close_retry_flagged sched c slot s releasep :
  get_slot (log c) slot = Some s ->
  FLD64_ISSET (slot_state s) WT_LOG_SLOT_CLOSE = true \/
  FLD64_ISSET (slot_state s) WT_LOG_SLOT_RESERVED = true ->
  close_retry sched c slot releasep = Returned (0, releasep, c).
Proof.
  intros Hs Hflag.
  destruct sched as [|env sched]; cbn [close_retry]; rewrite Hs;
    unfold WT_LOG_SLOT_CLOSED;
    destruct (FLD64_ISSET (slot_state s) WT_LOG_SLOT_CLOSE) eqn:Hc;
    try reflexivity;
    destruct Hflag as [Hf|Hf]; try discriminate; rewrite Hf; reflexivity.
Qed.

(** ... and lost, and tried again, when somebody did. *)
Lemma close_retry_lost (env : interference) sched c slot s s1 releasep :
  get_slot (log c) slot = Some s ->
  WT_LOG_SLOT_CLOSED (slot_state s) = false ->
  FLD64_ISSET (slot_state s) WT_LOG_SLOT_RESERVED = false ->
  get_slot (env (log c)) slot = Some s1 ->
  slot_state s1 <> slot_state s ->
  close_retry (env :: sched) c slot releasep =
    close_retry sched (set_log (env (log c)) c) slot releasep.
Proof.
  intros Hs Hc Hr Hs1 Hst. cbn [close_retry]. rewrite Hs, Hc, Hr.
  cbn [log set_log interfere].
  unfold cas_slot_state. rewrite Hs1. unfold __wt_atomic_casiv64.
  destruct (Z.eqb_spec (slot_state s1) (slot_state s)); [contradiction|].
  reflexivity.
Qed.

(** What a close that wins its first CAS does. *)
Lemma close_first_attempt sched session c slot s s1 releasep :
  get_slot (log c) slot = Some s ->
  WT_LOG_SLOT_CLOSED (slot_state s) = false ->
  FLD64_ISSET (slot_state s) WT_LOG_SLOT_RESERVED = false ->
  get_slot (interfere sched (log c)) slot = Some s1 ->
  slot_state s1 = slot_state s ->
  let old_state := slot_state s in
  let new_state := Z.lor old_state WT_LOG_SLOT_CLOSE in
  let end_lsn :=
    LSN.mk (LSN.file (slot_start_lsn s1))
      (wrap64 (LSN.offset (slot_start_lsn s1)
               + WT_LOG_SLOT_JOINED old_state)) in
  exists c',
    __wt_log_slot_close sched session c (Some slot) releasep =
      Returned (0,
        match releasep with
        | Some _ => Some (if WT_LOG_SLOT_DONE new_state then 1 else 0)
        | None => None
        end,
        c') /\
    get_slot (log c') slot =
      Some (set_slot_end_lsn end_lsn (set_slot_state new_state s1)) /\
    alloc_lsn (log c') = end_lsn /\
    active_slot (log c') = active_slot (interfere sched (log c)).
Proof.
  intros Hs Hc Hr Hs1 Hst old_state new_state end_lsn.
  unfold __wt_log_slot_close.
  set (c0 := WT_ASSERT 46 _ c).
  assert (Hlog : log c0 = log c) by (subst c0; apply log_WT_ASSERT).
  rewrite (close_retry_wins sched c0 slot s s1) by (rewrite ?Hlog; assumption).
  rewrite Hlog. fold old_state new_state.
  set (c1 := set_log _ c0).
  assert (Hg : get_slot (log c1) slot = Some (set_slot_state new_state s1))
    by (subst c1; cbn [log set_log]; eapply get_put_same, Hs1).
  destruct (close_owned_returns c1 slot _ old_state new_state
              (match releasep with Some _ => Some 0 | None => None end) Hg)
    as (c' & Hret & Hg' & Ha & Hact & _).
  exists c'. rewrite Hret. split.
  - destruct releasep, (WT_LOG_SLOT_DONE new_state); reflexivity.
  - split; [exact Hg'|]. split; [exact Ha|]. rewrite Hact. reflexivity.
Qed.

(** C2.  A [__wt_log_slot_close] on a slot whose state is neither
    CLOSED nor RESERVED, and that wins the close CAS, sets the slot's end
    LSN to its start LSN with the offset advanced by JOINED of the old
    state, publishes that end LSN as [log->alloc_lsn], returns 0, and
    stores 1 in [*releasep] exactly when the state it wrote is DONE: CLOSE
    is set in it, so exactly when JOINED = RELEASED. *)
Theorem close_wins_publishes_end_lsn
    sched session c slot s s1 releasep :
  get_slot (log c) slot = Some s ->
  WT_LOG_SLOT_CLOSED (slot_state s) = false ->
  FLD64_ISSET (slot_state s) WT_LOG_SLOT_RESERVED = false ->
  get_slot (interfere sched (log c)) slot = Some s1 ->
  slot_state s1 = slot_state s ->
  let old_state := slot_state s in
  let new_state := Z.lor old_state WT_LOG_SLOT_CLOSE in
  exists c' s' release_now,
    __wt_log_slot_close sched session c (Some slot) releasep =
      Returned (0, release_now, c') /\
    get_slot (log c') slot = Some s' /\
    slot_state s' = new_state /\
    slot_start_lsn s' = slot_start_lsn s1 /\
    LSN.file (slot_end_lsn s') = LSN.file (slot_start_lsn s') /\
    LSN.offset (slot_end_lsn s') =
      wrap64 (LSN.offset (slot_start_lsn s')
              + WT_LOG_SLOT_JOINED old_state) /\
    (int64_range (LSN.offset (slot_start_lsn s')
                  + WT_LOG_SLOT_JOINED old_state) ->
     LSN.offset (slot_end_lsn s') =
       LSN.offset (slot_start_lsn s') + WT_LOG_SLOT_JOINED old_state) /\
    alloc_lsn (log c') = slot_end_lsn s' /\
    release_now =
      match releasep with
      | Some _ => Some (if WT_LOG_SLOT_DONE new_state then 1 else 0)
      | None => None
      end /\
    WT_LOG_SLOT_CLOSED new_state = true /\
    WT_LOG_SLOT_DONE new_state =
      (WT_LOG_SLOT_JOINED new_state =? WT_LOG_SLOT_RELEASED new_state).
Proof.
  intros Hs Hc Hr Hs1 Hst old_state new_state.
  destruct (close_first_attempt sched session c slot s s1 releasep
              Hs Hc Hr Hs1 Hst) as (c' & Hret & Hg & Ha & _).
  fold old_state new_state in Hret, Hg, Ha.
  destruct (close_state old_state) as (_ & _ & Hclosed).
  fold new_state in Hclosed.
  eexists c', _, _. split; [exact Hret|]. split; [exact Hg|].
  cbn [slot_state slot_start_lsn slot_end_lsn set_slot_end_lsn
       set_slot_state LSN.file LSN.offset].
  repeat split; try assumption.
  - intros Hrange. now apply wrap64_id.
  - unfold WT_LOG_SLOT_DONE, WT_LOG_SLOT_INPROGRESS.
    rewrite Hclosed, negb_involutive. cbn [andb]. apply Z.eqb_sym.
Qed.

(** C5.  [__wt_log_slot_close] on no slot, or on a slot that has the CLOSE
    flag or the RESERVED flag, returns 0, leaves 0 in [*releasep], and
    changes nothing in the log: not the slot's state word, not
    [alloc_lsn]. *)
Theorem close_null_closed_reserved_is_noop
    sched session c slot releasep :
  null_closed_or_reserved (log c) slot ->
  exists c',
    __wt_log_slot_close sched session c slot releasep =
      Returned (0,
        match releasep with Some _ => Some 0 | None => None end, c') /\
    log c' = log c /\
    alloc_lsn (log c') = alloc_lsn (log c) /\
    (forall i, option_map slot_state (get_slot (log c') i) =
               option_map slot_state (get_slot (log c) i)).
Proof.
  intros H. unfold __wt_log_slot_close.
  set (c0 := WT_ASSERT 46 _ c).
  assert (Hlog : log c0 = log c) by (subst c0; apply log_WT_ASSERT).
  exists c0. rewrite Hlog. split; [|repeat split].
  destruct slot as [i|]; [|reflexivity].
  destruct H as (s & Hs & Hflag).
  apply (close_retry_flagged sched c0 i s); [now rewrite Hlog|exact Hflag].
Qed.

(** Closing twice: the second close finds the CLOSE flag and returns. *)
Lemma close_is_idempotent sched sched' session c slot s s1 releasep :
  get_slot (log c) slot = Some s ->
  WT_LOG_SLOT_CLOSED (slot_state s) = false ->
  FLD64_ISSET (slot_state s) WT_LOG_SLOT_RESERVED = false ->
  get_slot (interfere sched (log c)) slot = Some s1 ->
  slot_state s1 = slot_state s ->
  exists r c' c'',
    __wt_log_slot_close sched session c (Some slot) releasep =
      Returned (0, r, c') /\
    __wt_log_slot_close sched' session c' (Some slot) releasep =
      Returned (0,
        match releasep with Some _ => Some 0 | None => None end, c'') /\
    log c'' = log c'.
Proof.
  intros Hs Hc Hr Hs1 Hst.
  destruct (close_first_attempt sched session c slot s s1 releasep
              Hs Hc Hr Hs1 Hst) as (c' & Hret & Hg & _).
  exists (match releasep with
          | Some _ => Some (if WT_LOG_SLOT_DONE
                                 (Z.lor (slot_state s) WT_LOG_SLOT_CLOSE)
                            then 1 else 0)
          | None => None
          end), c', (WT_ASSERT 46 (locked_slot session) c').
  split; [exact Hret|]. split; [|apply log_WT_ASSERT].
  unfold __wt_log_slot_close.
  eapply close_retry_flagged; [rewrite log_WT_ASSERT; exact Hg|].
  left. cbn [slot_state set_slot_end_lsn set_slot_state].
  apply (close_state (slot_state s)).
Qed.

End Close.

(** ** Release *)

Section Release.

Context {hdr : Header} {ext : Collaborators}.

(** Left alone, the loop raises [slot_last_offset] to the larger of its
    value and [my_start]. *)
Lemma release_raise_alone l slot s my_start :
  get_slot l slot = Some s ->
  release_raise [] l slot my_start =
    Returned (put_slot slot
      (set_slot_last_offset (Z.max (slot_last_offset s) my_start) s) l).
Proof.
  intros Hs. cbn [release_raise interfere]. rewrite Hs.
  destruct (Z.ltb_spec (slot_last_offset s) my_start) as [Hlt|Hge].
  - unfold cas_slot_last_offset. rewrite Hs. unfold __wt_atomic_casiv64.
    rewrite Z.eqb_refl, Z.max_r by lia. reflexivity.
  - rewrite Z.max_l by lia.
    replace (set_slot_last_offset (slot_last_offset s) s) with s
      by now destruct s.
    now rewrite put_slot_id.
Qed.

(** Whatever the other threads do meanwhile, when the loop ends
    [slot_last_offset] is at least [my_start]. *)
Lemma release_raise_reaches sched : forall l slot my_start l',
  release_raise sched l slot my_start = Returned l' ->
  exists s', get_slot l' slot = Some s' /\ my_start <= slot_last_offset s'.
Proof.
  induction sched as [|env sched IH]; intros l slot my_start l';
    cbn [release_raise interfere];
    destruct (get_slot l slot) as [s|] eqn:Hs; try discriminate;
    destruct (Z.ltb_spec (slot_last_offset s) my_start) as [Hlt|Hge];
    try (intros [= <-]; exists s; split; [assumption|lia]);
    unfold cas_slot_last_offset.
  - rewrite Hs. unfold __wt_atomic_casiv64. rewrite Z.eqb_refl.
    intros [= <-]. eexists. split; [eapply get_put_same, Hs|]. cbn. lia.
  - destruct (get_slot (env l) slot) as [s1|] eqn:Hs1; try discriminate.
    unfold __wt_atomic_casiv64.
    destruct (Z.eqb_spec (slot_last_offset s1) (slot_last_offset s)).
    + intros [= <-]. eexists. split; [eapply get_put_same, Hs1|]. cbn. lia.
    + apply IH.
Qed.

(** What a release does when left alone. *)
Lemma release_alone l myslot size slot s :
  MYSLOT.slot myslot = Some slot ->
  get_slot l slot = Some s ->
  let my_start := wrap64 (slot_start_offset s + MYSLOT.offset myslot) in
  let v :=
    __wt_atomic_addiv64 (slot_state s) (WT_LOG_SLOT_JOIN_REL 0 size 0) in
  __wt_log_slot_release [] l myslot size =
    Returned (v,
      put_slot slot
        (set_slot_state v
           (set_slot_last_offset (Z.max (slot_last_offset s) my_start) s))
        l).
Proof.
  intros Hm Hs my_start v. unfold __wt_log_slot_release.
  rewrite Hm, Hs. fold my_start.
  rewrite (release_raise_alone l slot s my_start Hs).
  erewrite get_put_same by exact Hs.
  cbn [slot_state set_slot_last_offset]. fold v. now rewrite put_put.
Qed.

(** C4.  After [__wt_log_slot_release (myslot, size)] the slot's
    [slot_last_offset] is the maximum of its previous value and
    [slot_start_offset + myslot->offset], so it never decreases; the call
    returns the state word with [size] added into the RELEASED bitfield,
    JOINED and the flag bits unchanged, provided RELEASED + size fits the
    RELEASED bitfield. *)
Theorem release_raises_last_offset_and_adds_released
    l myslot size slot s :
  MYSLOT.slot myslot = Some slot ->
  get_slot l slot = Some s ->
  int64_range (slot_state s) ->
  int64_range (slot_start_offset s + MYSLOT.offset myslot) ->
  0 <= WT_LOG_SLOT_RELEASED (slot_state s) + size < 2 ^ RELEASED_BITS ->
  exists v l' s',
    __wt_log_slot_release [] l myslot size = Returned (v, l') /\
    get_slot l' slot = Some s' /\
    slot_last_offset s' =
      Z.max (slot_last_offset s)
        (slot_start_offset s + MYSLOT.offset myslot) /\
    slot_last_offset s <= slot_last_offset s' /\
    slot_state s' = v /\
    WT_LOG_SLOT_RELEASED v = WT_LOG_SLOT_RELEASED (slot_state s) + size /\
    WT_LOG_SLOT_JOINED v = WT_LOG_SLOT_JOINED (slot_state s) /\
    WT_LOG_SLOT_FLAGS v = WT_LOG_SLOT_FLAGS (slot_state s).
Proof.
  intros Hm Hs Hr Hoff Hfit.
  pose proof (release_alone l myslot size slot s Hm Hs) as Hrel.
  cbv zeta in Hrel. rewrite (wrap64_id _ Hoff) in Hrel.
  destruct (release_state (slot_state s) size Hr Hfit)
    as (_ & HR & HJ & HF & _).
  eexists _, _, _. split; [exact Hrel|].
  split; [eapply get_put_same, Hs|].
  cbn [slot_state slot_last_offset set_slot_state set_slot_last_offset].
  repeat split; try assumption. lia.
Qed.

End Release.

(** ** Releases after the close *)

Section CloseThenRelease.

Context {hdr : Header} {ext : Collaborators}.

Lemma close_keeps_counter_bits st :
  Z.land (Z.lor st WT_LOG_SLOT_CLOSE) WT_LOG_SLOT_MASK_OFF =
  Z.land st WT_LOG_SLOT_MASK_OFF.
Proof.
  rewrite Z.land_lor_distr_l.
  replace (Z.land WT_LOG_SLOT_CLOSE WT_LOG_SLOT_MASK_OFF) with 0
    by reflexivity.
  apply Z.lor_0_r.
Qed.

(** C9.  The close CAS writes the old state with the CLOSE flag or-ed in,
    so a winning close keeps the JOINED and RELEASED fields bit for bit.
    A release that was pending at the close is still counted after it,
    and the release that makes RELEASED equal JOINED returns a DONE
    state. *)
Theorem close_keeps_joined_and_released
    sched session c slot s s1 releasep :
  get_slot (log c) slot = Some s ->
  int64_range (slot_state s) ->
  WT_LOG_SLOT_CLOSED (slot_state s) = false ->
  FLD64_ISSET (slot_state s) WT_LOG_SLOT_RESERVED = false ->
  get_slot (interfere sched (log c)) slot = Some s1 ->
  slot_state s1 = slot_state s ->
  let old_state := slot_state s in
  exists c' s' release_now,
    __wt_log_slot_close sched session c (Some slot) releasep =
      Returned (0, release_now, c') /\
    get_slot (log c') slot = Some s' /\
    slot_state s' = Z.lor old_state WT_LOG_SLOT_CLOSE /\
    Z.land (slot_state s') WT_LOG_SLOT_MASK_OFF =
      Z.land old_state WT_LOG_SLOT_MASK_OFF /\
    WT_LOG_SLOT_JOINED (slot_state s') = WT_LOG_SLOT_JOINED old_state /\
    WT_LOG_SLOT_RELEASED (slot_state s') = WT_LOG_SLOT_RELEASED old_state /\
    forall myslot size,
      MYSLOT.slot myslot = Some slot ->
      0 <= size ->
      WT_LOG_SLOT_RELEASED old_state + size <= WT_LOG_SLOT_JOINED old_state ->
      exists v l'',
        __wt_log_slot_release [] (log c') myslot size = Returned (v, l'') /\
        WT_LOG_SLOT_JOINED v = WT_LOG_SLOT_JOINED old_state /\
        WT_LOG_SLOT_RELEASED v = WT_LOG_SLOT_RELEASED old_state + size /\
        WT_LOG_SLOT_CLOSED v = true /\
        WT_LOG_SLOT_DONE v =
          (WT_LOG_SLOT_RELEASED old_state + size
           =? WT_LOG_SLOT_JOINED old_state).
Proof.
  intros Hs Hrange Hc Hr Hs1 Hst old_state.
  destruct (close_first_attempt sched session c slot s s1 releasep
              Hs Hc Hr Hs1 Hst) as (c' & Hret & Hg & _).
  fold old_state in Hret, Hg.
  set (new_state := Z.lor old_state WT_LOG_SLOT_CLOSE) in *.
  destruct (close_state old_state) as (HJ & HR & Hclosed).
  fold new_state in HJ, HR, Hclosed.
  eexists c', _, _. split; [exact Hret|]. split; [exact Hg|].
  cbn [slot_state set_slot_end_lsn set_slot_state].
  split; [reflexivity|]. split; [apply close_keeps_counter_bits|].
  split; [exact HJ|]. split; [exact HR|].
  intros myslot size Hm Hsize Hle.
  pose proof (release_alone (log c') myslot size slot _ Hm Hg) as Hrel.
  cbv zeta in Hrel. cbn [slot_state set_slot_end_lsn set_slot_state] in Hrel.
  assert (Hfit : 0 <= WT_LOG_SLOT_RELEASED new_state + size
                 < 2 ^ RELEASED_BITS).
  { rewrite HR. clear - Hsize Hle. fields. zdm. }
  destruct (release_state new_state size
              (close_state_range old_state Hrange) Hfit)
    as (_ & HR' & HJ' & HF' & _).
  eexists _, _. split; [exact Hrel|].
  set (v := __wt_atomic_addiv64 new_state _) in *.
  assert (Hcv : WT_LOG_SLOT_CLOSED v = true)
    by (rewrite (CLOSED_FLAGS v new_state HF'); exact Hclosed).
  split; [now rewrite HJ', HJ|]. split; [now rewrite HR', HR|].
  split; [exact Hcv|].
  unfold WT_LOG_SLOT_DONE, WT_LOG_SLOT_INPROGRESS.
  rewrite Hcv, negb_involutive, HR', HJ', HR, HJ. reflexivity.
Qed.

End CloseThenRelease.

(** ** Switch *)

Section Switch.

Context {hdr : Header} {ext : Collaborators}.

(** A close that owns a slot with a join pending reports nothing to
    release. *)
Lemma close_owned_mid_join c slot s2 old_state :
  get_slot (log c) slot = Some s2 ->
  slot_state s2 = Z.lor old_state WT_LOG_SLOT_CLOSE ->
  WT_LOG_SLOT_JOINED old_state > WT_LOG_SLOT_RELEASED old_state ->
  exists c' s',
    close_owned c slot old_state (Z.lor old_state WT_LOG_SLOT_CLOSE)
      (Some 0) = Returned (0, Some 0, c') /\
    get_slot (log c') slot = Some s' /\
    WT_LOG_SLOT_JOINED (slot_state s')
      > WT_LOG_SLOT_RELEASED (slot_state s').
Proof.
  intros Hs Hst Hgt.
  destruct (close_owned_returns c slot s2 old_state
              (Z.lor old_state WT_LOG_SLOT_CLOSE) (Some 0) Hs)
    as (c' & Hret & Hg & _).
  destruct (close_state old_state) as (HJ & HR & _).
  assert (Hdone : WT_LOG_SLOT_DONE (Z.lor old_state WT_LOG_SLOT_CLOSE)
                  = false).
  { unfold WT_LOG_SLOT_DONE, WT_LOG_SLOT_INPROGRESS. rewrite HJ, HR.
    apply andb_false_iff. right. rewrite negb_involutive.
    apply Z.eqb_neq. lia. }
  rewrite Hdone in Hret. cbn [andb] in Hret.
  eexists c', _. split; [exact Hret|]. split; [exact Hg|].
  cbn [slot_state set_slot_end_lsn]. rewrite Hst, HJ, HR. exact Hgt.
Qed.

(** With a join pending on the slot the close reports nothing to
    release, however often its CAS is lost to threads that leave the join
    pending; the slot it leaves still has JOINED > RELEASED. *)
Lemma close_retry_mid_join sched : forall c slot s,
  get_slot (log c) slot = Some s ->
  mid_join (slot_state s) ->
  Forall (keeps_mid_join slot) sched ->
  exists c' s',
    close_retry sched c slot (Some 0) = Returned (0, Some 0, c') /\
    get_slot (log c') slot = Some s' /\
    WT_LOG_SLOT_JOINED (slot_state s')
      > WT_LOG_SLOT_RELEASED (slot_state s').
Proof.
  induction sched as [|env sched IH]; intros c slot s Hs Hmid Hkeep.
  - destruct Hmid as (Hc & Hr & Hgt).
    rewrite (close_retry_wins [] c slot s s (Some 0) Hs Hc Hr Hs eq_refl).
    eapply close_owned_mid_join;
      [cbn [log set_log interfere]; eapply get_put_same, Hs
      |reflexivity|exact Hgt].
  - apply Forall_cons in Hkeep as [Henv Hkeep].
    destruct (Henv _ _ Hs Hmid) as (s1 & Hs1 & Hmid1).
    destruct Hmid as (Hc & Hr & Hgt).
    destruct (Z.eq_dec (slot_state s1) (slot_state s)) as [Heq|Hne].
    + rewrite (close_retry_wins (env :: sched) c slot s s1 (Some 0)
                 Hs Hc Hr Hs1 Heq).
      eapply close_owned_mid_join;
        [cbn [log set_log interfere]; eapply get_put_same, Hs1
        |reflexivity|exact Hgt].
    + rewrite (close_retry_lost env sched c slot s s1 (Some 0)
                 Hs Hc Hr Hs1 Hne).
      eapply IH; [exact Hs1|exact Hmid1|exact Hkeep].
Qed.

(** C6.  [__wt_log_slot_switch] on the active slot, while the caller's
    join on it is pending (JOINED > RELEASED, neither CLOSED nor
    RESERVED): the close it calls leaves 0 in [dummy], so the assertion
    [dummy == 0] holds, and so does the diagnostic assertion [j > r] on
    the state after the close.  Neither leaves a trace: the function goes
    on to [__wt_log_slot_new] from the state the close left. *)
Theorem switch_asserts_hold_mid_join
    sched_close sched_new session c slot s :
  active_slot (log c) = Some slot ->
  get_slot (log c) slot = Some s ->
  mid_join (slot_state s) ->
  Forall (keeps_mid_join slot) sched_close ->
  let c0 := WT_ASSERT 107 (locked_slot session) c in
  exists c1 s1,
    __wt_log_slot_close sched_close session c0 (Some slot) (Some 0) =
      Returned (0, Some 0, c1) /\
    get_slot (log c1) slot = Some s1 /\
    WT_LOG_SLOT_JOINED (slot_state s1)
      > WT_LOG_SLOT_RELEASED (slot_state s1) /\
    (wrap32 (WT_LOG_SLOT_JOINED (slot_state s1))
       >? wrap32 (WT_LOG_SLOT_RELEASED (slot_state s1))) = true /\
    switch_close sched_close session c0 (Some slot) =
      Returned (0, Some 0, c1) /\
    __wt_log_slot_switch sched_close sched_new session c (Some slot) =
      __wt_log_slot_new sched_new session c1.
Proof.
  intros Ha Hs Hmid Hkeep c0.
  assert (Hlog0 : log c0 = log c) by (subst c0; apply log_WT_ASSERT).
  set (c00 := WT_ASSERT 46 (locked_slot session) c0).
  assert (Hlog00 : log c00 = log c)
    by (subst c00; now rewrite log_WT_ASSERT).
  destruct (close_retry_mid_join sched_close c00 slot s) as
    (c1 & s1 & Hret & Hg & Hgt); [now rewrite Hlog00|exact Hmid|exact Hkeep|].
  assert (Hclose : __wt_log_slot_close sched_close session c0 (Some slot)
                     (Some 0) = Returned (0, Some 0, c1)) by exact Hret.
  assert (Hcmp : (wrap32 (WT_LOG_SLOT_JOINED (slot_state s1))
                  >? wrap32 (WT_LOG_SLOT_RELEASED (slot_state s1))) = true).
  { clear - Hgt. fields. apply Z.gtb_lt. zdm. }
  assert (Hsw : switch_close sched_close session c0 (Some slot) =
                Returned (0, Some 0, c1)).
  { unfold switch_close. rewrite Hclose. cbn [Z.eqb negb].
    rewrite bool_decide_eq_true_2 by reflexivity.
    destruct HAVE_DIAGNOSTIC; [|reflexivity].
    cbn [WT_ASSERT mbind option_bind]. rewrite Hg, Hcmp. reflexivity. }
  exists c1, s1. repeat split; try assumption.
  unfold __wt_log_slot_switch. fold c0. rewrite Hlog0, Ha.
  rewrite bool_decide_eq_true_2 by reflexivity. cbn [negb].
  rewrite Hsw. cbn [Z.eqb negb].
  destruct (__wt_log_slot_new sched_new session c1) as [[ret c2]| |];
    try reflexivity.
  destruct (Z.eqb_spec ret 0) as [->|_]; reflexivity.
Qed.

End Switch.

(** ** New *)

Section New.

Context {hdr : Header} {ext : Collaborators}.

(** The scan returns a slot of the pool whose state is FREE. *)
Lemma scan_pool_free pool : forall i slot,
  scan_pool pool i = Some slot ->
  (i <= slot)%nat /\
  exists s, pool !! (slot - i)%nat = Some s /\
            slot_state s = WT_LOG_SLOT_FREE.
Proof.
  induction pool as [|s0 pool IH]; intros i slot; cbn [scan_pool];
    [discriminate|].
  destruct (Z.eqb_spec (slot_state s0) WT_LOG_SLOT_FREE) as [Hfree|_].
  - intros [= <-]. split; [lia|]. exists s0.
    rewrite Nat.sub_diag. split; [reflexivity|exact Hfree].
  - intros H. destruct (IH _ _ H) as (Hle & s & Hs & Hfree).
    split; [lia|]. exists s. split; [|exact Hfree].
    replace (slot - i)%nat with (S (slot - S i)) by lia. exact Hs.
Qed.

(** A pass that finds a free slot and cannot acquire file space for it
    returns the error, with the log as the acquisition left it. *)
Lemma new_retry_acquire_error sched c slot ret l' :
  scan_pool (slot_pool (log c)) 0 = Some slot ->
  __wt_log_acquire (log c) (slot_buf_size (log c)) slot = (ret, l') ->
  ret <> 0 ->
  new_retry sched c = Returned (ret, set_log l' c).
Proof.
  intros Hscan Hacq Hret.
  destruct sched as [|env sched]; cbn [new_retry];
    rewrite Hscan, Hacq;
    destruct (Z.eqb_spec ret 0); try contradiction; reflexivity.
Qed.

(** A pass that finds no free slot signals the worker thread, yields and
    scans again. *)
Lemma new_retry_pool_full (env : interference) sched c :
  scan_pool (slot_pool (log c)) 0 = None ->
  new_retry (env :: sched) c =
    new_retry sched
      (mkConn (env (log c)) (log_file_max c) (S (log_wrlsn_cond c))
         (stats c) (files c) (failed_asserts c)).
Proof. intros Hscan. cbn [new_retry]. now rewrite Hscan. Qed.

(** C8.  When [__wt_log_acquire] fails for the free slot the scan of
    [__wt_log_slot_new] found, [__wt_log_slot_new] returns that error and
    has written nothing to the log itself: the log is as the acquisition
    left it.  With an acquisition that on failure leaves the active slot
    and the slot's state word alone, [log->active_slot] is unchanged and
    the slot's state is still WT_LOG_SLOT_FREE. *)
Theorem new_returns_acquire_error sched session c slot ret l' :
  needs_new_slot (log c) ->
  scan_pool (slot_pool (log c)) 0 = Some slot ->
  __wt_log_acquire (log c) (slot_buf_size (log c)) slot = (ret, l') ->
  ret <> 0 ->
  active_slot l' = active_slot (log c) ->
  option_map slot_state (get_slot l' slot) =
    option_map slot_state (get_slot (log c) slot) ->
  exists c' s',
    __wt_log_slot_new sched session c = Returned (ret, c') /\
    log c' = l' /\
    active_slot (log c') = active_slot (log c) /\
    get_slot (log c') slot = Some s' /\
    slot_state s' = WT_LOG_SLOT_FREE /\
    log_slot_transitions (stats c') = log_slot_transitions (stats c).
Proof.
  intros (Hforce & Hopen) Hscan Hacq Hret Hact Hstate.
  destruct (scan_pool_free _ _ _ Hscan) as (_ & s & Hs & Hfree).
  rewrite Nat.sub_0_r in Hs. fold (get_slot (log c) slot) in Hs.
  rewrite Hs in Hstate. cbn [option_map] in Hstate.
  destruct (get_slot l' slot) as [s'|] eqn:Hs'; [|discriminate].
  injection Hstate as Hstate.
  set (c0 := WT_ASSERT 144 (locked_slot session) c).
  assert (Hlog : log c0 = log c) by (subst c0; apply log_WT_ASSERT).
  assert (Hnew : new_retry sched c0 = Returned (ret, set_log l' c0))
    by (apply (new_retry_acquire_error sched c0 slot ret l');
        rewrite ?Hlog; assumption).
  exists (set_log l' c0), s'. split.
  - unfold __wt_log_slot_new. fold c0. rewrite Hlog, Hforce. cbn [negb].
    destruct (active_slot (log c)) as [a|]; [|exact Hnew].
    destruct Hopen as (sa & Hsa & Hnopen). rewrite Hsa, Hnopen. exact Hnew.
  - cbn [log set_log]. repeat split; try assumption; try congruence.
    subst c0. unfold WT_ASSERT. now destruct (locked_slot session).
Qed.

End New.

(** ** Destroy *)

Section Destroy.

Context {hdr : Header} {ext : Collaborators}.

(** A slot with residual bytes whose write fails: the body of the loop
    returns the error before it frees the buffer. *)
Lemma destroy_slot_write_error c i slot ret fs :
  get_slot (log c) i = Some slot ->
  FLD64_ISSET (slot_state slot) WT_LOG_SLOT_RESERVED = false ->
  u64 (WT_LOG_SLOT_RELEASED (slot_state slot) - slot_unbuffered slot) <> 0 ->
  __wt_write (files c) (slot_fh slot) (slot_start_offset slot)
    (u64 (WT_LOG_SLOT_RELEASED (slot_state slot) - slot_unbuffered slot))
    (slot_buf slot) = (ret, fs) ->
  ret <> 0 ->
  destroy_slot c i = Returned (ret, set_files fs c).
Proof.
  intros Hs Hres Hsize Hw Hret. unfold destroy_slot.
  rewrite Hs, Hres. cbn [negb].
  destruct (Z.eqb_spec (u64 (WT_LOG_SLOT_RELEASED (slot_state slot)
                             - slot_unbuffered slot)) 0); [contradiction|].
  cbn [negb]. rewrite Hw.
  destruct (Z.eqb_spec ret 0); [contradiction|]. reflexivity.
Qed.

(** The loop of [__wt_log_slot_destroy] ends at the first slot whose
    write fails: the slots from there on keep their buffers, and the
    residual bytes of the later ones are not written. *)
Lemma destroy_loop_stops_at_write_error n c i slot ret fs :
  get_slot (log c) i = Some slot ->
  FLD64_ISSET (slot_state slot) WT_LOG_SLOT_RESERVED = false ->
  u64 (WT_LOG_SLOT_RELEASED (slot_state slot) - slot_unbuffered slot) <> 0 ->
  __wt_write (files c) (slot_fh slot) (slot_start_offset slot)
    (u64 (WT_LOG_SLOT_RELEASED (slot_state slot) - slot_unbuffered slot))
    (slot_buf slot) = (ret, fs) ->
  ret <> 0 ->
  destroy_loop (S n) i c = Returned (ret, set_files fs c).
Proof.
  intros Hs Hres Hsize Hw Hret. cbn [destroy_loop].
  rewrite (destroy_slot_write_error c i slot ret fs) by assumption.
  destruct (Z.eqb_spec ret 0); [contradiction|]. reflexivity.
Qed.

(** C7 (the code at a failing input).  Three slots have residual bytes
    and the write of the second fails with EIO: [__wt_log_slot_destroy]
    returns EIO at once.  The error is returned but not stored in the
    slot; the third slot is not drained (one write reached the files, the
    first slot's) and the second and third buffers are not freed. *)
Theorem destroy_returns_at_failed_write :
  match __wt_log_slot_destroy (ext := demo_ext)
          (demo_conn (demo_log None residual_pool)) with
  | Returned (ret, c') =>
      ret = 5 /\
      map slot_error (slot_pool (log c')) = [0; 0; 0] /\
      map w_len (files c') = [1] /\
      map (fun s => bool_decide (slot_buf s = None)) (slot_pool (log c')) =
        [true; false; false]
  | _ => False
  end.
Proof. vm_compute. repeat split. Qed.

End Destroy.

(** ** Histories of joins and releases *)

Section HistoryProofs.

Context {hdr : Header} {ext : Collaborators}.

(** Activation opens the slot with both counters at zero. *)
Lemma activate_state_zero l slot l' :
  __wt_log_slot_activate l slot = Returned l' ->
  exists s', get_slot l' slot = Some s' /\ slot_state s' = 0 /\
             active_slot l' = active_slot l.
Proof.
  unfold __wt_log_slot_activate.
  destruct (get_slot l slot) as [s|] eqn:Hs; [|discriminate].
  intros [= <-]. eexists. split; [eapply get_put_same, Hs|].
  split; reflexivity.
Qed.

Lemma contiguous_partition_bounds spans : forall lo hi,
  contiguous_partition lo hi spans ->
  lo <= hi /\
  forall k a, spans !! k = Some a ->
    lo <= MYSLOT.offset a /\ MYSLOT.end_offset a <= hi.
Proof.
  induction spans as [|m spans IH]; intros lo hi; cbn [contiguous_partition].
  - intros ->. split; [lia|]. intros k a Hk. discriminate.
  - intros (Hoff & Hle & Hrest). destruct (IH _ _ Hrest) as (Hhi & Hin).
    split; [lia|]. intros [|k] a Hk.
    + injection Hk as <-. lia.
    + destruct (Hin k a Hk). lia.
Qed.

Lemma contiguous_partition_disjoint spans : forall lo hi,
  contiguous_partition lo hi spans -> pairwise_disjoint spans.
Proof.
  induction spans as [|m spans IH]; intros lo hi Hcp i k a b Hik Ha Hb.
  - discriminate.
  - destruct Hcp as (Hoff & Hle & Hrest).
    destruct k as [|k]; [lia|]. destruct i as [|i].
    + injection Ha as <-.
      destruct (contiguous_partition_bounds _ _ _ Hrest) as (_ & Hin).
      destruct (Hin k b Hb). lia.
    + eapply (IH _ _ Hrest i k); [lia|exact Ha|exact Hb].
Qed.

(** The invariant of a history: the slot stays active and open, its
    JOINED and RELEASED counters follow the running totals, and the spans
    handed out so far tile the bytes joined so far. *)
Lemma run_ops_tiles session ops : forall c slot s j r,
  active_slot (log c) = Some slot ->
  get_slot (log c) slot = Some s ->
  int64_range (slot_state s) ->
  WT_LOG_SLOT_OPEN (slot_state s) = true ->
  WT_LOG_SLOT_JOINED (slot_state s) = j ->
  WT_LOG_SLOT_RELEASED (slot_state s) = r ->
  0 <= r ->
  ops_fit slot j r ops ->
  exists spans c' s',
    run_ops session c ops = Returned (spans, c') /\
    get_slot (log c') slot = Some s' /\
    Forall2 (fun m size =>
               MYSLOT.slot m = Some slot /\
               MYSLOT.end_offset m = MYSLOT.offset m + size)
      spans (join_sizes ops) /\
    contiguous_partition j (WT_LOG_SLOT_JOINED (slot_state s')) spans.
Proof.
  induction ops as [|[mysize flags_arg|myslot size] ops IH];
    intros c slot s j r Ha Hs Hrange Hopen Hj Hr Hr0 Hfit.
  - exists [], c, s. cbn. repeat split; [assumption|constructor|congruence].
  - destruct Hfit as ((Hm & Hmax) & Hjfit & Hfit).
    rewrite <- Hj in Hjfit.
    destruct (join_first_attempt [] session c slot s s mysize flags_arg
                (MYSLOT.mk None 0 0) Ha Hs Hopen Hs eq_refl)
      as (c1 & s1 & Hjoin & Hg1 & Hst1 & Hact1 & _).
    destruct (join_new_state_fit (slot_state s) mysize Hm Hjfit)
      as (_ & Hoff & Hend).
    destruct (join_state (slot_state s) mysize Hrange Hm Hjfit)
      as (_ & HJ & HR & HF & Hrange1).
    cbv zeta in HJ, HR, HF, Hrange1.
    rewrite <- Hst1 in HJ, HR, HF, Hrange1.
    rewrite Hend, Hoff in Hjoin.
    assert (Hopen1 : WT_LOG_SLOT_OPEN (slot_state s1) = true)
      by (unfold WT_LOG_SLOT_OPEN in *; now rewrite HF).
    destruct (IH c1 slot s1 (j + mysize) r)
      as (spans & c' & s' & Hrun & Hg' & Hall & Hcp);
      try assumption; try congruence.
    { now rewrite Hact1. }
    cbn [run_ops join_sizes]. rewrite Hjoin, Hrun.
    eexists _, c', s'. split; [reflexivity|]. split; [exact Hg'|].
    split.
    + constructor; [|exact Hall]. cbn. split; [reflexivity|congruence].
    + cbn [contiguous_partition MYSLOT.offset MYSLOT.end_offset].
      rewrite Hj. repeat split; [lia|exact Hcp].
  - destruct Hfit as (Hm & Hsize & Hrfit & Hfit).
    pose proof (release_alone (log c) myslot size slot s Hm Hs) as Hrel.
    cbv zeta in Hrel.
    assert (Hrfit' : 0 <= WT_LOG_SLOT_RELEASED (slot_state s) + size
                     < 2 ^ RELEASED_BITS) by lia.
    destruct (release_state (slot_state s) size Hrange Hrfit')
      as (_ & HR & HJ & HF & Hrange1).
    set (v := __wt_atomic_addiv64 _ _) in *.
    set (s1 := set_slot_state v _) in *.
    set (l1 := put_slot slot s1 (log c)) in *.
    assert (Hg1 : get_slot l1 slot = Some s1)
      by (subst l1; eapply get_put_same, Hs).
    assert (Hopen1 : WT_LOG_SLOT_OPEN (slot_state s1) = true)
      by (unfold WT_LOG_SLOT_OPEN in *; cbn [s1 slot_state set_slot_state];
          now rewrite HF).
    destruct (IH (set_log l1 c) slot s1 j (r + size))
      as (spans & c' & s' & Hrun & Hg' & Hall & Hcp);
      cbn [log set_log s1 slot_state set_slot_state]; try assumption;
      try congruence; try lia.
    cbn [run_ops join_sizes]. rewrite Hrel, Hrun.
    exists spans, c', s'. repeat split; assumption.
Qed.

(** Without races: the joins of a history of one slot, from its
    activation on and before any close, each below the maximum and with
    the running total representable in the JOINED bitfield, each get a
    span of the size they asked for; the spans are pairwise disjoint and
    tile [0, JOINED) of the final state. *)
Lemma joins_in_turn_partition_the_slot session c slot s ops :
  active_slot (log c) = Some slot ->
  get_slot (log c) slot = Some s ->
  slot_state s = 0 ->
  ops_fit slot 0 0 ops ->
  exists spans c' s',
    run_ops session c ops = Returned (spans, c') /\
    get_slot (log c') slot = Some s' /\
    Forall2 (fun m size =>
               MYSLOT.slot m = Some slot /\
               MYSLOT.end_offset m = MYSLOT.offset m + size)
      spans (join_sizes ops) /\
    contiguous_partition 0 (WT_LOG_SLOT_JOINED (slot_state s')) spans /\
    pairwise_disjoint spans.
Proof.
  intros Ha Hs Hst Hfit.
  destruct (run_ops_tiles session ops c slot s 0 0)
    as (spans & c' & s' & Hrun & Hg & Hall & Hcp);
    try assumption; try (rewrite Hst; reflexivity); try lia.
  { rewrite Hst. unfold int64_range. lia. }
  exists spans, c', s'. repeat split; try assumption.
  eapply contiguous_partition_disjoint, Hcp.
Qed.

End HistoryProofs.

(** ** More on join *)

Section JoinMore.

Context {hdr : Header} {ext : Collaborators}.

(** The two assertions at the head of the join only add to the ghost
    record. *)
Lemma join_asserts_frame session mysize c :
  let c1 := WT_ASSERT 321 (negb (locked_slot session))
              (WT_ASSERT 320 (mysize <? WT_LOG_SLOT_MAXIMUM) c) in
  log c1 = log c /\ stats c1 = stats c /\
  log_file_max c1 = log_file_max c /\
  log_wrlsn_cond c1 = log_wrlsn_cond c /\ files c1 = files c.
Proof.
  unfold WT_ASSERT.
  destruct (mysize <? WT_LOG_SLOT_MAXIMUM), (negb (locked_slot session));
    repeat split.
Qed.

(** X1.  No active slot: the join returns 0 and touches neither the log nor
    the caller's WT_MYSLOT.  For the worker thread's probe (size 0, slot
    lock not held) no assertion fails; for any other size the assertion
    of line 331 does. *)
Theorem join_without_active_slot sched session c mysize flags_arg myslotp :
  active_slot (log c) = None ->
  exists c',
    __wt_log_slot_join sched session c mysize flags_arg myslotp =
      Returned (0, myslotp, c') /\
    log c' = log c /\ stats c' = stats c /\
    (mysize = 0 -> locked_slot session = false ->
     failed_asserts c' = failed_asserts c) /\
    (mysize <> 0 -> In 331 (failed_asserts c')).
Proof.
  intros Ha. unfold __wt_log_slot_join.
  destruct (join_asserts_frame session mysize c) as (Hlog & Hst & _).
  set (c1 := WT_ASSERT 321 _ _) in *.
  rewrite Hlog, Ha. eexists. split; [reflexivity|].
  split; [now rewrite log_WT_ASSERT|].
  split; [unfold WT_ASSERT; destruct (mysize =? 0); exact Hst|].
  split.
  - intros -> Hl. subst c1. rewrite Hl. reflexivity.
  - intros Hne. unfold WT_ASSERT at 1.
    destruct (Z.eqb_spec mysize 0) as [|_]; [contradiction|].
    cbn [failed_asserts]. apply in_or_app. right. now left.
Qed.

(** While the active slot is not open, and the other threads leave it
    so, the loop of the join never leaves: the function is still
    yielding when the schedule ends. *)
Lemma join_retry_spins sched : forall c mysize,
  active_not_open (log c) ->
  Forall keeps_not_open sched ->
  join_retry sched c mysize = Spinning.
Proof.
  induction sched as [|env sched IH]; intros c mysize (a & s & Ha & Hs & Hno)
    Hkeep; cbn [join_retry]; rewrite Ha, Hs, Hno; [reflexivity|].
  apply Forall_cons in Hkeep as [Henv Hkeep].
  apply IH; [|exact Hkeep]. cbn [log set_log stat_incr_races set_stats interfere].
  apply Henv. exists a, s. auto.
Qed.

(** X2.  While the active slot is not open for joining and the other
    threads leave it so, [__wt_log_slot_join] never joins it: it is still
    in its loop, yielding, when the schedule ends. *)
Theorem join_waits_while_not_open sched session c mysize flags_arg myslotp :
  active_not_open (log c) ->
  Forall keeps_not_open sched ->
  __wt_log_slot_join sched session c mysize flags_arg myslotp = Spinning.
Proof.
  intros Hno Hkeep. unfold __wt_log_slot_join.
  destruct (join_asserts_frame session mysize c) as (Hlog & _).
  set (c1 := WT_ASSERT 321 _ _) in *.
  destruct Hno as (a & s & Ha & Hs & Hno). rewrite Hlog, Ha.
  rewrite (join_retry_spins sched c1 mysize); [reflexivity| |exact Hkeep].
  rewrite Hlog. exists a, s. auto.
Qed.

Lemma flags_set_flags v x : flags (set_flags v x) = v.
Proof. reflexivity. Qed.

Lemma set_flags_twice v w x : set_flags v (set_flags w x) = set_flags v x.
Proof. reflexivity. Qed.

Lemma flags_set_slot_state v x : flags (set_slot_state v x) = flags x.
Proof. reflexivity. Qed.

Lemma set_flags_keeps v x :
  set_flags (flags x) (set_slot_state v x) = set_slot_state v x.
Proof. now destruct x. Qed.

(** The join that wins its first CAS, with what it leaves in the slot and
    in the statistics. *)
Lemma join_first_attempt_slot
    sched session c slot s s1 mysize flags_arg myslotp :
  active_slot (log c) = Some slot ->
  get_slot (log c) slot = Some s ->
  WT_LOG_SLOT_OPEN (slot_state s) = true ->
  get_slot (interfere sched (log c)) slot = Some s1 ->
  slot_state s1 = slot_state s ->
  exists c' myslot,
    __wt_log_slot_join sched session c mysize flags_arg myslotp =
      Returned (0, myslot, c') /\
    MYSLOT.slot myslot = Some slot /\
    MYSLOT.offset myslot = wrap32 (WT_LOG_SLOT_JOINED (slot_state s)) /\
    get_slot (log c') slot =
      Some (set_flags
              (let f :=
                 if F_ISSET flags_arg (Z.lor WT_LOG_DSYNC WT_LOG_FSYNC)
                 then F_SET (flags s1) WT_SLOT_SYNC_DIR else flags s1 in
               if F_ISSET flags_arg WT_LOG_FSYNC
               then F_SET f WT_SLOT_SYNC else f)
              (set_slot_state (join_new_state (slot_state s) mysize) s1)) /\
    log_slot_races (stats c') = log_slot_races (stats c) /\
    log_slot_joins (stats c') =
      log_slot_joins (stats c) + (if mysize =? 0 then 0 else 1).
Proof.
  intros Ha Hs Hopen Hs1 Hst.
  unfold __wt_log_slot_join.
  destruct (join_asserts_frame session mysize c) as (Hlog & Hstats & _).
  set (c1 := WT_ASSERT 321 _ _) in *.
  rewrite Hlog, Ha.
  rewrite (join_retry_wins sched c1 slot s s1 mysize)
    by (rewrite ?Hlog; assumption).
  rewrite Hlog.
  remember (join_new_state (slot_state s) mysize) as new eqn:Hnew.
  clear Hnew.
  set (l2 := put_slot slot (set_slot_state new s1) (interfere sched (log c))).
  set (c2 := if negb (mysize =? 0) then _ else _).
  assert (Hlog2 : log c2 = l2)
    by (subst c2; destruct (negb (mysize =? 0)); reflexivity).
  assert (Hraces : log_slot_races (stats c2) = log_slot_races (stats c))
    by (subst c2; destruct (negb (mysize =? 0));
        cbn [stats stat_incr_joins set_stats set_log log_slot_races];
        now rewrite Hstats).
  assert (Hjoins : log_slot_joins (stats c2) =
            log_slot_joins (stats c) + (if mysize =? 0 then 0 else 1)).
  { subst c2. destruct (mysize =? 0);
      cbn [negb stats stat_incr_joins set_stats set_log log_slot_joins];
      rewrite Hstats; lia. }
  rewrite Hlog2.
  assert (Hg : get_slot l2 slot = Some (set_slot_state new s1))
    by (subst l2; eapply get_put_same, Hs1).
  rewrite Hg.
  eexists _, _. split; [reflexivity|]. cbn [log set_log stats MYSLOT.slot
    MYSLOT.offset].
  split; [reflexivity|]. split; [reflexivity|].
  split; [|split; assumption].
  erewrite get_put_same by exact Hg. f_equal.
  generalize (F_ISSET flags_arg (Z.lor WT_LOG_DSYNC WT_LOG_FSYNC))
    (F_ISSET flags_arg WT_LOG_FSYNC).
  intros [] [];
    rewrite ?flags_set_flags, ?set_flags_twice, ?flags_set_slot_state;
    [reflexivity..|].
  rewrite set_flags_keeps. reflexivity.
Qed.

Lemma land_lor_same a m : Z.land (Z.lor a m) m = m.
Proof.
  apply Z.bits_inj'. intros n Hn. rewrite Z.land_spec, Z.lor_spec.
  destruct (Z.testbit a n), (Z.testbit m n); reflexivity.
Qed.

Lemma land_lor_keeps a m : Z.land (Z.lor a m) a = a.
Proof.
  apply Z.bits_inj'. intros n Hn. rewrite Z.land_spec, Z.lor_spec.
  destruct (Z.testbit a n), (Z.testbit m n); reflexivity.
Qed.

Lemma land_lor_lor_first a d m : Z.land (Z.lor (Z.lor a d) m) d = d.
Proof.
  apply Z.bits_inj'. intros n Hn. rewrite Z.land_spec, !Z.lor_spec.
  destruct (Z.testbit a n), (Z.testbit d n), (Z.testbit m n); reflexivity.
Qed.

Lemma land_lor_lor_keeps a d m : Z.land (Z.lor (Z.lor a d) m) a = a.
Proof.
  apply Z.bits_inj'. intros n Hn. rewrite Z.land_spec, !Z.lor_spec.
  destruct (Z.testbit a n), (Z.testbit d n), (Z.testbit m n); reflexivity.
Qed.

(** A flag that is set in a word is set under any wider mask. *)
Lemma F_ISSET_lor_l f a b : F_ISSET f a = true -> F_ISSET f (Z.lor a b) = true.
Proof.
  unfold F_ISSET. rewrite !negb_true_iff, !Z.eqb_neq, Z.land_lor_distr_r.
  intros Ha H. apply Z.lor_eq_0_iff in H. tauto.
Qed.

Lemma F_ISSET_lor_r f a b : F_ISSET f b = true -> F_ISSET f (Z.lor a b) = true.
Proof. rewrite Z.lor_comm. apply F_ISSET_lor_l. Qed.

(** X3.  The sync flags of a join are or-ed into the slot: WT_LOG_FSYNC sets
    WT_SLOT_SYNC and WT_SLOT_SYNC_DIR, WT_LOG_DSYNC sets WT_SLOT_SYNC_DIR,
    no flag that was set is cleared, and a join with neither leaves the
    slot's flags as they were. *)
Theorem join_ors_sync_flags
    sched session c slot s s1 mysize flags_arg myslotp :
  active_slot (log c) = Some slot ->
  get_slot (log c) slot = Some s ->
  WT_LOG_SLOT_OPEN (slot_state s) = true ->
  get_slot (interfere sched (log c)) slot = Some s1 ->
  slot_state s1 = slot_state s ->
  exists c' myslot s',
    __wt_log_slot_join sched session c mysize flags_arg myslotp =
      Returned (0, myslot, c') /\
    get_slot (log c') slot = Some s' /\
    Z.land (flags s') (flags s1) = flags s1 /\
    (F_ISSET flags_arg WT_LOG_FSYNC = true ->
     Z.land (flags s') WT_SLOT_SYNC = WT_SLOT_SYNC /\
     Z.land (flags s') WT_SLOT_SYNC_DIR = WT_SLOT_SYNC_DIR) /\
    (F_ISSET flags_arg WT_LOG_DSYNC = true ->
     Z.land (flags s') WT_SLOT_SYNC_DIR = WT_SLOT_SYNC_DIR) /\
    (F_ISSET flags_arg (Z.lor WT_LOG_DSYNC WT_LOG_FSYNC) = false ->
     flags s' = flags s1).
Proof.
  intros Ha Hs Hopen Hs1 Hst.
  destruct (join_first_attempt_slot sched session c slot s s1 mysize
              flags_arg myslotp Ha Hs Hopen Hs1 Hst)
    as (c' & myslot & Hret & _ & _ & Hg & _).
  eexists c', myslot, _. split; [exact Hret|]. split; [exact Hg|].
  rewrite flags_set_flags. unfold F_SET.
  pose proof (F_ISSET_lor_r flags_arg WT_LOG_DSYNC WT_LOG_FSYNC) as HF.
  pose proof (F_ISSET_lor_l flags_arg WT_LOG_DSYNC WT_LOG_FSYNC) as HD.
  destruct (F_ISSET flags_arg WT_LOG_FSYNC) eqn:EF;
    [rewrite (HF eq_refl)|];
    (destruct (F_ISSET flags_arg WT_LOG_DSYNC) eqn:ED;
     [rewrite ?(HD eq_refl)|]);
    try destruct (F_ISSET flags_arg (Z.lor WT_LOG_DSYNC WT_LOG_FSYNC));
    repeat split; intros; try discriminate; try reflexivity;
    auto using land_lor_same, land_lor_keeps, land_lor_lor_first,
               land_lor_lor_keeps, Z.land_diag.
Qed.

(** An iteration of the join that finds the slot not open, or loses its
    CAS, counts a race and starts again from what the others left. *)
Lemma join_retry_again (env : interference) sched c slot s mysize :
  active_slot (log c) = Some slot ->
  get_slot (log c) slot = Some s ->
  WT_LOG_SLOT_OPEN (slot_state s) = false \/
  (exists s1, get_slot (env (log c)) slot = Some s1 /\
              slot_state s1 <> slot_state s) ->
  join_retry (env :: sched) c mysize =
    join_retry sched (stat_incr_races (set_log (env (log c)) c)) mysize.
Proof.
  intros Ha Hs Hfail. cbn [join_retry]. rewrite Ha, Hs.
  cbn [log set_log interfere].
  destruct (WT_LOG_SLOT_OPEN (slot_state s)) eqn:Hopen; [|reflexivity].
  destruct Hfail as [|(s1 & Hs1 & Hne)]; [discriminate|].
  unfold cas_slot_state. rewrite Hs1. unfold __wt_atomic_casiv64.
  destruct (Z.eqb_spec (slot_state s1) (slot_state s)); [contradiction|].
  reflexivity.
Qed.

Lemma join_again (env : interference) sched session c slot s slot' mysize
    flags_arg myslotp :
  active_slot (log c) = Some slot ->
  get_slot (log c) slot = Some s ->
  WT_LOG_SLOT_OPEN (slot_state s) = false \/
  (exists s1, get_slot (env (log c)) slot = Some s1 /\
              slot_state s1 <> slot_state s) ->
  active_slot (env (log c)) = Some slot' ->
  __wt_log_slot_join (env :: sched) session c mysize flags_arg myslotp =
    __wt_log_slot_join sched session
      (stat_incr_races (set_log (env (log c)) c)) mysize flags_arg myslotp.
Proof.
  intros Ha Hs Hfail Ha'. unfold __wt_log_slot_join.
  destruct (join_asserts_frame session mysize c) as (Hlog & _).
  destruct (join_asserts_frame session mysize
              (stat_incr_races (set_log (env (log c)) c))) as (Hlog' & _).
  set (c1 := WT_ASSERT 321 _ (WT_ASSERT 320 _ c)) in *.
  set (c2 := WT_ASSERT 321 _ (WT_ASSERT 320 _ (stat_incr_races _))) in *.
  cbn [log stat_incr_races set_stats set_log] in Hlog'.
  rewrite Hlog, Ha, Hlog', Ha'.
  rewrite (join_retry_again env sched c1 slot s mysize)
    by (rewrite ?Hlog; assumption).
  replace (stat_incr_races (set_log (env (log c1)) c1)) with c2;
    [reflexivity|].
  subst c1 c2. unfold WT_ASSERT.
  destruct (mysize <? WT_LOG_SLOT_MAXIMUM), (negb (locked_slot session));
    reflexivity.
Qed.

(** X4.  A join that finds the active slot closed, or loses its CAS to another
    thread, joins the slot that is active afterwards, behind the bytes
    already joined there, and counts one race. *)
Theorem join_retries_on_the_slot_then_active
    (env : interference) sched session c slot s slot' s' s2 mysize
    flags_arg myslotp :
  active_slot (log c) = Some slot ->
  get_slot (log c) slot = Some s ->
  WT_LOG_SLOT_OPEN (slot_state s) = false \/
  (exists s1, get_slot (env (log c)) slot = Some s1 /\
              slot_state s1 <> slot_state s) ->
  active_slot (env (log c)) = Some slot' ->
  get_slot (env (log c)) slot' = Some s' ->
  WT_LOG_SLOT_OPEN (slot_state s') = true ->
  int64_range (slot_state s') ->
  0 <= mysize ->
  WT_LOG_SLOT_JOINED (slot_state s') + mysize < 2 ^ JOINED_BITS ->
  get_slot (interfere sched (env (log c))) slot' = Some s2 ->
  slot_state s2 = slot_state s' ->
  exists c' sf,
    __wt_log_slot_join (env :: sched) session c mysize flags_arg myslotp =
      Returned (0,
        MYSLOT.mk (Some slot') (WT_LOG_SLOT_JOINED (slot_state s'))
          (WT_LOG_SLOT_JOINED (slot_state s') + mysize), c') /\
    get_slot (log c') slot' = Some sf /\
    WT_LOG_SLOT_JOINED (slot_state sf) =
      WT_LOG_SLOT_JOINED (slot_state s') + mysize /\
    WT_LOG_SLOT_RELEASED (slot_state sf) =
      WT_LOG_SLOT_RELEASED (slot_state s') /\
    log_slot_races (stats c') = log_slot_races (stats c) + 1.
Proof.
  intros Ha Hs Hfail Ha' Hs' Hopen Hrange Hm Hfit Hs2 Hst.
  rewrite (join_again env sched session c slot s slot' mysize flags_arg
             myslotp Ha Hs Hfail Ha').
  set (c2 := stat_incr_races (set_log (env (log c)) c)).
  destruct (join_first_attempt sched session c2 slot' s' s2 mysize
              flags_arg myslotp Ha' Hs' Hopen Hs2 Hst)
    as (c' & sf & Hret & Hg & Hstf & _).
  destruct (join_first_attempt_slot sched session c2 slot' s' s2 mysize
              flags_arg myslotp Ha' Hs' Hopen Hs2 Hst)
    as (c'' & ms'' & Hret' & _ & _ & _ & Hraces & _).
  assert (c'' = c') as -> by congruence.
  destruct (join_new_state_fit (slot_state s') mysize Hm Hfit)
    as (_ & Hoff & Hend).
  destruct (join_state (slot_state s') mysize Hrange Hm Hfit)
    as (_ & HJ & HR & _).
  cbv zeta in HJ, HR. rewrite Hend, Hoff in Hret.
  exists c', sf. split; [exact Hret|]. split; [exact Hg|].
  rewrite Hstf. split; [exact HJ|]. split; [exact HR|].
  rewrite Hraces. subst c2. cbn [stats stat_incr_races set_stats set_log
    log_slot_races]. reflexivity.
Qed.

End JoinMore.

(** ** More on close and switch *)

Section CloseMore.

Context {hdr : Header} {ext : Collaborators}.

(** The close leaves the RESERVED bit of the state as it found it. *)
Lemma close_state_reserved st :
  FLD64_ISSET (Z.lor st WT_LOG_SLOT_CLOSE) WT_LOG_SLOT_RESERVED =
  FLD64_ISSET st WT_LOG_SLOT_RESERVED.
Proof. fields. f_equal. f_equal. zdm. Qed.

Lemma CLOSED_not_OPEN st :
  WT_LOG_SLOT_CLOSED st = true -> WT_LOG_SLOT_OPEN st = false.
Proof. fields. intros H. apply Z.eqb_neq. zdm. Qed.

(** The log a close leaves when it owns the slot: the slot's end LSN and
    [alloc_lsn] are set, nothing else. *)
Lemma close_owned_log c slot s old_state new_state releasep :
  get_slot (log c) slot = Some s ->
  let end_lsn :=
    LSN.mk (LSN.file (slot_start_lsn s))
      (wrap64 (LSN.offset (slot_start_lsn s)
               + WT_LOG_SLOT_JOINED old_state)) in
  exists r c',
    close_owned c slot old_state new_state releasep = Returned (0, r, c') /\
    log c' =
      set_alloc_lsn end_lsn
        (put_slot slot (set_slot_end_lsn end_lsn s) (log c)).
Proof.
  intros Hs end_lsn. unfold close_owned.
  cbn [stat_incrv_closes set_stats log]. rewrite Hs. fold end_lsn.
  eexists _, _. split; [reflexivity|]. now rewrite log_WT_ASSERT.
Qed.

(** However often the close CAS is lost, as long as the other threads
    neither close nor free the slot, the close ends with the slot CLOSED
    (and not RESERVED), its end LSN computed from the JOINED bytes of the
    state it closed, and [alloc_lsn] moved to that end LSN. *)
Lemma close_retry_closes sched : forall c slot releasep,
  closable slot (log c) ->
  Forall (keeps_closable slot) sched ->
  exists r c' s',
    close_retry sched c slot releasep = Returned (0, r, c') /\
    get_slot (log c') slot = Some s' /\
    WT_LOG_SLOT_CLOSED (slot_state s') = true /\
    FLD64_ISSET (slot_state s') WT_LOG_SLOT_RESERVED = false /\
    alloc_lsn (log c') = slot_end_lsn s' /\
    slot_end_lsn s' =
      LSN.mk (LSN.file (slot_start_lsn s'))
        (wrap64 (LSN.offset (slot_start_lsn s')
                 + WT_LOG_SLOT_JOINED (slot_state s'))).
Proof.
  assert (Hwin : forall c slot releasep s s1 l1,
    get_slot l1 slot = Some s1 ->
    FLD64_ISSET (slot_state s) WT_LOG_SLOT_RESERVED = false ->
    exists r c' s',
      close_owned
        (set_log (put_slot slot
                    (set_slot_state (Z.lor (slot_state s) WT_LOG_SLOT_CLOSE)
                       s1) l1) c)
        slot (slot_state s) (Z.lor (slot_state s) WT_LOG_SLOT_CLOSE)
        releasep = Returned (0, r, c') /\
      get_slot (log c') slot = Some s' /\
      WT_LOG_SLOT_CLOSED (slot_state s') = true /\
      FLD64_ISSET (slot_state s') WT_LOG_SLOT_RESERVED = false /\
      alloc_lsn (log c') = slot_end_lsn s' /\
      slot_end_lsn s' =
        LSN.mk (LSN.file (slot_start_lsn s'))
          (wrap64 (LSN.offset (slot_start_lsn s')
                   + WT_LOG_SLOT_JOINED (slot_state s')))).
  { intros c slot releasep s s1 l1 Hs1 Hres.
    set (new_state := Z.lor (slot_state s) WT_LOG_SLOT_CLOSE).
    set (c1 := set_log _ c).
    assert (Hg : get_slot (log c1) slot = Some (set_slot_state new_state s1))
      by (subst c1; cbn [log set_log]; eapply get_put_same, Hs1).
    destruct (close_owned_log c1 slot _ (slot_state s) new_state releasep Hg)
      as (r & c' & Hret & Hlog).
    destruct (close_state (slot_state s)) as (HJ & _ & Hclosed).
    fold new_state in HJ, Hclosed.
    eexists r, c', _. split; [exact Hret|]. rewrite Hlog.
    split; [cbn [set_alloc_lsn]; eapply get_put_same, Hg|].
    cbn [slot_state slot_end_lsn slot_start_lsn set_slot_end_lsn
         set_slot_state alloc_lsn set_alloc_lsn].
    split; [exact Hclosed|]. split; [|split; [reflexivity|now rewrite HJ]].
    subst new_state. now rewrite close_state_reserved. }
  induction sched as [|env sched IH]; intros c slot releasep
    (s & Hs & Hc & Hr) Hkeep.
  - rewrite (close_retry_wins [] c slot s s releasep Hs Hc Hr Hs eq_refl).
    apply Hwin; assumption.
  - apply Forall_cons in Hkeep as [Henv Hkeep].
    destruct (Henv (log c)) as (s1 & Hs1 & Hc1 & Hr1); [exists s; auto|].
    destruct (Z.eq_dec (slot_state s1) (slot_state s)) as [Heq|Hne].
    + rewrite (close_retry_wins (env :: sched) c slot s s1 releasep
                 Hs Hc Hr Hs1 Heq).
      apply Hwin; assumption.
    + rewrite (close_retry_lost env sched c slot s s1 releasep
                 Hs Hc Hr Hs1 Hne).
      apply IH; [|exact Hkeep]. exists s1. auto.
Qed.

(** X5.  However often [__wt_log_slot_close] loses its CAS, as long as
    the other threads neither close nor free the slot it returns 0 with
    the slot CLOSED, the end LSN at the start LSN plus the JOINED bytes of
    the state it closed, and [alloc_lsn] moved to that end LSN. *)
Theorem close_ends_with_the_slot_closed sched session c slot releasep :
  closable slot (log c) ->
  Forall (keeps_closable slot) sched ->
  exists r c' s',
    __wt_log_slot_close sched session c (Some slot) releasep =
      Returned (0, r, c') /\
    get_slot (log c') slot = Some s' /\
    WT_LOG_SLOT_CLOSED (slot_state s') = true /\
    FLD64_ISSET (slot_state s') WT_LOG_SLOT_RESERVED = false /\
    alloc_lsn (log c') = slot_end_lsn s' /\
    slot_end_lsn s' =
      LSN.mk (LSN.file (slot_start_lsn s'))
        (wrap64 (LSN.offset (slot_start_lsn s')
                 + WT_LOG_SLOT_JOINED (slot_state s'))).
Proof.
  intros Hcl Hkeep. unfold __wt_log_slot_close.
  apply close_retry_closes; [|exact Hkeep].
  now rewrite log_WT_ASSERT.
Qed.

End CloseMore.

(** ** More on new *)

Section NewMore.

Context {hdr : Header} {ext : Collaborators}.

(** The scan finds nothing exactly when no slot is free. *)
Lemma scan_pool_none pool : forall i,
  scan_pool pool i = None <->
  Forall (fun s => slot_state s <> WT_LOG_SLOT_FREE) pool.
Proof.
  induction pool as [|s0 pool IH]; intros i; cbn [scan_pool].
  - split; [constructor|reflexivity].
  - destruct (Z.eqb_spec (slot_state s0) WT_LOG_SLOT_FREE) as [Hfree|Hne].
    + split; [discriminate|]. intros H. apply Forall_cons in H as [H _].
      contradiction.
    + rewrite IH. split; [now constructor|].
      intros H. now apply Forall_cons in H as [_ H].
Qed.

(** The scan returns the first free slot: no slot before it is free. *)
Lemma scan_pool_first pool : forall i slot,
  scan_pool pool i = Some slot ->
  forall j sj, (j < slot - i)%nat -> pool !! j = Some sj ->
    slot_state sj <> WT_LOG_SLOT_FREE.
Proof.
  induction pool as [|s0 pool IH]; intros i slot; cbn [scan_pool];
    [discriminate|].
  destruct (Z.eqb_spec (slot_state s0) WT_LOG_SLOT_FREE) as [Hfree|Hne].
  - intros [= <-] j sj Hj. lia.
  - intros H [|j] sj Hj Hsj.
    + injection Hsj as <-. exact Hne.
    + apply (IH _ _ H j sj); [|exact Hsj].
      destruct (scan_pool_free _ _ _ H) as (Hle & _). lia.
Qed.

Lemma scan_pool_finds pool : forall i k sk,
  pool !! k = Some sk ->
  slot_state sk = WT_LOG_SLOT_FREE ->
  (forall j sj, (j < k)%nat -> pool !! j = Some sj ->
     slot_state sj <> WT_LOG_SLOT_FREE) ->
  scan_pool pool i = Some (i + k)%nat.
Proof.
  induction pool as [|s0 pool IH]; intros i k sk Hk Hfree Hbefore;
    [discriminate|]. cbn [scan_pool].
  destruct k as [|k].
  - injection Hk as ->. rewrite Hfree, Z.eqb_refl. f_equal. lia.
  - destruct (Z.eqb_spec (slot_state s0) WT_LOG_SLOT_FREE) as [H0|_].
    + exfalso. apply (Hbefore 0%nat s0); [lia|reflexivity|exact H0].
    + rewrite (IH (S i) k sk Hk Hfree).
      * f_equal. lia.
      * intros j sj Hj Hsj. apply (Hbefore (S j) sj); [lia|exact Hsj].
Qed.

(** X6.  [__wt_log_slot_new] has nothing to do when the log does not
    consolidate or the active slot is open: it returns 0 without a scan,
    an acquisition or a signal, whatever the pool holds. *)
Theorem new_returns_when_not_needed sched session c :
  F_ISSET (log_flags (log c)) WT_LOG_FORCE_CONSOLIDATE = false \/
  (exists a sa, active_slot (log c) = Some a /\
                get_slot (log c) a = Some sa /\
                WT_LOG_SLOT_OPEN (slot_state sa) = true) ->
  exists c',
    __wt_log_slot_new sched session c = Returned (0, c') /\
    log c' = log c /\ stats c' = stats c /\
    log_wrlsn_cond c' = log_wrlsn_cond c.
Proof.
  intros H. unfold __wt_log_slot_new.
  set (c0 := WT_ASSERT 144 (locked_slot session) c).
  assert (Hlog : log c0 = log c) by (subst c0; apply log_WT_ASSERT).
  assert (Hrest : stats c0 = stats c /\ log_wrlsn_cond c0 = log_wrlsn_cond c)
    by (subst c0; unfold WT_ASSERT; destruct (locked_slot session);
        split; reflexivity).
  exists c0. rewrite Hlog. split; [|tauto].
  destruct (F_ISSET (log_flags (log c)) WT_LOG_FORCE_CONSOLIDATE);
    [|reflexivity].
  destruct H as [|(a & sa & Ha & Hsa & Hopen)]; [discriminate|].
  now rewrite Ha, Hsa, Hopen.
Qed.

(** X7.  [__wt_log_slot_new] promotes the first free slot of the pool: when
    the acquisition for it succeeds, it becomes the active slot, one
    transition is counted, nothing else of the log is written after the
    acquisition, and no signal is sent. *)
Theorem new_promotes_the_first_free_slot sched session c k sk l' :
  needs_new_slot (log c) ->
  get_slot (log c) k = Some sk ->
  slot_state sk = WT_LOG_SLOT_FREE ->
  (forall j sj, (j < k)%nat -> get_slot (log c) j = Some sj ->
     slot_state sj <> WT_LOG_SLOT_FREE) ->
  __wt_log_acquire (log c) (slot_buf_size (log c)) k = (0, l') ->
  exists c',
    __wt_log_slot_new sched session c = Returned (0, c') /\
    log c' = set_active_slot (Some k) l' /\
    active_slot (log c') = Some k /\
    log_slot_transitions (stats c') = log_slot_transitions (stats c) + 1 /\
    log_wrlsn_cond c' = log_wrlsn_cond c.
Proof.
  intros (Hforce & Hopen) Hk Hfree Hbefore Hacq.
  pose proof (scan_pool_finds _ 0 k sk Hk Hfree Hbefore) as Hscan.
  cbn [Nat.add] in Hscan.
  set (c0 := WT_ASSERT 144 (locked_slot session) c).
  assert (Hlog : log c0 = log c) by (subst c0; apply log_WT_ASSERT).
  assert (Hrest : stats c0 = stats c /\ log_wrlsn_cond c0 = log_wrlsn_cond c)
    by (subst c0; unfold WT_ASSERT; destruct (locked_slot session);
        split; reflexivity).
  destruct Hrest as (Hstats & Hcond).
  assert (Hnew : exists c',
            new_retry sched c0 = Returned (0, c') /\
            log c' = set_active_slot (Some k) l' /\
            active_slot (log c') = Some k /\
            log_slot_transitions (stats c')
              = log_slot_transitions (stats c) + 1 /\
            log_wrlsn_cond c' = log_wrlsn_cond c).
  { destruct sched as [|env sched]; cbn [new_retry];
      rewrite Hlog, Hscan, Hacq; cbn [Z.eqb negb];
      eexists; (split; [reflexivity|]);
      cbn [log set_log stats stat_incr_transitions set_stats
           log_slot_transitions log_wrlsn_cond active_slot set_active_slot];
      rewrite Hstats, Hcond; repeat split. }
  destruct Hnew as (c' & Hnew & Hrest). exists c'. split; [|exact Hrest].
  unfold __wt_log_slot_new. fold c0. rewrite Hlog, Hforce. cbn [negb].
  destruct (active_slot (log c)) as [a|]; [|exact Hnew].
  destruct Hopen as (sa & Hsa & Hnopen). now rewrite Hsa, Hnopen.
Qed.

(** With the pool full and no thread freeing a slot, the scan loop never
    ends. *)
Lemma new_retry_spins sched : forall c,
  pool_full (log c) ->
  Forall keeps_pool_full sched ->
  new_retry sched c = Spinning.
Proof.
  induction sched as [|env sched IH]; intros c Hfull Hkeep;
    cbn [new_retry];
    rewrite (proj2 (scan_pool_none (slot_pool (log c)) 0) Hfull);
    [reflexivity|].
  apply Forall_cons in Hkeep as [Henv Hkeep].
  apply IH; [|exact Hkeep]. cbn [log set_log]. now apply Henv.
Qed.

(** X8.  With no free slot in the pool, and no thread freeing one,
    [__wt_log_slot_new] does not return: it scans, signals and yields. *)
Theorem new_waits_while_the_pool_is_full sched session c :
  needs_new_slot (log c) ->
  pool_full (log c) ->
  Forall keeps_pool_full sched ->
  __wt_log_slot_new sched session c = Spinning.
Proof.
  intros (Hforce & Hopen) Hfull Hkeep.
  set (c0 := WT_ASSERT 144 (locked_slot session) c).
  assert (Hlog : log c0 = log c) by (subst c0; apply log_WT_ASSERT).
  assert (Hnew : new_retry sched c0 = Spinning)
    by (apply new_retry_spins; [now rewrite Hlog|exact Hkeep]).
  unfold __wt_log_slot_new. fold c0. rewrite Hlog, Hforce. cbn [negb].
  destruct (active_slot (log c)) as [a|]; [|exact Hnew].
  destruct Hopen as (sa & Hsa & Hnopen). now rewrite Hsa, Hnopen.
Qed.

(** The signals sent to the worker thread only grow. *)
Lemma new_retry_signals_grow sched : forall c ret c',
  new_retry sched c = Returned (ret, c') ->
  (log_wrlsn_cond c <= log_wrlsn_cond c')%nat.
Proof.
  induction sched as [|env sched IH]; intros c ret c'; cbn [new_retry];
    destruct (scan_pool (slot_pool (log c)) 0) as [slot|];
    try discriminate;
    try (destruct (__wt_log_acquire _ _ _) as [r l];
         destruct (negb (r =? 0)); intros [= _ <-]; cbn; lia).
  intros H. apply IH in H. cbn [log_wrlsn_cond set_log] in H. lia.
Qed.

(** X9.  Every pass that finds the pool full sends one signal: if
    [__wt_log_slot_new] found the pool full and yet returns, the worker
    thread was signalled on the way. *)
Theorem new_signals_the_worker_when_the_pool_is_full sched session c ret c' :
  needs_new_slot (log c) ->
  pool_full (log c) ->
  __wt_log_slot_new sched session c = Returned (ret, c') ->
  (log_wrlsn_cond c < log_wrlsn_cond c')%nat.
Proof.
  intros (Hforce & Hopen) Hfull.
  set (c0 := WT_ASSERT 144 (locked_slot session) c).
  assert (Hlog : log c0 = log c) by (subst c0; apply log_WT_ASSERT).
  assert (Hcond : log_wrlsn_cond c0 = log_wrlsn_cond c)
    by (subst c0; unfold WT_ASSERT; now destruct (locked_slot session)).
  assert (Hnew : new_retry sched c0 = Returned (ret, c') ->
                 (log_wrlsn_cond c < log_wrlsn_cond c')%nat).
  { destruct sched as [|env sched]; cbn [new_retry];
      rewrite Hlog, (proj2 (scan_pool_none (slot_pool (log c)) 0) Hfull);
      [discriminate|].
    intros H. apply new_retry_signals_grow in H.
    cbn [log_wrlsn_cond set_log] in H. lia. }
  unfold __wt_log_slot_new. fold c0. rewrite Hlog, Hforce. cbn [negb].
  destruct (active_slot (log c)) as [a|]; [|exact Hnew].
  destruct Hopen as (sa & Hsa & Hnopen). now rewrite Hsa, Hnopen.
Qed.

End NewMore.

(** ** More on switch *)

Section SwitchMore.

Context {hdr : Header} {ext : Collaborators}.

(** "If someone else raced us to closing this specific slot, we're done
    here." *)
Lemma switch_stale sched_close sched_new session c slot :
  slot <> active_slot (log c) ->
  __wt_log_slot_switch sched_close sched_new session c slot =
    Returned (0, WT_ASSERT 107 (locked_slot session) c).
Proof.
  intros Hne. unfold __wt_log_slot_switch. rewrite log_WT_ASSERT.
  now rewrite bool_decide_eq_false_2.
Qed.

(** A free slot has the RESERVED bit; a slot that was just closed has
    not. *)
Lemma FREE_is_reserved :
  FLD64_ISSET WT_LOG_SLOT_FREE WT_LOG_SLOT_RESERVED = true.
Proof. reflexivity. Qed.

(** X10.  A switch that closed the active slot and promoted a new one has moved
    [active_slot] away from the old slot, so a second switch on the old
    slot - the loser of the race for the slot lock - returns 0 and leaves
    the log alone. *)
Theorem switch_twice_switches_once session c slot c' :
  F_ISSET (log_flags (log c)) WT_LOG_FORCE_CONSOLIDATE = true ->
  active_slot (log c) = Some slot ->
  closable slot (log c) ->
  __wt_log_slot_switch [] [] session c (Some slot) = Returned (0, c') ->
  (exists k, active_slot (log c') = Some k /\ k <> slot) /\
  forall sched_close sched_new,
    exists c'',
      __wt_log_slot_switch sched_close sched_new session c' (Some slot) =
        Returned (0, c'') /\
      log c'' = log c'.
Proof.
  intros Hforce Ha (s & Hs & Hc & Hr) Hsw.
  assert (Hk : exists k, active_slot (log c') = Some k /\ k <> slot).
  { unfold __wt_log_slot_switch in Hsw.
    set (c0 := WT_ASSERT 107 (locked_slot session) c) in *.
    assert (Hlog0 : log c0 = log c) by (subst c0; apply log_WT_ASSERT).
    rewrite Hlog0, Ha, bool_decide_eq_true_2 in Hsw by reflexivity.
    cbn [negb] in Hsw. unfold switch_close, __wt_log_slot_close in Hsw.
    set (c00 := WT_ASSERT 46 (locked_slot session) c0) in *.
    assert (Hlog00 : log c00 = log c)
      by (subst c00; now rewrite log_WT_ASSERT).
    rewrite (close_retry_wins [] c00 slot s s (Some 0)) in Hsw
      by (rewrite ?Hlog00; cbn [interfere]; auto).
    rewrite Hlog00 in Hsw. cbn [interfere] in Hsw.
    set (new_state := Z.lor (slot_state s) WT_LOG_SLOT_CLOSE) in *.
    set (c1 := set_log _ c00) in *.
    assert (Hg1 : get_slot (log c1) slot = Some (set_slot_state new_state s))
      by (subst c1; cbn [log set_log]; eapply get_put_same, Hs).
    destruct (close_owned_log c1 slot _ (slot_state s) new_state (Some 0) Hg1)
      as (r & c2 & Hret & Hlog2).
    rewrite Hret in Hsw. cbn [Z.eqb negb] in Hsw.
    assert (Hflags : log_flags (log c2) = log_flags (log c))
      by (rewrite Hlog2; subst c1; reflexivity).
    assert (Hact : active_slot (log c2) = Some slot)
      by (rewrite Hlog2; subst c1; exact Ha).
    set (s2 := set_slot_end_lsn _ (set_slot_state new_state s)) in *.
    assert (Hg2 : get_slot (log c2) slot = Some s2)
      by (rewrite Hlog2; cbn [set_alloc_lsn]; eapply get_put_same, Hg1).
    assert (Hst2 : slot_state s2 = new_state) by reflexivity.
    assert (Hclosed : WT_LOG_SLOT_OPEN (slot_state s2) = false).
    { rewrite Hst2. apply CLOSED_not_OPEN. apply (close_state (slot_state s)). }
    assert (Hc3 : exists c3,
               log c3 = log c2 /\
               (match __wt_log_slot_new [] session c3 with
                | Returned (ret, c) =>
                    if negb (ret =? 0) then Returned (ret, c)
                    else Returned (0, c)
                | BadPointer => BadPointer
                | Spinning => Spinning
                end) = Returned (0, c')).
    { destruct HAVE_DIAGNOSTIC.
      - cbn [mbind option_bind] in Hsw. rewrite log_WT_ASSERT, Hg2 in Hsw.
        cbn [Z.eqb negb] in Hsw. eexists. split; [|exact Hsw].
        now rewrite !log_WT_ASSERT.
      - cbn [Z.eqb negb] in Hsw. eexists. split; [|exact Hsw].
        now rewrite log_WT_ASSERT. }
    clear Hsw. destruct Hc3 as (c3 & Hlog3 & Hsw).
    unfold __wt_log_slot_new in Hsw.
    set (c4 := WT_ASSERT 144 (locked_slot session) c3) in *.
    assert (Hlog4 : log c4 = log c2)
      by (subst c4; now rewrite log_WT_ASSERT).
    rewrite Hlog4, Hflags, Hforce, Hact, Hg2, Hclosed in Hsw.
    cbn [negb new_retry] in Hsw. rewrite Hlog4 in Hsw.
    destruct (scan_pool (slot_pool (log c2)) 0) as [k|] eqn:Hscan;
      [|discriminate].
    destruct (__wt_log_acquire _ _ _) as [ret l'].
    destruct (Z.eqb_spec ret 0) as [->|Hne]; cbn [negb Z.eqb] in Hsw.
    - injection Hsw as <-. exists k. split; [reflexivity|].
      intros ->. destruct (scan_pool_free _ _ _ Hscan) as (_ & sk & Hsk & Hfree).
      rewrite Nat.sub_0_r in Hsk. fold (get_slot (log c2) slot) in Hsk.
      rewrite Hg2 in Hsk. injection Hsk as <-.
      pose proof FREE_is_reserved as Hres. rewrite <- Hfree, Hst2 in Hres.
      subst new_state. rewrite close_state_reserved in Hres. congruence.
    - destruct (ret =? 0) eqn:E; [apply Z.eqb_eq in E; contradiction|].
      cbn [negb] in Hsw. injection Hsw as -> _. contradiction. }
  split; [exact Hk|]. destruct Hk as (k & Hk & Hne).
  intros sched_close sched_new. eexists. split.
  - apply switch_stale. rewrite Hk. congruence.
  - apply log_WT_ASSERT.
Qed.

End SwitchMore.

(** ** Free *)

Section Free.

Context {hdr : Header} {ext : Collaborators}.

(** X11.  [__wt_log_slot_free] resets the flags and the error of the slot and
    stores WT_LOG_SLOT_FREE; the buffer, the LSNs and every other slot
    stay.  The next scan of the pool finds a free slot, the freed one or
    one before it. *)
Theorem free_puts_the_slot_back l slot s :
  get_slot l slot = Some s ->
  exists l' s',
    __wt_log_slot_free l slot = Returned (0, l') /\
    get_slot l' slot = Some s' /\
    slot_state s' = WT_LOG_SLOT_FREE /\
    slot_error s' = 0 /\
    flags s' = WT_SLOT_INIT_FLAGS /\
    slot_buf s' = slot_buf s /\
    slot_release_lsn s' = slot_release_lsn s /\
    (forall k, k <> slot -> get_slot l' k = get_slot l k) /\
    active_slot l' = active_slot l /\ alloc_lsn l' = alloc_lsn l /\
    exists k, scan_pool (slot_pool l') 0 = Some k /\ (k <= slot)%nat.
Proof.
  intros Hs. unfold __wt_log_slot_free. rewrite Hs.
  eexists _, _. split; [reflexivity|].
  split; [eapply get_put_same, Hs|].
  cbn [slot_state slot_error flags slot_buf slot_release_lsn
       set_slot_state set_slot_error set_flags].
  do 5 (split; [reflexivity|]).
  split; [intros k Hk; now apply get_put_other|].
  split; [reflexivity|]. split; [reflexivity|].
  set (l' := put_slot slot _ l).
  assert (Hg : get_slot l' slot = Some
            (set_slot_state WT_LOG_SLOT_FREE
               (set_slot_error 0 (set_flags WT_SLOT_INIT_FLAGS s))))
    by (subst l'; eapply get_put_same, Hs).
  destruct (scan_pool (slot_pool l') 0) as [k|] eqn:Hscan.
  - exists k. split; [reflexivity|].
    destruct (Nat.le_gt_cases k slot) as [|Hgt]; [assumption|].
    exfalso.
    apply (scan_pool_first _ _ _ Hscan slot _ ltac:(lia) Hg). reflexivity.
  - exfalso. apply scan_pool_none in Hscan.
    eapply Forall_lookup_1 in Hscan; [|exact Hg]. now apply Hscan.
Qed.

End Free.

(** ** More on release; the life of a slot *)

Section Lifecycle.

Context {hdr : Header} {ext : Collaborators}.

(** X12.  Whatever the other threads do to [slot_last_offset] while the release
    tries to raise it, a release that returns leaves it at or above the
    start of the caller's bytes, and returns the state word it stored. *)
Theorem release_reaches_my_start_under_races sched l myslot size v l' :
  __wt_log_slot_release sched l myslot size = Returned (v, l') ->
  exists slot s s',
    MYSLOT.slot myslot = Some slot /\
    get_slot l slot = Some s /\
    get_slot l' slot = Some s' /\
    wrap64 (slot_start_offset s + MYSLOT.offset myslot)
      <= slot_last_offset s' /\
    slot_state s' = v.
Proof.
  unfold __wt_log_slot_release.
  destruct (MYSLOT.slot myslot) as [slot|]; [|discriminate].
  destruct (get_slot l slot) as [s|] eqn:Hs; [|discriminate].
  destruct (release_raise sched l slot _) as [l1| |] eqn:Hraise;
    try discriminate.
  destruct (release_raise_reaches _ _ _ _ _ Hraise) as (s1 & Hs1 & Hle).
  rewrite Hs1. intros [= <- <-].
  exists slot, s. eexists. split; [reflexivity|]. split; [exact Hs|].
  split; [eapply get_put_same, Hs1|]. split; [exact Hle|reflexivity].
Qed.

Lemma RESERVED_FLAGS a b :
  WT_LOG_SLOT_FLAGS a = WT_LOG_SLOT_FLAGS b ->
  FLD64_ISSET a WT_LOG_SLOT_RESERVED = FLD64_ISSET b WT_LOG_SLOT_RESERVED.
Proof. fields. intros H. f_equal. f_equal. zdm. Qed.

(** Activation, with the slot it leaves. *)
Lemma activate_returns l slot s :
  get_slot l slot = Some s ->
  exists l' s',
    __wt_log_slot_activate l slot = Returned l' /\
    get_slot l' slot = Some s' /\
    slot_state s' = 0 /\
    slot_start_lsn s' = alloc_lsn l /\
    active_slot l' = active_slot l.
Proof.
  intros Hs. unfold __wt_log_slot_activate. rewrite Hs.
  eexists _, _. split; [reflexivity|].
  split; [eapply get_put_same, Hs|]. repeat split.
Qed.

(** The word arithmetic of one join and its release on a fresh slot. *)
Lemma fresh_slot_words m :
  0 <= m < 2 ^ JOINED_BITS ->
  let st := join_new_state 0 m in
  let v := __wt_atomic_addiv64 st (WT_LOG_SLOT_JOIN_REL 0 m 0) in
  wrap32 (WT_LOG_SLOT_JOINED 0) = 0 /\
  wrap64 (u64 (u64 (wrap32 (WT_LOG_SLOT_JOINED 0)) + m)) = m /\
  WT_LOG_SLOT_JOINED v = m /\ WT_LOG_SLOT_RELEASED v = m /\
  WT_LOG_SLOT_CLOSED v = false /\
  FLD64_ISSET v WT_LOG_SLOT_RESERVED = false.
Proof.
  intros Hm st v.
  assert (H0 : int64_range 0) by (unfold int64_range; lia).
  assert (Hfit : WT_LOG_SLOT_JOINED 0 + m < 2 ^ JOINED_BITS)
    by (change (WT_LOG_SLOT_JOINED 0) with 0; lia).
  destruct (join_new_state_fit 0 m (proj1 Hm) Hfit) as (_ & Hoff & Hend).
  destruct (join_state 0 m H0 (proj1 Hm) Hfit) as (_ & HJ & HR & HF & Hrange).
  fold st in HJ, HR, HF, Hrange.
  change (WT_LOG_SLOT_JOINED 0) with 0 in HJ.
  change (WT_LOG_SLOT_RELEASED 0) with 0 in HR.
  assert (Hrfit : 0 <= WT_LOG_SLOT_RELEASED st + m < 2 ^ RELEASED_BITS)
    by (rewrite HR; unfold RELEASED_BITS, JOINED_BITS in *; lia).
  destruct (release_state st m Hrange Hrfit) as (_ & HR' & HJ' & HF' & _).
  fold v in HR', HJ', HF'.
  split; [exact Hoff|]. split; [exact Hend|].
  split; [rewrite HJ', HJ; lia|]. split; [rewrite HR', HR; lia|].
  assert (HF0 : WT_LOG_SLOT_FLAGS v = WT_LOG_SLOT_FLAGS 0) by congruence.
  split; [now rewrite (CLOSED_FLAGS v 0 HF0)|].
  now rewrite (RESERVED_FLAGS v 0 HF0).
Qed.

(** X13.  The life of a slot with one writer: activation, a join of [mysize]
    bytes, the release of those bytes, the close.  The join gets
    [0, mysize); the release does not find the slot DONE (it is not
    closed yet); the close does, so it tells its caller to release the
    slot now, and it moves [alloc_lsn] forward by [mysize]. *)
Theorem activate_join_release_close
    session session' c slot s0 mysize flags_arg myslotp d :
  active_slot (log c) = Some slot ->
  get_slot (log c) slot = Some s0 ->
  0 <= mysize < 2 ^ JOINED_BITS ->
  int64_range (LSN.offset (alloc_lsn (log c)) + mysize) ->
  exists l1 c2 myslot v l3 c4,
    __wt_log_slot_activate (log c) slot = Returned l1 /\
    __wt_log_slot_join [] session (set_log l1 c) mysize flags_arg myslotp =
      Returned (0, myslot, c2) /\
    myslot = MYSLOT.mk (Some slot) 0 mysize /\
    __wt_log_slot_release [] (log c2) myslot mysize = Returned (v, l3) /\
    WT_LOG_SLOT_DONE v = false /\
    __wt_log_slot_close [] session' (set_log l3 c2) (Some slot) (Some d) =
      Returned (0, Some 1, c4) /\
    alloc_lsn (log c4) =
      LSN.mk (LSN.file (alloc_lsn (log c)))
        (LSN.offset (alloc_lsn (log c)) + mysize).
Proof.
  intros Ha Hs0 Hm Hrange.
  destruct (fresh_slot_words mysize Hm)
    as (Hoff & Hend & HJ & HR & Hclosed & Hres).
  cbv zeta in HJ, HR, Hclosed, Hres.
  remember (join_new_state 0 mysize) as st eqn:Hst.
  remember (__wt_atomic_addiv64 st (WT_LOG_SLOT_JOIN_REL 0 mysize 0))
    as v eqn:Hv.
  (* activation *)
  destruct (activate_returns (log c) slot s0 Hs0)
    as (l1 & S0 & Hact & Hg1 & Hst0 & Hstart0 & Ha1).
  rewrite Ha in Ha1.
  assert (Hopen0 : WT_LOG_SLOT_OPEN (slot_state S0) = true)
    by (rewrite Hst0; reflexivity).
  (* join *)
  destruct (join_first_attempt [] session (set_log l1 c) slot S0 S0 mysize
              flags_arg myslotp Ha1 Hg1 Hopen0 Hg1 eq_refl)
    as (c2 & s2' & Hjoin & _).
  destruct (join_first_attempt_slot [] session (set_log l1 c) slot S0 S0
              mysize flags_arg myslotp Ha1 Hg1 Hopen0 Hg1 eq_refl)
    as (c2' & ms & Hjoin' & _ & _ & Hg2 & _).
  assert (c2' = c2) as -> by congruence. clear Hjoin' s2'.
  rewrite Hst0 in Hjoin, Hg2. rewrite <- Hst in Hg2.
  rewrite Hend, Hoff in Hjoin.
  remember (set_flags _ (set_slot_state st S0)) as s2 eqn:Hs2.
  assert (Hst2 : slot_state s2 = st) by (rewrite Hs2; reflexivity).
  assert (Hstart2 : slot_start_lsn s2 = alloc_lsn (log c))
    by (rewrite Hs2; exact Hstart0).
  clear Hs2.
  (* release *)
  pose proof (release_alone (log c2) (MYSLOT.mk (Some slot) 0 mysize)
                mysize slot s2 eq_refl Hg2) as Hrel.
  cbv zeta in Hrel. rewrite Hst2, <- Hv in Hrel.
  remember (set_slot_state v (set_slot_last_offset _ s2)) as s3 eqn:Hs3.
  assert (Hst3 : slot_state s3 = v) by (rewrite Hs3; reflexivity).
  assert (Hstart3 : slot_start_lsn s3 = alloc_lsn (log c))
    by (rewrite Hs3; exact Hstart2).
  clear Hs3.
  remember (put_slot slot s3 (log c2)) as l3 eqn:Hl3.
  assert (Hg3 : get_slot l3 slot = Some s3)
    by (rewrite Hl3; eapply get_put_same, Hg2).
  clear Hl3.
  (* close *)
  rewrite <- Hst3 in Hclosed, Hres.
  destruct (close_first_attempt [] session' (set_log l3 c2) slot s3 s3
              (Some d) Hg3 Hclosed Hres Hg3 eq_refl)
    as (c4 & Hclose & _ & Halloc & _).
  rewrite Hst3 in Hclose, Halloc, Hclosed. rewrite Hstart3 in Halloc.
  destruct (close_state v) as (HJc & HRc & Hcc).
  assert (Hdone : WT_LOG_SLOT_DONE (Z.lor v WT_LOG_SLOT_CLOSE) = true).
  { unfold WT_LOG_SLOT_DONE, WT_LOG_SLOT_INPROGRESS.
    rewrite Hcc, HJc, HRc, HJ, HR, Z.eqb_refl. reflexivity. }
  rewrite Hdone in Hclose. rewrite HJ, (wrap64_id _ Hrange) in Halloc.
  clear Hst Hv.
  exists l1, c2, (MYSLOT.mk (Some slot) 0 mysize), v, l3, c4.
  repeat split; try assumption.
  unfold WT_LOG_SLOT_DONE. now rewrite Hclosed.
Qed.

End Lifecycle.

(** ** More on destroy *)

Section DestroyMore.

Context {hdr : Header} {ext : Collaborators}.

Lemma set_slot_pool_same l : set_slot_pool (slot_pool l) l = l.
Proof. now destruct l. Qed.

Lemma set_slot_pool_twice p q l :
  set_slot_pool p (set_slot_pool q l) = set_slot_pool p l.
Proof. reflexivity. Qed.

(** One slot of the loop, when there is nothing to write or the write
    succeeds: the buffer is freed, the rest of the log stays. *)
Lemma destroy_slot_frees c i slot :
  get_slot (log c) i = Some slot ->
  no_residual slot \/ write_succeeds slot ->
  exists c',
    destroy_slot c i = Returned (0, c') /\
    log c' = put_slot i (freed slot) (log c) /\
    (no_residual slot -> files c' = files c).
Proof.
  intros Hs Hok. unfold destroy_slot. rewrite Hs.
  destruct (FLD64_ISSET (slot_state slot) WT_LOG_SLOT_RESERVED) eqn:Hres;
    cbn [negb].
  { eexists. split; [reflexivity|]. split; reflexivity. }
  set (size := u64 (WT_LOG_SLOT_RELEASED (slot_state slot)
                    - slot_unbuffered slot)) in *.
  destruct (Z.eqb_spec size 0) as [Hz|Hnz]; cbn [negb].
  { eexists. split; [reflexivity|]. split; reflexivity. }
  destruct Hok as [[Hr|Hz]|Hw];
    [rewrite Hres in Hr; discriminate|contradiction|].
  specialize (Hw (files c)). fold size in Hw.
  destruct (__wt_write (files c) _ _ size _) as [ret fs]. cbn [fst] in Hw.
  subst ret. cbn [Z.eqb negb].
  eexists. split; [reflexivity|]. split; [reflexivity|].
  intros [Hr|Hz]; [rewrite Hres in Hr; discriminate|contradiction].
Qed.

Lemma destroy_loop_frees n : forall i c,
  (i + n)%nat = length (slot_pool (log c)) ->
  (forall k slot, (i <= k)%nat -> get_slot (log c) k = Some slot ->
     no_residual slot \/ write_succeeds slot) ->
  exists c',
    destroy_loop n i c = Returned (0, c') /\
    set_slot_pool (slot_pool (log c)) (log c') = log c /\
    (forall k, get_slot (log c') k =
       if (k <? i)%nat then get_slot (log c) k
       else freed <$> get_slot (log c) k) /\
    ((forall k slot, (i <= k)%nat -> get_slot (log c) k = Some slot ->
        no_residual slot) -> files c' = files c).
Proof.
  induction n as [|n IH]; intros i c Hlen Hok; cbn [destroy_loop].
  - exists c. split; [reflexivity|]. split; [apply set_slot_pool_same|].
    split; [|reflexivity]. intros k.
    destruct (Nat.ltb_spec k i) as [|Hge]; [reflexivity|].
    unfold get_slot. rewrite lookup_ge_None_2 by lia. reflexivity.
  - destruct (lookup_lt_is_Some_2 (slot_pool (log c)) i) as [slot Hs];
      [lia|]. fold (get_slot (log c) i) in Hs.
    destruct (destroy_slot_frees c i slot Hs (Hok i slot (Nat.le_refl i) Hs))
      as (c1 & Hret & Hlog1 & Hfiles1).
    rewrite Hret. cbn [Z.eqb negb].
    destruct (IH (S i) c1) as (c' & Hloop & Hframe & Hlook & Hfiles).
    { rewrite Hlog1. unfold put_slot. cbn [slot_pool set_slot_pool].
      rewrite length_insert. lia. }
    { intros k sk Hk Hsk. rewrite Hlog1, get_put_other in Hsk by lia.
      apply (Hok k sk); [lia|exact Hsk]. }
    exists c'. split; [exact Hloop|]. split.
    { rewrite Hlog1 in Hframe.
      apply (f_equal (set_slot_pool (slot_pool (log c)))) in Hframe.
      unfold put_slot in Hframe.
      now rewrite !set_slot_pool_twice, set_slot_pool_same in Hframe. }
    split.
    { intros k. rewrite Hlook, Hlog1.
      destruct (Nat.ltb_spec k (S i)) as [Hlt|Hge];
        destruct (Nat.ltb_spec k i) as [Hlt'|Hge']; try lia.
      - apply get_put_other. lia.
      - assert (k = i) as -> by lia.
        rewrite (get_put_same _ _ _ _ Hs), Hs. reflexivity.
      - rewrite get_put_other by lia. reflexivity. }
    intros Hnone. rewrite Hfiles.
    { apply Hfiles1. apply (Hnone i slot (Nat.le_refl i) Hs). }
    intros k sk Hk Hsk. rewrite Hlog1, get_put_other in Hsk by lia.
    apply (Hnone k sk); [lia|exact Hsk].
Qed.

(** X14.  When no write fails, [__wt_log_slot_destroy] returns 0 and has freed
    the buffer of every slot; it changes nothing else in the log. *)
Theorem destroy_frees_every_buffer c :
  Forall (fun slot => no_residual slot \/ write_succeeds slot)
    (slot_pool (log c)) ->
  exists c',
    __wt_log_slot_destroy c = Returned (0, c') /\
    log c' = set_slot_pool (freed <$> slot_pool (log c)) (log c) /\
    Forall (fun slot => slot_buf slot = None) (slot_pool (log c')).
Proof.
  intros Hok. unfold __wt_log_slot_destroy.
  destruct (destroy_loop_frees (length (slot_pool (log c))) 0 c)
    as (c' & Hret & Hframe & Hlook & _); [reflexivity| |].
  { intros k slot _ Hs. eapply Forall_lookup_1 in Hok; [exact Hok|exact Hs]. }
  assert (Hpool : slot_pool (log c') = freed <$> slot_pool (log c)).
  { apply list_eq. intros k. rewrite list_lookup_fmap.
    apply (Hlook k). }
  exists c'. split; [exact Hret|]. split.
  - transitivity (set_slot_pool (freed <$> slot_pool (log c))
                    (set_slot_pool (slot_pool (log c)) (log c')));
      [|now rewrite Hframe].
    rewrite set_slot_pool_twice, <- Hpool. symmetry.
    apply set_slot_pool_same.
  - rewrite Hpool. apply Forall_fmap, Forall_true. reflexivity.
Qed.

(** X15.  A pool without residual bytes - every slot RESERVED (free), or with
    nothing buffered that was released - is destroyed without any I/O:
    [__wt_write] is not called, so it cannot fail, and every buffer is
    freed. *)
Theorem destroy_without_residual_writes_nothing c :
  Forall no_residual (slot_pool (log c)) ->
  exists c',
    __wt_log_slot_destroy c = Returned (0, c') /\
    files c' = files c /\
    log c' = set_slot_pool (freed <$> slot_pool (log c)) (log c).
Proof.
  intros Hok. unfold __wt_log_slot_destroy.
  destruct (destroy_loop_frees (length (slot_pool (log c))) 0 c)
    as (c' & Hret & Hframe & Hlook & Hfiles); [reflexivity| |].
  { intros k slot _ Hs. left.
    eapply Forall_lookup_1 in Hok; [exact Hok|exact Hs]. }
  assert (Hpool : slot_pool (log c') = freed <$> slot_pool (log c)).
  { apply list_eq. intros k. rewrite list_lookup_fmap.
    apply (Hlook k). }
  exists c'. split; [exact Hret|]. split.
  - apply Hfiles. intros k slot _ Hs.
    eapply Forall_lookup_1 in Hok; [exact Hok|exact Hs].
  - transitivity (set_slot_pool (freed <$> slot_pool (log c))
                    (set_slot_pool (slot_pool (log c)) (log c')));
      [|now rewrite Hframe].
    rewrite set_slot_pool_twice, <- Hpool. symmetry.
    apply set_slot_pool_same.
Qed.

End DestroyMore.

(** ** Init *)

Section Init.

Context {hdr : Header} {ext : Collaborators}.

Lemma map_fmap {A B} (f : A -> B) (l : list A) : map f l = f <$> l.
Proof. induction l as [|x l IH]; [reflexivity|]. cbn. now rewrite IH. Qed.

(** The allocation loop either gives every slot its buffer and the
    initial flags, or stops at the first slot whose allocation fails and
    frees the buffers it had allocated. *)
Lemma init_bufs_spec size : forall todo done ret pool',
  init_bufs size done todo = (ret, pool') ->
  (ret = 0 /\ pool' = done ++ (with_buffer size <$> todo)) \/
  (ret <> 0 /\
   exists pre s post,
     todo = pre ++ s :: post /\
     fst (__wt_buf_init (slot_buf s) size) = ret /\
     pool' = (freed <$> (done ++ (with_buffer size <$> pre)))
             ++ set_slot_buf (snd (__wt_buf_init (slot_buf s) size)) s
             :: post).
Proof.
  induction todo as [|s todo IH]; intros done ret pool'; cbn [init_bufs].
  - intros [= <- <-]. left. split; [reflexivity|]. now rewrite app_nil_r.
  - destruct (__wt_buf_init (slot_buf s) size) as [r buf] eqn:Hinit.
    destruct (Z.eqb_spec r 0) as [->|Hne]; cbn [negb].
    + intros H. apply IH in H.
      assert (Hw : set_flags (F_SET (flags (set_slot_buf buf s))
                                WT_SLOT_INIT_FLAGS) (set_slot_buf buf s)
                   = with_buffer size s)
        by (unfold with_buffer; rewrite Hinit; reflexivity).
      rewrite Hw in H.
      destruct H as [(-> & ->)|(Hne & pre & x & post & -> & Hx & ->)].
      * left. split; [reflexivity|]. now rewrite <- app_assoc.
      * right. split; [exact Hne|]. exists (s :: pre), x, post.
        split; [reflexivity|]. split; [exact Hx|].
        now rewrite <- app_assoc.
    + intros [= <- <-]. right. split; [exact Hne|].
      exists [], s, todo. rewrite Hinit. cbn [fst snd fmap list_fmap].
      rewrite app_nil_r, map_fmap. repeat split.
Qed.

(** X16.  A successful [__wt_log_slot_init]: slot 0 is active and open with
    empty counters, and starts and releases at [alloc_lsn]; every other
    slot is free; every slot has its buffer of the computed size and the
    initial flags; the log consolidates from now on. *)
Theorem init_activates_slot_zero c c' :
  __wt_log_slot_init c = Returned (0, c') ->
  active_slot (log c') = Some 0%nat /\
  slot_buf_size (log c') = init_buf_size c /\
  Z.land (log_flags (log c')) WT_LOG_FORCE_CONSOLIDATE
    = WT_LOG_FORCE_CONSOLIDATE /\
  alloc_lsn (log c') = alloc_lsn (log c) /\
  length (slot_pool (log c')) = length (slot_pool (log c)) /\
  (exists s0, get_slot (log c') 0 = Some s0 /\
     slot_state s0 = 0 /\
     slot_release_lsn s0 = alloc_lsn (log c) /\
     slot_start_lsn s0 = alloc_lsn (log c) /\
     slot_end_lsn s0 = alloc_lsn (log c)) /\
  (forall k sk', k <> 0%nat -> get_slot (log c') k = Some sk' ->
     slot_state sk' = WT_LOG_SLOT_FREE) /\
  (forall k sk', get_slot (log c') k = Some sk' ->
     Z.land (flags sk') WT_SLOT_INIT_FLAGS = WT_SLOT_INIT_FLAGS /\
     exists sk, get_slot (log c) k = Some sk /\
       slot_buf sk' = snd (__wt_buf_init (slot_buf sk) (init_buf_size c))).
Proof.
  unfold __wt_log_slot_init.
  fold (init_buf_size c).
  cbn [slot_buf_size set_slot_buf_size slot_pool set_slot_pool].
  set (size := init_buf_size c).
  set (P1 := map (set_slot_state WT_LOG_SLOT_FREE) (slot_pool (log c))).
  destruct (init_bufs size [] P1) as [ret pool] eqn:Hbufs.
  apply init_bufs_spec in Hbufs.
  destruct (Z.eqb_spec ret 0) as [->|Hne]; cbn [negb];
    [|intros [= E _]; contradiction].
  destruct Hbufs as [(_ & ->)|(Hne & _)]; [|contradiction].
  cbn [app]. subst P1.
  rewrite (map_fmap (set_slot_state WT_LOG_SLOT_FREE) (slot_pool (log c))).
  rewrite <- list_fmap_compose.
  set (pool := _ <$> slot_pool (log c)).
  assert (Hlook : forall k, pool !! k =
            (fun s => with_buffer size (set_slot_state WT_LOG_SLOT_FREE s))
              <$> slot_pool (log c) !! k)
    by (intros k; subst pool; apply list_lookup_fmap).
  unfold get_slot at 1.
  cbn [slot_pool set_slot_pool set_log_flags set_slot_buf_size].
  destruct (pool !! 0%nat) as [s0|] eqn:Hs0; [|discriminate].
  unfold __wt_log_slot_activate, get_slot, put_slot.
  cbn [slot_pool set_slot_pool set_log_flags set_slot_buf_size alloc_lsn
       log_fh].
  rewrite list_lookup_insert_eq by (eapply lookup_lt_Some, Hs0).
  rewrite list_insert_insert_eq.
  intros [= <-].
  cbn [log set_log active_slot set_active_slot slot_buf_size log_flags
       alloc_lsn slot_pool set_slot_pool].
  split; [reflexivity|]. split; [reflexivity|].
  split; [apply land_lor_same|]. split; [reflexivity|].
  split; [rewrite length_insert; subst pool; apply length_fmap|].
  split.
  { eexists. split; [apply list_lookup_insert_eq; eapply lookup_lt_Some, Hs0|].
    repeat split. }
  split.
  { intros k sk' Hk. rewrite list_lookup_insert_ne by congruence.
    rewrite Hlook. destruct (slot_pool (log c) !! k); [|discriminate].
    intros [= <-]. reflexivity. }
  intros k sk' Hsk.
  assert (Hbase : exists sk, slot_pool (log c) !! k = Some sk /\
                    flags sk' = F_SET (flags sk) WT_SLOT_INIT_FLAGS /\
                    slot_buf sk' = snd (__wt_buf_init (slot_buf sk) size)).
  { destruct (Nat.eq_dec k 0%nat) as [->|Hk].
    - rewrite list_lookup_insert_eq in Hsk by (eapply lookup_lt_Some, Hs0).
      injection Hsk as <-. rewrite Hlook in Hs0.
      destruct (slot_pool (log c) !! 0%nat) as [sk|]; [|discriminate].
      injection Hs0 as <-. exists sk. repeat split.
    - rewrite list_lookup_insert_ne, Hlook in Hsk by congruence.
      destruct (slot_pool (log c) !! k) as [sk|]; [|discriminate].
      injection Hsk as <-. exists sk. repeat split. }
  destruct Hbase as (sk & Hsk0 & Hflags & Hbuf).
  split; [rewrite Hflags; apply land_lor_same|].
  exists sk. split; assumption.
Qed.

(** X17.  A failed [__wt_log_slot_init] returns the allocator's error; the
    buffers allocated before the failure are freed again, every slot is
    left free, no slot is made active and the log is not switched to
    consolidation. *)
Theorem init_failure_frees_the_buffers c ret c' :
  __wt_log_slot_init c = Returned (ret, c') ->
  ret <> 0 ->
  active_slot (log c') = active_slot (log c) /\
  log_flags (log c') = log_flags (log c) /\
  stats c' = stats c /\
  Forall (fun s => slot_state s = WT_LOG_SLOT_FREE) (slot_pool (log c')) /\
  exists i si,
    get_slot (log c) i = Some si /\
    fst (__wt_buf_init (slot_buf si) (init_buf_size c)) = ret /\
    forall k sk', (k < i)%nat -> get_slot (log c') k = Some sk' ->
      slot_buf sk' = None.
Proof.
  unfold __wt_log_slot_init.
  fold (init_buf_size c).
  cbn [slot_buf_size set_slot_buf_size slot_pool set_slot_pool].
  set (size := init_buf_size c).
  set (P1 := map (set_slot_state WT_LOG_SLOT_FREE) (slot_pool (log c))).
  destruct (init_bufs size [] P1) as [r pool] eqn:Hbufs.
  apply init_bufs_spec in Hbufs.
  destruct (Z.eqb_spec r 0) as [->|Hne]; cbn [negb].
  { destruct (get_slot _ 0) as [s0|]; [|discriminate].
    destruct (__wt_log_slot_activate _ _); try discriminate.
    intros [= <- _] H. contradiction. }
  intros [= <- <-] _.
  destruct Hbufs as [(E & _)|(_ & pre & x & post & HP1 & Hx & ->)];
    [contradiction|].
  cbn [log set_log active_slot log_flags stats slot_pool set_slot_pool
       set_slot_buf_size app].
  do 3 (split; [reflexivity|]).
  assert (Hfree : Forall (fun s => slot_state s = WT_LOG_SLOT_FREE) P1).
  { subst P1. rewrite map_fmap. apply Forall_fmap, Forall_true. reflexivity. }
  rewrite HP1 in Hfree. apply Forall_app in Hfree as [Hpre Hpost].
  apply Forall_cons in Hpost as [Hx0 Hpost].
  split.
  { apply Forall_app. split.
    - apply Forall_fmap, Forall_fmap. eapply Forall_impl; [exact Hpre|].
      intros s Hs. exact Hs.
    - constructor; [exact Hx0|exact Hpost]. }
  assert (Hlen : forall k, P1 !! k = set_slot_state WT_LOG_SLOT_FREE
                              <$> slot_pool (log c) !! k)
    by (intros k; subst P1; rewrite map_fmap; apply list_lookup_fmap).
  pose proof (Hlen (length pre)) as Hi. rewrite HP1 in Hi.
  rewrite list_lookup_middle in Hi by reflexivity.
  destruct (slot_pool (log c) !! length pre) as [si|] eqn:Hsi;
    [|discriminate].
  injection Hi as ->.
  exists (length pre), si. split; [exact Hsi|]. split; [exact Hx|].
  intros k sk' Hk Hsk. unfold get_slot in Hsk.
  cbn [slot_pool set_slot_pool] in Hsk.
  rewrite lookup_app_l in Hsk by (rewrite !length_fmap; exact Hk).
  rewrite list_lookup_fmap in Hsk.
  destruct ((with_buffer size <$> pre) !! k); [|discriminate].
  injection Hsk as <-. reflexivity.
Qed.

End Init.

(** ** Joins that lose races *)

Section JoinRaces.

Context {hdr : Header} {ext : Collaborators}.

Lemma log_after_nil l : log_after [] l = l.
Proof. reflexivity. Qed.

Lemma log_after_cons (env : interference) sched l :
  log_after (env :: sched) l = log_after sched (env l).
Proof. reflexivity. Qed.

(** Whatever the other threads do: when the loop of the join leaves, it
    has lost [k] attempts, each counted in [log_slot_races], and won the
    next.  At that attempt it loaded the state word of the slot active
    then and found it OPEN, the word was still the same at the CAS, and
    the CAS stored the new state computed from it. *)
Lemma join_retry_returns sched : forall c mysize slot off c',
  join_retry sched c mysize = Returned (slot, off, c') ->
  exists (k : nat) s s_w,
    (k <= length sched)%nat /\
    active_slot (log_after (take k sched) (log c)) = Some slot /\
    get_slot (log_after (take k sched) (log c)) slot = Some s /\
    WT_LOG_SLOT_OPEN (slot_state s) = true /\
    get_slot (log_after (take (S k) sched) (log c)) slot = Some s_w /\
    slot_state s_w = slot_state s /\
    off = wrap32 (WT_LOG_SLOT_JOINED (slot_state s)) /\
    log c' =
      put_slot slot
        (set_slot_state (join_new_state (slot_state s) mysize) s_w)
        (log_after (take (S k) sched) (log c)) /\
    log_slot_races (stats c') = log_slot_races (stats c) + Z.of_nat k /\
    log_slot_joins (stats c') = log_slot_joins (stats c) /\
    failed_asserts c' = failed_asserts c.
Proof.
  induction sched as [|env sched IH]; intros c mysize slot off c' H;
    cbn [join_retry] in H;
    destruct (active_slot (log c)) as [a|] eqn:Ha; try discriminate;
    destruct (get_slot (log c) a) as [s|] eqn:Hs; try discriminate;
    destruct (WT_LOG_SLOT_OPEN (slot_state s)) eqn:Hopen;
    cbn [log set_log interfere] in H; try discriminate.
  - unfold cas_slot_state in H. rewrite Hs in H.
    unfold __wt_atomic_casiv64 in H. rewrite Z.eqb_refl in H.
    injection H as <- <- <-.
    exists 0%nat, s, s. cbn [take log_after length log set_log stats
                             failed_asserts].
    unfold join_new_state.
    repeat split; try assumption; try reflexivity; lia.
  - unfold cas_slot_state in H.
    destruct (get_slot (env (log c)) a) as [s1|] eqn:Hs1; [|discriminate].
    unfold __wt_atomic_casiv64 in H.
    destruct (Z.eqb_spec (slot_state s1) (slot_state s)) as [Heq|Hne].
    + injection H as <- <- <-.
      exists 0%nat, s, s1. cbn [take log_after length log set_log stats
                                failed_asserts].
      unfold join_new_state.
      repeat split; try assumption; try reflexivity; lia.
    + apply IH in H.
      destruct H as (k & s' & s_w & Hk & Ha' & Hs' & Hopen' & Hw & Hst & Hoff
                     & Hlog & Hraces & Hjoins & Hfa).
      cbn [log set_log stat_incr_races set_stats stats log_slot_races
           log_slot_joins failed_asserts] in *.
      exists (S k), s', s_w. cbn [take log_after length].
      repeat split; try assumption; lia.
  - apply IH in H.
    destruct H as (k & s' & s_w & Hk & Ha' & Hs' & Hopen' & Hw & Hst & Hoff
                   & Hlog & Hraces & Hjoins & Hfa).
    cbn [log set_log stat_incr_races set_stats stats log_slot_races
         log_slot_joins failed_asserts] in *.
    exists (S k), s', s_w. cbn [take log_after length].
    repeat split; try assumption; lia.
Qed.

(** The same for the whole function: a join that returns has won one of
    its attempts, and all it leaves follows from the state word [w] it
    won with. *)
Lemma join_returns sched session c mysize flags_arg myslotp ret myslot c' :
  active_slot (log c) <> None ->
  __wt_log_slot_join sched session c mysize flags_arg myslotp =
    Returned (ret, myslot, c') ->
  exists (k slot : nat) w s',
    wins_attempt sched (log c) k slot w /\
    ret = 0 /\
    myslot =
      MYSLOT.mk (Some slot) (wrap32 (WT_LOG_SLOT_JOINED w))
        (wrap64 (u64 (u64 (wrap32 (WT_LOG_SLOT_JOINED w)) + mysize))) /\
    get_slot (log c') slot = Some s' /\
    slot_state s' = join_new_state w mysize /\
    active_slot (log c') =
      active_slot (log_after (take (S k) sched) (log c)) /\
    (forall i, i <> slot ->
       get_slot (log c') i =
         get_slot (log_after (take (S k) sched) (log c)) i) /\
    log_slot_races (stats c') = log_slot_races (stats c) + Z.of_nat k /\
    log_slot_joins (stats c') =
      log_slot_joins (stats c) + (if mysize =? 0 then 0 else 1).
Proof.
  intros Hact H. unfold __wt_log_slot_join in H.
  destruct (join_asserts_frame session mysize c) as (Hlog & Hstats & _).
  set (c1 := WT_ASSERT 321 _ _) in *.
  rewrite Hlog in H.
  destruct (active_slot (log c)) as [a|]; [clear Hact|contradiction].
  destruct (join_retry sched c1 mysize) as [[[slot off] c2]| |] eqn:Hretry;
    try discriminate.
  apply join_retry_returns in Hretry.
  destruct Hretry as (k & s & s_w & Hk & Ha & Hs & Hopen & Hw & Hst & Hoff
                      & Hlog2 & Hraces & Hjoins & _).
  rewrite Hlog in Ha, Hs, Hw, Hlog2. rewrite Hstats in Hraces, Hjoins.
  remember (join_new_state (slot_state s) mysize) as new eqn:Hnew.
  remember (log_after (take (S k) sched) (log c)) as l_w eqn:Hl_w.
  set (c3 := if negb (mysize =? 0) then stat_incr_joins c2 else c2) in *.
  assert (Hlog3 : log c3 = log c2)
    by (subst c3; destruct (negb (mysize =? 0)); reflexivity).
  assert (Hraces3 : log_slot_races (stats c3) = log_slot_races (stats c2))
    by (subst c3; destruct (negb (mysize =? 0)); reflexivity).
  assert (Hjoins3 : log_slot_joins (stats c3) =
                    log_slot_joins (stats c2)
                    + (if mysize =? 0 then 0 else 1)).
  { subst c3. destruct (mysize =? 0); cbn [negb]; [lia|reflexivity]. }
  rewrite Hlog3, Hlog2 in H.
  rewrite (get_put_same l_w slot s_w _ Hw) in H.
  set (sa := if F_ISSET flags_arg (Z.lor WT_LOG_DSYNC WT_LOG_FSYNC)
             then _ else _) in *.
  set (sb := if F_ISSET flags_arg WT_LOG_FSYNC then _ else _) in *.
  assert (Hsb : slot_state sb = new).
  { subst sb sa. repeat destruct (F_ISSET _ _); reflexivity. }
  injection H as <- <- <-.
  exists k, slot, (slot_state s), sb.
  split.
  { unfold wins_attempt. rewrite <- Hl_w. eauto 10. }
  cbn [log set_log stats]. rewrite Hoff, Hraces3, Hjoins3, <- Hnew, <- Hl_w.
  repeat split; try assumption; try congruence.
  - eapply get_put_same, get_put_same, Hw.
  - intros i Hi. now rewrite !get_put_other by congruence.
Qed.

(** The function around its loop: once the loop has left with the slot
    joined, the function returns 0 and the span; it writes the slot's sync
    flags and the join counter only. *)
Lemma join_of_retry
    sched session c mysize flags_arg myslotp slot off c2 s2 :
  active_slot (log c) <> None ->
  join_retry sched
    (WT_ASSERT 321 (negb (locked_slot session))
       (WT_ASSERT 320 (mysize <? WT_LOG_SLOT_MAXIMUM) c)) mysize =
    Returned (slot, off, c2) ->
  get_slot (log c2) slot = Some s2 ->
  exists c' s',
    __wt_log_slot_join sched session c mysize flags_arg myslotp =
      Returned (0,
        MYSLOT.mk (Some slot) off (wrap64 (u64 (u64 off + mysize))), c') /\
    get_slot (log c') slot = Some s' /\
    slot_state s' = slot_state s2 /\
    active_slot (log c') = active_slot (log c2) /\
    (forall i, i <> slot -> get_slot (log c') i = get_slot (log c2) i) /\
    log_slot_races (stats c') = log_slot_races (stats c2).
Proof.
  intros Hact Hretry Hs2. unfold __wt_log_slot_join.
  destruct (join_asserts_frame session mysize c) as (Hlog & _).
  set (c1 := WT_ASSERT 321 _ _) in *.
  rewrite Hlog.
  destruct (active_slot (log c)) as [a|]; [clear Hact|contradiction].
  rewrite Hretry.
  set (c3 := if negb (mysize =? 0) then stat_incr_joins c2 else c2).
  assert (Hlog3 : log c3 = log c2)
    by (subst c3; destruct (negb (mysize =? 0)); reflexivity).
  assert (Hraces3 : log_slot_races (stats c3) = log_slot_races (stats c2))
    by (subst c3; destruct (negb (mysize =? 0)); reflexivity).
  rewrite Hlog3, Hs2.
  set (sa := if F_ISSET flags_arg (Z.lor WT_LOG_DSYNC WT_LOG_FSYNC)
             then _ else _).
  set (sb := if F_ISSET flags_arg WT_LOG_FSYNC then _ else _).
  assert (Hsb : slot_state sb = slot_state s2).
  { subst sb sa. repeat destruct (F_ISSET _ _); reflexivity. }
  eexists _, sb. split; [reflexivity|]. cbn [log set_log stats].
  split; [eapply get_put_same, Hs2|]. split; [exact Hsb|].
  split; [reflexivity|]. split; [|exact Hraces3].
  intros i Hi. now rewrite get_put_other by congruence.
Qed.


(** C10.  A [__wt_log_slot_join] of size 0 (the probe of the background
    writer) has no path of its own through the function.  Whatever the
    other threads do, a join of any size, 0 included, returns only from
    a CAS it has won: on the slot that was active when it loaded the
    state word [w], with [w] OPEN and still in place at the CAS, after
    one counted race for every attempt it lost; it returns 0, hands out
    the span that starts at JOINED [w], and the CAS has stored the state
    computed from [w] and the size.  For size 0 that span is empty,
    offset = end_offset = JOINED, and the state stored is [w] again, so
    JOINED, RELEASED and the flag bits are unchanged; the one difference
    is that the probe is not counted in [log_slot_joins].  A probe does
    not get past a slot that is not open, and it returns at once when it
    wins its first CAS. *)
Theorem join_zero_is_empty_reservation sched session c flags_arg myslotp :
  active_slot (log c) <> None ->
  (forall mysize ret myslot c',
     __wt_log_slot_join sched session c mysize flags_arg myslotp =
       Returned (ret, myslot, c') ->
     exists (k slot : nat) w s',
       wins_attempt sched (log c) k slot w /\
       log_slot_races (stats c') = log_slot_races (stats c) + Z.of_nat k /\
       ret = 0 /\
       MYSLOT.slot myslot = Some slot /\
       MYSLOT.offset myslot = WT_LOG_SLOT_JOINED w /\
       MYSLOT.end_offset myslot =
         wrap64 (u64 (u64 (WT_LOG_SLOT_JOINED w) + mysize)) /\
       get_slot (log c') slot = Some s' /\
       slot_state s' = join_new_state w mysize /\
       (mysize = 0 ->
        MYSLOT.end_offset myslot = WT_LOG_SLOT_JOINED w /\
        slot_state s' =
          WT_LOG_SLOT_JOIN_REL (WT_LOG_SLOT_JOINED w + 0)
            (WT_LOG_SLOT_RELEASED w) (WT_LOG_SLOT_FLAGS w) /\
        log_slot_joins (stats c') = log_slot_joins (stats c) /\
        (int64_range w ->
         slot_state s' = w /\
         WT_LOG_SLOT_JOINED (slot_state s') = WT_LOG_SLOT_JOINED w /\
         WT_LOG_SLOT_RELEASED (slot_state s') = WT_LOG_SLOT_RELEASED w /\
         WT_LOG_SLOT_FLAGS (slot_state s') = WT_LOG_SLOT_FLAGS w))) /\
  (active_not_open (log c) -> Forall keeps_not_open sched ->
   __wt_log_slot_join sched session c 0 flags_arg myslotp = Spinning) /\
  (forall slot s s1,
     active_slot (log c) = Some slot ->
     get_slot (log c) slot = Some s ->
     int64_range (slot_state s) ->
     WT_LOG_SLOT_OPEN (slot_state s) = true ->
     get_slot (interfere sched (log c)) slot = Some s1 ->
     slot_state s1 = slot_state s ->
     let old := slot_state s in
     exists c' s',
       __wt_log_slot_join sched session c 0 flags_arg myslotp =
         Returned (0,
           MYSLOT.mk (Some slot) (WT_LOG_SLOT_JOINED old)
             (WT_LOG_SLOT_JOINED old),
           c') /\
       get_slot (log c') slot = Some s' /\
       slot_state s' = old /\
       WT_LOG_SLOT_JOINED (slot_state s') = WT_LOG_SLOT_JOINED old /\
       WT_LOG_SLOT_RELEASED (slot_state s') = WT_LOG_SLOT_RELEASED old /\
       WT_LOG_SLOT_FLAGS (slot_state s') = WT_LOG_SLOT_FLAGS old).
Proof.
  intros Hact. split; [|split].
  - intros mysize ret myslot c' H.
    destruct (join_returns sched session c mysize flags_arg myslotp ret
                myslot c' Hact H)
      as (k & slot & w & s' & Hwin & -> & -> & Hg & Hst & _ & _ & Hraces
          & Hjoins).
    assert (Hj : wrap32 (WT_LOG_SLOT_JOINED w) = WT_LOG_SLOT_JOINED w)
      by (clear; fields; zdm).
    exists k, slot, w, s'.
    cbn [MYSLOT.slot MYSLOT.offset MYSLOT.end_offset]. rewrite Hj.
    split; [exact Hwin|]. split; [exact Hraces|].
    split; [reflexivity|]. split; [reflexivity|]. split; [reflexivity|].
    split; [reflexivity|]. split; [exact Hg|]. split; [exact Hst|].
    intros ->. rewrite Hst. cbn [Z.eqb] in Hjoins.
    assert (Hfit : WT_LOG_SLOT_JOINED w + 0 < 2 ^ JOINED_BITS)
      by (clear; fields; zdm).
    destruct (join_new_state_fit w 0 (Z.le_refl 0) Hfit)
      as (Hnew & _ & Hend).
    rewrite Hj, (Z.add_0_r (WT_LOG_SLOT_JOINED w)) in Hend.
    split; [exact Hend|]. split; [exact Hnew|]. split; [lia|].
    intros Hrange.
    destruct (join_state w 0 Hrange (Z.le_refl 0) Hfit) as (Hsum & _).
    cbv zeta in Hsum. rewrite Z.add_0_r in Hsum. rewrite Hsum.
    repeat split.
  - intros (a & s & Ha & Hs & Hno) Hkeep. unfold __wt_log_slot_join.
    destruct (join_asserts_frame session 0 c) as (Hlog & _).
    set (c1 := WT_ASSERT 321 _ _) in *. rewrite Hlog, Ha.
    rewrite (join_retry_spins sched c1 0); [reflexivity| |exact Hkeep].
    rewrite Hlog. exists a, s. auto.
  - intros slot s s1 Ha Hs Hrange Hopen Hs1 Hst old.
    destruct (join_zero_first_attempt sched session c slot s s1 flags_arg
                myslotp Ha Hs Hrange Hopen Hs1 Hst)
      as (c' & s' & Hj & Hg & _ & Hsame & Hfields).
    exists c', s'. auto.
Qed.

End JoinRaces.

(** ** Histories with lost races *)

Section RacingProofs.

Context {hdr : Header} {ext : Collaborators}.

Lemma joined_by_nonneg slot ops :
  Forall (op_fits slot) ops -> 0 <= joined_by ops.
Proof.
  induction 1 as [|[m f|ms size] ops Hop _ IH]; cbn [joined_by];
    [lia| |exact IH].
  cbn [op_fits] in Hop. lia.
Qed.

Lemma released_by_nonneg slot ops :
  Forall (op_fits slot) ops -> 0 <= released_by ops.
Proof.
  induction 1 as [|[m f|ms size] ops Hop _ IH]; cbn [released_by];
    [lia|exact IH|].
  cbn [op_fits] in Hop. lia.
Qed.

Lemma joined_by_app a b : joined_by (a ++ b) = joined_by a + joined_by b.
Proof.
  induction a as [|[m f|ms size] a IH]; cbn [app joined_by]; lia.
Qed.

Lemma released_by_app a b :
  released_by (a ++ b) = released_by a + released_by b.
Proof.
  induction a as [|[m f|ms size] a IH]; cbn [app released_by]; lia.
Qed.

Lemma joined_by_concat_nonneg slot hs :
  Forall (Forall (op_fits slot)) hs -> 0 <= joined_by (concat hs).
Proof.
  induction 1 as [|h hs Hh _ IH]; cbn [concat joined_by]; [lia|].
  rewrite joined_by_app. pose proof (joined_by_nonneg slot h Hh). lia.
Qed.

Lemma released_by_concat_nonneg slot hs :
  Forall (Forall (op_fits slot)) hs -> 0 <= released_by (concat hs).
Proof.
  induction 1 as [|h hs Hh _ IH]; cbn [concat released_by]; [lia|].
  rewrite released_by_app. pose proof (released_by_nonneg slot h Hh). lia.
Qed.

Lemma contiguous_partition_app spans1 : forall lo mid hi spans2,
  contiguous_partition lo mid spans1 ->
  contiguous_partition mid hi spans2 ->
  contiguous_partition lo hi (spans1 ++ spans2).
Proof.
  induction spans1 as [|m spans1 IH]; intros lo mid hi spans2;
    cbn [contiguous_partition app].
  - intros ->. trivial.
  - intros (Hoff & Hle & Hrest) H2. repeat split; try assumption.
    eapply IH; eassumption.
Qed.

(** An open slot after a join of a size that fits. *)
Lemma open_at_joined slot j r l l' s s' mysize :
  open_at slot j r l ->
  get_slot l slot = Some s ->
  0 <= mysize -> j + mysize < 2 ^ JOINED_BITS ->
  active_slot l' = Some slot ->
  get_slot l' slot = Some s' ->
  slot_state s' = join_new_state (slot_state s) mysize ->
  open_at slot (j + mysize) r l'.
Proof.
  intros (_ & s0 & Hs0 & Hrange & Hopen & Hj & Hr) Hs Hm Hfit Ha' Hs' Hst.
  rewrite Hs in Hs0. injection Hs0 as <-. rewrite <- Hj in Hfit.
  destruct (join_state (slot_state s) mysize Hrange Hm Hfit)
    as (_ & HJ & HR & HF & Hrange1).
  cbv zeta in HJ, HR, HF, Hrange1. rewrite <- Hst in HJ, HR, HF, Hrange1.
  split; [exact Ha'|]. exists s'.
  split; [exact Hs'|]. split; [exact Hrange1|].
  split; [unfold WT_LOG_SLOT_OPEN in *; now rewrite HF|].
  split; congruence.
Qed.

(** The operations of the other threads, run one after the other on an
    open slot: the slot stays active and open, the counters follow the
    totals, and the spans tile the bytes joined. *)
Lemma run_ops_open session ops : forall c slot j r,
  open_at slot j r (log c) ->
  Forall (op_fits slot) ops ->
  j + joined_by ops < 2 ^ JOINED_BITS ->
  r + released_by ops < 2 ^ RELEASED_BITS ->
  exists spans c',
    run_ops session c ops = Returned (spans, c') /\
    open_at slot (j + joined_by ops) (r + released_by ops) (log c') /\
    contiguous_partition j (j + joined_by ops) spans /\
    Forall (fun m => MYSLOT.slot m = Some slot) spans.
Proof.
  induction ops as [|[mysize flags_arg|myslot size] ops IH];
    intros c slot j r Hat Hfits Hjfit Hrfit.
  - exists [], c. cbn [run_ops joined_by released_by contiguous_partition].
    rewrite !Z.add_0_r.
    split; [reflexivity|]. split; [exact Hat|].
    split; [reflexivity|constructor].
  - apply Forall_cons in Hfits as [[Hm Hmax] Hfits].
    pose proof (joined_by_nonneg slot ops Hfits) as Hnn.
    cbn [joined_by released_by] in *.
    pose proof Hat as (Ha & s & Hs & Hrange & Hopen & Hj & Hr).
    destruct (join_first_attempt [] session c slot s s mysize flags_arg
                (MYSLOT.mk None 0 0) Ha Hs Hopen Hs eq_refl)
      as (c1 & s1 & Hjoin & Hg1 & Hst1 & Hact1 & _).
    assert (Hfit1 : WT_LOG_SLOT_JOINED (slot_state s) + mysize
                    < 2 ^ JOINED_BITS) by lia.
    destruct (join_new_state_fit (slot_state s) mysize Hm Hfit1)
      as (_ & Hoff & Hend).
    rewrite Hend, Hoff, Hj in Hjoin.
    assert (Hat1 : open_at slot (j + mysize) r (log c1)).
    { eapply (open_at_joined slot j r (log c)); try eassumption; [lia|].
      now rewrite Hact1. }
    destruct (IH c1 slot (j + mysize) r Hat1 Hfits)
      as (spans & c' & Hrun & Hat' & Hcp & Hall); [lia|lia|].
    cbn [run_ops]. rewrite Hjoin, Hrun. rewrite Z.add_assoc.
    eexists _, c'. split; [reflexivity|]. split; [exact Hat'|].
    split.
    + cbn [contiguous_partition MYSLOT.offset MYSLOT.end_offset].
      repeat split; [lia|exact Hcp].
    + constructor; [reflexivity|exact Hall].
  - apply Forall_cons in Hfits as [[Hmy Hsize] Hfits].
    pose proof (released_by_nonneg slot ops Hfits) as Hnn.
    cbn [joined_by released_by] in *.
    pose proof Hat as (Ha & s & Hs & Hrange & Hopen & Hj & Hr).
    pose proof (release_alone (log c) myslot size slot s Hmy Hs) as Hrel.
    cbv zeta in Hrel.
    assert (Hr0 : 0 <= r) by (rewrite <- Hr; clear; fields; zdm).
    assert (Hrfit' : 0 <= WT_LOG_SLOT_RELEASED (slot_state s) + size
                     < 2 ^ RELEASED_BITS) by lia.
    destruct (release_state (slot_state s) size Hrange Hrfit')
      as (_ & HR & HJ & HF & Hrange1).
    set (v := __wt_atomic_addiv64 _ _) in *.
    set (s1 := set_slot_state v _) in *.
    set (l1 := put_slot slot s1 (log c)) in *.
    assert (Hat1 : open_at slot j (r + size) l1).
    { split; [exact Ha|]. exists s1.
      split; [subst l1; eapply get_put_same, Hs|].
      cbn [s1 slot_state set_slot_state].
      split; [exact Hrange1|].
      split; [unfold WT_LOG_SLOT_OPEN in *; now rewrite HF|].
      split; congruence. }
    destruct (IH (set_log l1 c) slot j (r + size) Hat1 Hfits)
      as (spans & c' & Hrun & Hat' & Hcp & Hall); [lia|lia|].
    cbn [run_ops]. rewrite Hrel, Hrun. rewrite Z.add_assoc.
    exists spans, c'. split; [reflexivity|]. split; [exact Hat'|].
    split; assumption.
Qed.

(** The same, seen from the thread they interfere with. *)
Lemma others_open session c0 h slot j r l :
  open_at slot j r l ->
  Forall (op_fits slot) h ->
  j + joined_by h < 2 ^ JOINED_BITS ->
  r + released_by h < 2 ^ RELEASED_BITS ->
  open_at slot (j + joined_by h) (r + released_by h)
    (others session c0 h l) /\
  contiguous_partition j (j + joined_by h) (others_spans session c0 h l) /\
  Forall (fun m => MYSLOT.slot m = Some slot) (others_spans session c0 h l).
Proof.
  intros Hat Hfits Hjfit Hrfit. unfold others, others_spans.
  destruct (run_ops_open session h (set_log l c0) slot j r)
    as (spans & c' & Hrun & Hat' & Hcp & Hall); try assumption.
  rewrite Hrun. split; [exact Hat'|]. split; assumption.
Qed.

(** The loop of a join against the other threads' operations: it leaves
    after some [k] lost attempts, counted in [log_slot_races]; the spans
    the other threads were handed during its [k + 1] attempts tile the
    bytes from [j] up to its own offset, and its own span follows. *)
Lemma join_retry_racing session c0 slot mysize lost : forall c j r,
  open_at slot j r (log c) ->
  Forall (Forall (op_fits slot)) lost ->
  0 <= mysize ->
  j + joined_by (concat lost) + mysize < 2 ^ JOINED_BITS ->
  r + released_by (concat lost) < 2 ^ RELEASED_BITS ->
  exists (k : nat) jw rw c' s',
    join_retry (others session c0 <$> lost) c mysize =
      Returned (slot, jw, c') /\
    log_slot_races (stats c') = log_slot_races (stats c) + Z.of_nat k /\
    get_slot (log c') slot = Some s' /\
    open_at slot (jw + mysize) rw (log c') /\
    jw <= j + joined_by (concat lost) /\
    rw <= r + released_by (concat lost) /\
    contiguous_partition j jw
      (spans_during session c0 (take (S k) lost) (log c)) /\
    Forall (fun m => MYSLOT.slot m = Some slot)
      (spans_during session c0 (take (S k) lost) (log c)).
Proof.
  induction lost as [|h lost IH]; intros c j r Hat Hfits Hm Hjfit Hrfit;
    pose proof Hat as (Ha & s & Hs & Hrange & Hopen & Hj & Hr).
  - cbn [concat joined_by released_by fmap list_fmap] in *.
    rewrite (join_retry_wins [] c slot s s mysize Ha Hs Hopen Hs eq_refl).
    cbn [interfere].
    assert (Hfit1 : WT_LOG_SLOT_JOINED (slot_state s) + mysize
                    < 2 ^ JOINED_BITS) by lia.
    destruct (join_new_state_fit (slot_state s) mysize Hm Hfit1)
      as (_ & Hoff & _).
    rewrite Hoff, Hj.
    eexists 0%nat, j, r, _, _. split; [reflexivity|].
    cbn [log set_log stats take spans_during contiguous_partition].
    split; [lia|]. split; [eapply get_put_same, Hs|].
    split.
    { eapply (open_at_joined slot j r (log c)).
      - exact Hat.
      - exact Hs.
      - exact Hm.
      - lia.
      - exact Ha.
      - eapply get_put_same, Hs.
      - reflexivity. }
    repeat split; try lia. constructor.
  - apply Forall_cons in Hfits as [Hh Hfits].
    cbn [concat] in Hjfit, Hrfit. rewrite joined_by_app in Hjfit.
    rewrite released_by_app in Hrfit.
    pose proof (joined_by_nonneg slot h Hh) as Hjh.
    pose proof (released_by_nonneg slot h Hh) as Hrh.
    pose proof (joined_by_concat_nonneg slot lost Hfits) as Hjl.
    pose proof (released_by_concat_nonneg slot lost Hfits) as Hrl.
    destruct (others_open session c0 h slot j r (log c) Hat Hh)
      as (Hat1 & Hcp1 & Hall1); [lia|lia|].
    pose proof Hat1 as (Ha1 & s1 & Hs1 & Hrange1 & Hopen1 & Hj1 & Hr1).
    cbn [fmap list_fmap]. fold (fmap (others session c0) lost).
    remember (others session c0 h) as env eqn:Henv.
    remember (others_spans session c0 h (log c)) as sp eqn:Hsp.
    destruct (Z.eq_dec (slot_state s1) (slot_state s)) as [Heq|Hne].
    + rewrite (join_retry_wins (env :: (others session c0 <$> lost)) c slot
                 s s1 mysize Ha Hs Hopen Hs1 Heq).
      cbn [interfere].
      assert (Hjh0 : joined_by h = 0) by (rewrite Heq in Hj1; lia).
      assert (Hrh0 : released_by h = 0) by (rewrite Heq in Hr1; lia).
      assert (Hfit1 : WT_LOG_SLOT_JOINED (slot_state s) + mysize
                      < 2 ^ JOINED_BITS) by lia.
      destruct (join_new_state_fit (slot_state s) mysize Hm Hfit1)
        as (_ & Hoff & _).
      rewrite Hoff, Hj.
      eexists 0%nat, j, r, _, _. split; [reflexivity|].
      cbn [log set_log stats take spans_during].
      rewrite <- Henv, <- Hsp, app_nil_r.
      split; [lia|]. split; [eapply get_put_same, Hs1|].
      split.
      { rewrite Hjh0, Hrh0, !Z.add_0_r in Hat1.
        eapply (open_at_joined slot j r (env (log c))).
        - exact Hat1.
        - exact Hs1.
        - exact Hm.
        - lia.
        - exact Ha1.
        - eapply get_put_same, Hs1.
        - cbn [slot_state set_slot_state]. now rewrite Heq. }
      rewrite Hjh0, Z.add_0_r in Hcp1.
      cbn [concat]. rewrite joined_by_app, released_by_app.
      split; [lia|]. split; [lia|]. split; assumption.
    + rewrite (join_retry_lost env (others session c0 <$> lost) c slot s s1
                 mysize Ha Hs Hs1 Hne).
      destruct (IH (stat_incr_races (set_log (env (log c)) c))
                  (j + joined_by h) (r + released_by h))
        as (k & jw & rw & c' & s' & Hret & Hraces & Hg' & Hat' & Hjw & Hrw
            & Hcp & Hall); try assumption; try lia.
      cbn [log set_log stat_incr_races set_stats stats log_slot_races]
        in Hraces, Hcp, Hall.
      exists (S k), jw, rw, c', s'. split; [exact Hret|].
      cbn [take spans_during]. rewrite <- Henv, <- Hsp.
      cbn [concat]. rewrite joined_by_app, released_by_app.
      split; [lia|]. split; [exact Hg'|]. split; [exact Hat'|].
      split; [lia|]. split; [lia|]. split.
      * eapply contiguous_partition_app; eassumption.
      * apply Forall_app. split; assumption.
Qed.

Lemma racing_joined_nonneg slot ops :
  Forall (racing_fits slot) ops -> 0 <= racing_joined ops.
Proof.
  induction 1 as [|[m f lost|ms size] ops Hop _ IH]; cbn [racing_joined];
    [lia| |exact IH].
  destruct Hop as [Hm Hlost].
  pose proof (joined_by_concat_nonneg slot lost Hlost). lia.
Qed.

Lemma racing_released_nonneg slot ops :
  Forall (racing_fits slot) ops -> 0 <= racing_released ops.
Proof.
  induction 1 as [|[m f lost|ms size] ops Hop _ IH]; cbn [racing_released].
  - lia.
  - destruct Hop as [Hm Hlost].
    pose proof (released_by_concat_nonneg slot lost Hlost). lia.
  - destruct Hop as [_ Hsize]. lia.
Qed.

(** [open_at] reads the active slot and the slot's state word only. *)
Lemma open_at_same slot j r l l' s s' :
  open_at slot j r l ->
  active_slot l' = active_slot l ->
  get_slot l slot = Some s ->
  get_slot l' slot = Some s' ->
  slot_state s' = slot_state s ->
  open_at slot j r l'.
Proof.
  intros (Ha & s0 & Hs0 & Hrest) Ha' Hs Hs' Hst.
  rewrite Hs in Hs0. injection Hs0 as <-.
  split; [congruence|]. exists s'. rewrite Hst. auto.
Qed.

Lemma span_end_fit jw m :
  0 <= jw -> 0 <= m -> jw + m < 2 ^ JOINED_BITS ->
  wrap64 (u64 (u64 jw + m)) = jw + m.
Proof. intros Hj Hm Hfit. fields. zdm. Qed.

Lemma open_at_bounds slot j r l :
  open_at slot j r l ->
  0 <= j < 2 ^ JOINED_BITS /\ 0 <= r < 2 ^ RELEASED_BITS.
Proof.
  intros (_ & s & _ & _ & _ & Hj & Hr). rewrite <- Hj, <- Hr.
  clear. fields. split; zdm.
Qed.

(** The invariant of a history with lost races: the slot stays active
    and open, and all the spans handed out so far, to whichever thread,
    tile the bytes joined so far in the order of the successful CAS. *)
Lemma run_racing_tiles session ops : forall c slot j r,
  open_at slot j r (log c) ->
  Forall (racing_fits slot) ops ->
  j + racing_joined ops < 2 ^ JOINED_BITS ->
  r + racing_released ops < 2 ^ RELEASED_BITS ->
  exists spans c' j' r',
    run_racing session c ops = Returned (spans, c') /\
    open_at slot j' r' (log c') /\
    contiguous_partition j j' spans /\
    Forall (fun m => MYSLOT.slot m = Some slot) spans.
Proof.
  induction ops as [|[mysize flags_arg lost|myslot size] ops IH];
    intros c slot j r Hat Hfits Hjfit Hrfit.
  - exists [], c, j, r. cbn [run_racing contiguous_partition].
    split; [reflexivity|]. split; [exact Hat|].
    split; [reflexivity|constructor].
  - apply Forall_cons in Hfits as [[[Hm Hmax] Hlost] Hfits].
    pose proof (racing_joined_nonneg slot ops Hfits) as Hjn.
    pose proof (racing_released_nonneg slot ops Hfits) as Hrn.
    cbn [racing_joined racing_released] in Hjfit, Hrfit.
    destruct (join_asserts_frame session mysize c) as (Hlog & Hstats & _).
    destruct (join_retry_racing session c slot mysize lost
                (WT_ASSERT 321 (negb (locked_slot session))
                   (WT_ASSERT 320 (mysize <? WT_LOG_SLOT_MAXIMUM) c)) j r)
      as (k & jw & rw & c2 & s2 & Hret & Hraces & Hg2 & Hat2 & Hjw & Hrw
          & Hcp & Hall); try assumption; try lia.
    { now rewrite Hlog. }
    rewrite Hlog in Hcp, Hall. rewrite Hstats in Hraces.
    destruct (join_of_retry (others session c <$> lost) session c mysize
                flags_arg (MYSLOT.mk None 0 0) slot jw c2 s2)
      as (c' & s' & Hjoin & Hg' & Hst' & Ha' & _ & Hraces');
      [destruct Hat as [-> _]; discriminate|exact Hret|exact Hg2|].
    pose proof (open_at_same slot _ _ (log c2) (log c') s2 s' Hat2 Ha' Hg2
                  Hg' Hst') as Hat'.
    destruct (open_at_bounds _ _ _ _ Hat) as [[Hj0 _] _].
    destruct (open_at_bounds _ _ _ _ Hat2) as [[_ Hjwfit] _].
    destruct (contiguous_partition_bounds _ _ _ Hcp) as [Hjjw _].
    rewrite (span_end_fit jw mysize) in Hjoin by lia.
    destruct (IH c' slot (jw + mysize) rw Hat' Hfits)
      as (spans & c'' & j' & r' & Hrun & Hat'' & Hcp' & Hall');
      [lia|lia|].
    cbn [run_racing]. rewrite Hjoin.
    replace (Z.to_nat (log_slot_races (stats c')
                       - log_slot_races (stats c))) with k by lia.
    rewrite Hrun.
    eexists _, c'', j', r'. split; [reflexivity|]. split; [exact Hat''|].
    split.
    + eapply contiguous_partition_app; [exact Hcp|].
      cbn [contiguous_partition MYSLOT.offset MYSLOT.end_offset].
      split; [reflexivity|]. split; [lia|exact Hcp'].
    + apply Forall_app. split; [exact Hall|].
      constructor; [reflexivity|exact Hall'].
  - apply Forall_cons in Hfits as [[Hmy Hsize] Hfits].
    pose proof (racing_released_nonneg slot ops Hfits) as Hrn.
    cbn [racing_joined racing_released] in Hjfit, Hrfit.
    pose proof Hat as (Ha & s & Hs & Hrange & Hopen & Hj & Hr).
    pose proof (release_alone (log c) myslot size slot s Hmy Hs) as Hrel.
    cbv zeta in Hrel.
    destruct (open_at_bounds _ _ _ _ Hat) as [_ [Hr0 _]].
    assert (Hrfit' : 0 <= WT_LOG_SLOT_RELEASED (slot_state s) + size
                     < 2 ^ RELEASED_BITS) by lia.
    destruct (release_state (slot_state s) size Hrange Hrfit')
      as (_ & HR & HJ & HF & Hrange1).
    set (v := __wt_atomic_addiv64 _ _) in *.
    set (s1 := set_slot_state v _) in *.
    set (l1 := put_slot slot s1 (log c)) in *.
    assert (Hat1 : open_at slot j (r + size) l1).
    { split; [exact Ha|]. exists s1.
      split; [subst l1; eapply get_put_same, Hs|].
      cbn [s1 slot_state set_slot_state].
      split; [exact Hrange1|].
      split; [unfold WT_LOG_SLOT_OPEN in *; now rewrite HF|].
      split; congruence. }
    destruct (IH (set_log l1 c) slot j (r + size) Hat1 Hfits)
      as (spans & c' & j' & r' & Hrun & Hat' & Hcp & Hall); [lia|lia|].
    cbn [run_racing]. rewrite Hrel, Hrun.
    exists spans, c', j', r'. split; [reflexivity|]. split; [exact Hat'|].
    split; assumption.
Qed.

(** C1.  The joins on one slot, from its activation on and before any
    close, by threads that race: a join may lose its CAS any number of
    times to the joins and releases the other threads complete meanwhile,
    and tries again.  With every join below the maximum and the total
    representable in the JOINED bitfield, every join returns, and the
    spans [offset, end_offset) handed out, those of the other threads
    included, are pairwise disjoint and tile [0, JOINED) of the final
    state in the order of the successful CAS. *)
Theorem joins_partition_the_slot session c slot s ops :
  active_slot (log c) = Some slot ->
  get_slot (log c) slot = Some s ->
  slot_state s = 0 ->
  Forall (racing_fits slot) ops ->
  racing_joined ops < 2 ^ JOINED_BITS ->
  racing_released ops < 2 ^ RELEASED_BITS ->
  exists spans c' s',
    run_racing session c ops = Returned (spans, c') /\
    get_slot (log c') slot = Some s' /\
    Forall (fun m => MYSLOT.slot m = Some slot) spans /\
    contiguous_partition 0 (WT_LOG_SLOT_JOINED (slot_state s')) spans /\
    pairwise_disjoint spans.
Proof.
  intros Ha Hs Hst Hfits Hjfit Hrfit.
  assert (Hat : open_at slot 0 0 (log c)).
  { split; [exact Ha|]. exists s. rewrite Hst.
    split; [exact Hs|]. split; [unfold int64_range; lia|].
    repeat split. }
  destruct (run_racing_tiles session ops c slot 0 0 Hat Hfits)
    as (spans & c' & j' & r' & Hrun & (_ & s' & Hs' & _ & _ & Hj' & _)
        & Hcp & Hall); [lia|lia|].
  exists spans, c', s'. rewrite Hj'.
  split; [exact Hrun|]. split; [exact Hs'|]. split; [exact Hall|].
  split; [exact Hcp|]. eapply contiguous_partition_disjoint, Hcp.
Qed.

End RacingProofs.

(** ** The theorems at work on the concrete engine *)

(** Closes a ground side condition by evaluation. *)
Ltac evaluate :=
  lazymatch goal with
  | |- ex _ => fail
  | |- _ => vm_compute; repeat split; solve [reflexivity | discriminate | exact I]
  end.

Section Instances.

#[local] Existing Instance demo_header.
#[local] Existing Instance demo_ext.

(** Three threads join 10, 20 and 30 bytes on a fresh slot.  The first
    loses its CAS twice, to a join of 50 and then to the release of those
    50 and a join of 5, and wins its third attempt; the last loses once,
    to a join of 7.  The six spans, in the order of the CAS: *)
Lemma joins_partition_the_slot_witness :
  let c := demo_conn (demo_log (Some 0%nat) [demo_slot 0 3; demo_slot (-1) 3]) in
  let ops :=
    [RaceJoin 10 0
       [[OpJoin 50 0];
        [OpRelease (MYSLOT.mk (Some 0%nat) 0 50) 50; OpJoin 5 0]];
     RaceJoin 20 0 [];
     RaceRelease (MYSLOT.mk (Some 0%nat) 55 65) 10;
     RaceJoin 30 8 [[OpJoin 7 0]]] in
  exists spans c',
    run_racing session_unlocked c ops = Returned (spans, c') /\
    (fun m => (MYSLOT.offset m, MYSLOT.end_offset m)) <$> spans =
      [(0, 50); (50, 55); (55, 65); (65, 85); (85, 92); (92, 122)] /\
    log_slot_races (stats c') = 3 /\
    pairwise_disjoint spans.
Proof.
  intros c ops.
  destruct (joins_partition_the_slot session_unlocked c 0%nat
              (demo_slot 0 3) ops eq_refl eq_refl eq_refl)
    as (spans & c' & s' & Hrun & _ & _ & _ & Hdis).
  - repeat constructor; cbn; unfold WT_LOG_SLOT_MAXIMUM; lia.
  - vm_compute. reflexivity.
  - vm_compute. reflexivity.
  - exists spans, c'. split; [exact Hrun|].
    pose proof Hrun as Hrun'. vm_compute in Hrun'.
    injection Hrun' as Hspans Hc'. rewrite <- Hspans, <- Hc'.
    split; [reflexivity|]. split; [reflexivity|].
    rewrite Hspans. exact Hdis.
Defined.

(** A slot with 100 bytes joined and released is closed: DONE, so the
    closer is told to release it now. *)
Lemma close_wins_publishes_end_lsn_witness :
  let c := demo_conn (demo_log (Some 0%nat) [demo_slot (100 + 100 * 2 ^ 24) 3]) in
  exists c',
    __wt_log_slot_close [] session_locked c (Some 0%nat) (Some 7) =
      Returned (0, Some 1, c') /\
    alloc_lsn (log c') = LSN.mk 1 228.
Proof.
  intros c.
  destruct (close_wins_publishes_end_lsn [] session_locked c 0%nat
              (demo_slot (100 + 100 * 2 ^ 24) 3)
              (demo_slot (100 + 100 * 2 ^ 24) 3) (Some 7)
              eq_refl eq_refl eq_refl eq_refl eq_refl)
    as (c' & s' & rel & Hret & Hg & Hst & Hstart & Hfile & Hoff & _ & Ha
        & Hrel & _).
  exists c'. split.
  - rewrite Hret, Hrel. reflexivity.
  - rewrite Ha. destruct (slot_end_lsn s') as [f o]. cbn in Hfile, Hoff.
    rewrite Hfile, Hoff, Hstart. reflexivity.
Defined.



(** A release of 100 bytes by the joiner that started at offset 10. *)
Lemma release_raises_last_offset_and_adds_released_witness :
  let l := demo_log (Some 0%nat) [demo_slot 100 3] in
  exists v l',
    __wt_log_slot_release [] l (MYSLOT.mk (Some 0%nat) 10 110) 100 =
      Returned (v, l') /\
    WT_LOG_SLOT_RELEASED v = 100.
Proof.
  intros l.
  destruct (release_raises_last_offset_and_adds_released l
              (MYSLOT.mk (Some 0%nat) 10 110) 100 0%nat (demo_slot 100 3))
    as (v & l' & s' & Hret & _ & _ & _ & _ & HR & _);
    try reflexivity; try evaluate.
  exists v, l'. split; [exact Hret|exact HR].
Defined.

(** Closing a slot that is already closed. *)
Lemma close_null_closed_reserved_is_noop_witness :
  let c := demo_conn (demo_log (Some 0%nat) [demo_slot (100 + 2 ^ 62) 3]) in
  exists c',
    __wt_log_slot_close [] session_locked c (Some 0%nat) (Some 7) =
      Returned (0, Some 0, c') /\
    log c' = log c.
Proof.
  intros c.
  destruct (close_null_closed_reserved_is_noop [] session_locked c
              (Some 0%nat) (Some 7)) as (c' & Hret & Hlog & _).
  { exists (demo_slot (100 + 2 ^ 62) 3). split; [reflexivity|].
    left. reflexivity. }
  exists c'. split; assumption.
Defined.

(** A switch while 100 bytes are joined and 50 released. *)
Lemma switch_asserts_hold_mid_join_witness :
  let c := demo_conn (demo_log (Some 0%nat)
                        [demo_slot (100 + 50 * 2 ^ 24) 3; demo_slot (-1) 3]) in
  exists c1,
    switch_close [] session_locked
      (WT_ASSERT 107 (locked_slot session_locked) c) (Some 0%nat) =
      Returned (0, Some 0, c1).
Proof.
  intros c.
  destruct (switch_asserts_hold_mid_join [] [] session_locked c 0%nat
              (demo_slot (100 + 50 * 2 ^ 24) 3))
    as (c1 & s1 & _ & _ & _ & _ & Hsw & _);
    try reflexivity.
  { repeat split. }
  { constructor. }
  exists c1. exact Hsw.
Defined.

(** There is no log file: the acquisition fails with ENOENT and the new
    slot is not promoted. *)
Lemma new_returns_acquire_error_witness :
  let c := demo_conn (mkLog demo_lsn demo_lsn 0 None
                        [demo_slot 5 3; demo_slot (-1) 3] 4 1) in
  exists c',
    __wt_log_slot_new [] session_locked c = Returned (2, c') /\
    active_slot (log c') = None.
Proof.
  intros c.
  destruct (new_returns_acquire_error [] session_locked c 1%nat 2 (log c))
    as (c' & s' & Hret & _ & Hact & _);
    try reflexivity; try discriminate.
  { split; [reflexivity|exact I]. }
  exists c'. split; [exact Hret|exact Hact].
Defined.

(** A close with 40 of 100 bytes still to release; the release of the 40
    finds the slot DONE. *)
Lemma close_keeps_joined_and_released_witness :
  let c := demo_conn (demo_log (Some 0%nat) [demo_slot (100 + 60 * 2 ^ 24) 3]) in
  exists c' v l'',
    __wt_log_slot_close [] session_locked c (Some 0%nat) (Some 7) =
      Returned (0, Some 0, c') /\
    __wt_log_slot_release [] (log c') (MYSLOT.mk (Some 0%nat) 60 100) 40 =
      Returned (v, l'') /\
    WT_LOG_SLOT_DONE v = true.
Proof.
  intros c.
  destruct (close_keeps_joined_and_released [] session_locked c 0%nat
              (demo_slot (100 + 60 * 2 ^ 24) 3)
              (demo_slot (100 + 60 * 2 ^ 24) 3) (Some 7))
    as (c' & s' & rel & Hret & Hg & _ & _ & _ & _ & Hpending);
    try reflexivity; try evaluate.
  destruct (Hpending (MYSLOT.mk (Some 0%nat) 60 100) 40)
    as (v & l'' & Hrel & _ & _ & _ & Hdone);
    try reflexivity; try evaluate.
  exists c', v, l''. split; [|split; [exact Hrel|]].
  - rewrite Hret. f_equal. f_equal. f_equal.
    assert (H : __wt_log_slot_close [] session_locked c (Some 0%nat) (Some 7)
                = Returned (0, rel, c')) by exact Hret.
    vm_compute in H. injection H as H _. symmetry. exact H.
  - rewrite Hdone. reflexivity.
Defined.

(** A probe on a slot with 100 bytes joined, while another thread stores
    a state word of 50 bytes between the probe's load and its CAS: the
    probe loses that attempt, counts the race, and wins the next on the
    new word; its span is empty at offset 50 and the word stays. *)
Lemma join_zero_is_empty_reservation_witness :
  let c := demo_conn (demo_log (Some 0%nat) [demo_slot 100 3]) in
  exists myslot c' s',
    __wt_log_slot_join [other_thread_joins_50] session_unlocked c 0 0
      (MYSLOT.mk None 0 0) = Returned (0, myslot, c') /\
    MYSLOT.offset myslot = 50 /\
    MYSLOT.end_offset myslot = 50 /\
    log_slot_races (stats c') = 1 /\
    get_slot (log c') 0 = Some s' /\
    slot_state s' = 50.
Proof.
  intros c.
  assert (Hact : active_slot (log c) <> None) by discriminate.
  destruct (__wt_log_slot_join [other_thread_joins_50] session_unlocked c 0
              0 (MYSLOT.mk None 0 0)) as [[[ret myslot] c']| |] eqn:H;
    [|vm_compute in H; discriminate H..].
  destruct (join_zero_is_empty_reservation [other_thread_joins_50]
              session_unlocked c 0 (MYSLOT.mk None 0 0) Hact)
    as (Hany & _ & _).
  destruct (Hany 0 ret myslot c' H)
    as (k & slot & w & s' & _ & _ & -> & _).
  exists myslot, c'. vm_compute in H. injection H as <- <-.
  eexists. repeat split.
Defined.


End Instances.

(** ** The further theorems at work on the concrete engine *)

Section MoreInstances.

#[local] Existing Instance demo_header.

(** Closed by running the code. *)
Ltac by_running H := vm_compute in H; discriminate H.

Lemma join_without_active_slot_witness :
  let c := demo_conn (demo_log None [demo_slot 0 3]) in
  exists c',
    __wt_log_slot_join [] session_unlocked c 0 0 (MYSLOT.mk None 7 7) =
      Returned (0, MYSLOT.mk None 7 7, c') /\
    log c' = log c.
Proof.
  intros c.
  destruct (join_without_active_slot [] session_unlocked c 0 0
              (MYSLOT.mk None 7 7) eq_refl) as (c' & Hret & Hlog & _).
  exists c'. split; assumption.
Defined.

Lemma join_waits_while_not_open_witness :
  let c := demo_conn (demo_log (Some 0%nat) [demo_slot (100 + 2 ^ 62) 3]) in
  __wt_log_slot_join [fun l => l] session_unlocked c 10 0 (MYSLOT.mk None 0 0)
    = Spinning.
Proof.
  intros c.
  apply (join_waits_while_not_open [fun l => l] session_unlocked c 10 0
           (MYSLOT.mk None 0 0)).
  - exists 0%nat, (demo_slot (100 + 2 ^ 62) 3). repeat split.
  - constructor; [|constructor]. intros l H. exact H.
Defined.

Lemma join_ors_sync_flags_witness :
  let c := demo_conn (demo_log (Some 0%nat) [demo_slot 0 3]) in
  exists c' myslot s',
    __wt_log_slot_join [] session_unlocked c 10 0x08 (MYSLOT.mk None 0 0) =
      Returned (0, myslot, c') /\
    get_slot (log c') 0 = Some s' /\
    Z.land (flags s') 0x04 = 0x04 /\ Z.land (flags s') 0x08 = 0x08.
Proof.
  intros c.
  destruct (join_ors_sync_flags [] session_unlocked c 0%nat (demo_slot 0 3)
              (demo_slot 0 3) 10 0x08 (MYSLOT.mk None 0 0)
              eq_refl eq_refl eq_refl eq_refl eq_refl)
    as (c' & myslot & s' & Hret & Hg & _ & Hsync & _).
  exists c', myslot, s'. split; [exact Hret|]. split; [exact Hg|].
  exact (Hsync eq_refl).
Defined.

Lemma join_retries_on_the_slot_then_active_witness :
  let c := demo_conn (demo_log (Some 0%nat) [demo_slot 0 3]) in
  exists c',
    __wt_log_slot_join [other_thread_joins_50] session_unlocked c 10 0
      (MYSLOT.mk None 0 0) =
      Returned (0, MYSLOT.mk (Some 0%nat) 50 60, c') /\
    log_slot_races (stats c') = 1.
Proof.
  intros c.
  destruct (join_retries_on_the_slot_then_active other_thread_joins_50 []
              session_unlocked c 0%nat (demo_slot 0 3) 0%nat (demo_slot 50 3)
              (demo_slot 50 3) 10 0 (MYSLOT.mk None 0 0))
    as (c' & sf & Hret & _ & _ & _ & Hraces);
    try reflexivity; try evaluate.
  { right. exists (demo_slot 50 3). split; [reflexivity|discriminate]. }
  exists c'. split; [exact Hret|exact Hraces].
Defined.

Lemma close_ends_with_the_slot_closed_witness :
  let c := demo_conn (demo_log (Some 0%nat) [demo_slot (100 + 50 * 2 ^ 24) 3]) in
  exists r c' s',
    __wt_log_slot_close [] session_locked c (Some 0%nat) (Some 7) =
      Returned (0, r, c') /\
    get_slot (log c') 0 = Some s' /\
    WT_LOG_SLOT_CLOSED (slot_state s') = true.
Proof.
  intros c.
  destruct (close_ends_with_the_slot_closed [] session_locked c 0%nat
              (Some 7)) as (r & c' & s' & Hret & Hg & Hclosed & _).
  - exists (demo_slot (100 + 50 * 2 ^ 24) 3). repeat split.
  - constructor.
  - exists r, c', s'. repeat split; assumption.
Defined.

Lemma new_returns_when_not_needed_witness :
  let c := demo_conn (demo_log (Some 0%nat)
                        [demo_slot 100 3; demo_slot (-1) 3]) in
  exists c',
    __wt_log_slot_new (ext := demo_ext) [] session_locked c
      = Returned (0, c') /\
    log c' = log c.
Proof.
  intros c.
  destruct (new_returns_when_not_needed (ext := demo_ext) [] session_locked c)
    as (c' & Hret & Hlog & _).
  - right. exists 0%nat, (demo_slot 100 3). repeat split.
  - exists c'. split; assumption.
Defined.

Lemma new_promotes_the_first_free_slot_witness :
  let c := demo_conn (demo_log None
                        [demo_slot 5 3; demo_slot (-1) 3; demo_slot (-1) 3]) in
  exists c',
    __wt_log_slot_new (ext := demo_ext) [] session_locked c
      = Returned (0, c') /\
    active_slot (log c') = Some 1%nat.
Proof.
  intros c.
  destruct (new_promotes_the_first_free_slot (ext := demo_ext) []
              session_locked c 1%nat (demo_slot (-1) 3)
              (snd (__wt_log_acquire (Collaborators := demo_ext)
                      (log c) 4 1%nat)))
    as (c' & Hret & _ & Hact & _); try reflexivity.
  - split; [reflexivity|exact I].
  - intros [|j] sj Hj; [intros [= <-]; discriminate|lia].
  - exists c'. split; assumption.
Defined.

Lemma new_waits_while_the_pool_is_full_witness :
  let c := demo_conn (demo_log None [demo_slot 5 3; demo_slot 7 3]) in
  __wt_log_slot_new (ext := demo_ext) [fun l => l] session_locked c
    = Spinning.
Proof.
  intros c.
  apply (new_waits_while_the_pool_is_full (ext := demo_ext) [fun l => l]
           session_locked c).
  - split; [reflexivity|exact I].
  - repeat constructor; discriminate.
  - constructor; [|constructor]. intros l H. exact H.
Defined.

Lemma new_signals_the_worker_when_the_pool_is_full_witness :
  let c := demo_conn (demo_log None [demo_slot 5 3; demo_slot 7 3]) in
  exists ret c',
    __wt_log_slot_new (ext := demo_ext) [worker_frees_slot_1] session_locked c
      = Returned (ret, c') /\
    (log_wrlsn_cond c < log_wrlsn_cond c')%nat.
Proof.
  intros c.
  destruct (__wt_log_slot_new (ext := demo_ext) [worker_frees_slot_1]
              session_locked c) as [[ret c']| |] eqn:H;
    [|by_running H..].
  exists ret, c'. split; [reflexivity|].
  apply (new_signals_the_worker_when_the_pool_is_full (ext := demo_ext)
           [worker_frees_slot_1] session_locked c ret c');
    [split; [reflexivity|exact I]|repeat constructor; discriminate|exact H].
Defined.

Lemma switch_twice_switches_once_witness :
  let c := demo_conn (demo_log (Some 0%nat)
                        [demo_slot (100 + 50 * 2 ^ 24) 3; demo_slot (-1) 3]) in
  exists c' c'',
    __wt_log_slot_switch (ext := demo_ext) [] [] session_locked c
      (Some 0%nat) = Returned (0, c') /\
    __wt_log_slot_switch (ext := demo_ext) [] [] session_locked c'
      (Some 0%nat) = Returned (0, c'') /\
    log c'' = log c'.
Proof.
  intros c.
  destruct (__wt_log_slot_switch (ext := demo_ext) [] [] session_locked c
              (Some 0%nat)) as [[ret c']| |] eqn:H;
    [|by_running H..].
  assert (Hret : ret = 0)
    by (pose proof H as H'; vm_compute in H'; now injection H' as <- _).
  subst ret.
  destruct (switch_twice_switches_once (ext := demo_ext) session_locked c
              0%nat c') as (_ & Hagain);
    [reflexivity|reflexivity| |exact H|].
  { exists (demo_slot (100 + 50 * 2 ^ 24) 3). repeat split. }
  destruct (Hagain [] []) as (c'' & Hsw & Hlog).
  exists c', c''. repeat split; assumption.
Defined.

Lemma free_puts_the_slot_back_witness :
  let l := demo_log None [demo_slot 5 3; demo_slot (100 + 2 ^ 62) 3] in
  exists l' k,
    __wt_log_slot_free l 1 = Returned (0, l') /\
    scan_pool (slot_pool l') 0 = Some k /\ (k <= 1)%nat.
Proof.
  intros l.
  destruct (free_puts_the_slot_back l 1%nat (demo_slot (100 + 2 ^ 62) 3)
              eq_refl)
    as (l' & s' & Hret & _ & _ & _ & _ & _ & _ & _ & _ & _ & k & Hscan & Hle).
  exists l', k. repeat split; assumption.
Defined.

Lemma release_reaches_my_start_under_races_witness :
  let l := demo_log (Some 0%nat) [demo_slot 100 3] in
  exists v l' s',
    __wt_log_slot_release [other_thread_raises_last_offset] l
      (MYSLOT.mk (Some 0%nat) 10 110) 100 = Returned (v, l') /\
    get_slot l' 0 = Some s' /\
    128 + 10 <= slot_last_offset s'.
Proof.
  intros l.
  destruct (__wt_log_slot_release [other_thread_raises_last_offset] l
              (MYSLOT.mk (Some 0%nat) 10 110) 100) as [[v l']| |] eqn:H;
    [|by_running H..].
  destruct (release_reaches_my_start_under_races
              [other_thread_raises_last_offset] l
              (MYSLOT.mk (Some 0%nat) 10 110) 100 v l' H)
    as (slot & s & s' & Hm & Hs & Hs' & Hle & _).
  injection Hm as <-. injection Hs as <-.
  exists v, l', s'. split; [reflexivity|]. split; [exact Hs'|exact Hle].
Defined.

Lemma activate_join_release_close_witness :
  let c := demo_conn (demo_log (Some 0%nat) [demo_slot (-1) 3]) in
  exists l1 c2 myslot v l3 c4,
    __wt_log_slot_activate (log c) 0 = Returned l1 /\
    __wt_log_slot_join [] session_unlocked (set_log l1 c) 100 0
      (MYSLOT.mk None 0 0) = Returned (0, myslot, c2) /\
    __wt_log_slot_release [] (log c2) myslot 100 = Returned (v, l3) /\
    __wt_log_slot_close [] session_locked (set_log l3 c2) (Some 0%nat)
      (Some 7) = Returned (0, Some 1, c4) /\
    alloc_lsn (log c4) = LSN.mk 1 228.
Proof.
  intros c.
  destruct (activate_join_release_close session_unlocked session_locked c
              0%nat (demo_slot (-1) 3) 100 0 (MYSLOT.mk None 0 0) 7)
    as (l1 & c2 & myslot & v & l3 & c4 & Hact & Hjoin & _ & Hrel & _
        & Hclose & Halloc); try reflexivity; try evaluate.
  exists l1, c2, myslot, v, l3, c4. repeat split; assumption.
Defined.

Lemma destroy_frees_every_buffer_witness :
  let c := demo_conn (demo_log None
                        [demo_slot (2 * 2 ^ 24) 3; demo_slot (-1) 3]) in
  exists c',
    __wt_log_slot_destroy (ext := demo_ext) c = Returned (0, c') /\
    Forall (fun slot => slot_buf slot = None) (slot_pool (log c')).
Proof.
  intros c.
  destruct (destroy_frees_every_buffer (ext := demo_ext) c)
    as (c' & Hret & _ & Hfreed).
  - constructor; [right; intros fs; reflexivity|].
    constructor; [left; left; reflexivity|constructor].
  - exists c'. split; assumption.
Defined.

Lemma destroy_without_residual_writes_nothing_witness :
  let c := demo_conn (demo_log None
                        [demo_slot (-1) (-1); demo_slot 100 (-1)]) in
  exists c',
    __wt_log_slot_destroy (ext := demo_ext) c = Returned (0, c') /\
    files c' = [].
Proof.
  intros c.
  destruct (destroy_without_residual_writes_nothing (ext := demo_ext) c)
    as (c' & Hret & Hfiles & _).
  - constructor; [left; reflexivity|].
    constructor; [right; reflexivity|constructor].
  - exists c'. split; assumption.
Defined.

Lemma init_activates_slot_zero_witness :
  let c := small_conn (demo_log None [demo_slot 5 3; demo_slot 7 3]) in
  exists c',
    __wt_log_slot_init (ext := demo_ext) c = Returned (0, c') /\
    active_slot (log c') = Some 0%nat /\
    slot_buf_size (log c') = 4.
Proof.
  intros c.
  destruct (__wt_log_slot_init (ext := demo_ext) c) as [[ret c']| |] eqn:H;
    [|by_running H..].
  assert (Hret : ret = 0)
    by (pose proof H as H'; vm_compute in H'; now injection H' as <- _).
  subst ret.
  destruct (init_activates_slot_zero (ext := demo_ext) c c' H)
    as (Hact & Hsize & _).
  exists c'. split; [reflexivity|]. split; [exact Hact|exact Hsize].
Defined.

Lemma init_failure_frees_the_buffers_witness :
  let c := small_conn (demo_log None
             [demo_slot 5 3; set_slot_buf (Some []) (demo_slot 7 3);
              demo_slot 9 3]) in
  exists c' s0,
    __wt_log_slot_init (ext := demo_ext_oom) c = Returned (12, c') /\
    get_slot (log c') 0 = Some s0 /\ slot_buf s0 = None /\
    active_slot (log c') = None.
Proof.
  intros c.
  destruct (__wt_log_slot_init (ext := demo_ext_oom) c)
    as [[ret c']| |] eqn:H; [|by_running H..].
  assert (Hret : ret = 12)
    by (pose proof H as H'; vm_compute in H'; now injection H' as <- _).
  subst ret.
  destruct (init_failure_frees_the_buffers (ext := demo_ext_oom) c 12 c' H)
    as (Hact & _ & _ & _ & i & si & Hsi & Hfail & Hfreed); [discriminate|].
  destruct (get_slot (log c') 0) as [s0|] eqn:Hs0;
    [|pose proof H as H'; vm_compute in H'; injection H' as <-;
      by_running Hs0].
  exists c', s0. split; [reflexivity|]. split; [exact Hs0|].
  split; [|exact Hact].
  apply (Hfreed 0%nat s0); [|exact Hs0].
  destruct i as [|i]; [|lia]. exfalso.
  injection Hsi as <-. by_running Hfail.
Defined.

End MoreInstances.
